(** * Perceptron visualiser: inference engine, connection selector,
      layout, recolouring and drawing grid

    A shallow embedding of the script that drives the visualiser: the
    classes [DrawingGrid], [MLPNetwork], [PredictionChart] and
    [NetworkVisualizer], the helpers [softmax] and [maxAbsValue], and
    [initApp] with its [updateNetwork] and its reset button.

    Numbers.  JavaScript numbers are IEEE doubles, and the typed arrays
    of the script hold IEEE singles.  The code is written against an
    interface of arithmetic operations ([Arith]); every definition below
    is generic in it, so the structural lemmas hold for any arithmetic.
    What [forward] computes and stores is stated for any arithmetic,
    with the rounding of a store into a typed array ([fround]) written
    out.  The instance used to evaluate the code and to state
    order-dependent facts is [ext K]: the finite values of an ordered
    field [K] together with [+Infinity], [-Infinity] and [NaN], with the
    IEEE rules for the special values and exact arithmetic on the finite
    ones (in this instance rounding and overflow are idealised away, and
    the sign of zero is not tracked).  [K] is [Q] where the code is
    evaluated, and [R] for [softmax], whose exponential is not
    rational. *)

From Stdlib Require Import QArith Qminmax Qabs Qround Qreals Reals Lra Lia Sorted.
From Stdlib Require Lqa.
From stdpp Require Import base list strings pretty gmap.

Set Default Proof Using "Type".

(** ** The arithmetic interface *)

Class Arith (num : Type) := {
  lit : Q -> num;                  (* a numeric literal *)
  nan : num;                       (* NaN, also what [undefined] coerces to *)
  neg_infinity : num;              (* -Infinity, the value of [Math.max()] *)
  add : num -> num -> num;
  sub : num -> num -> num;
  mul : num -> num -> num;
  div : num -> num -> num;
  neg : num -> num;                (* unary minus *)
  abs : num -> num;                (* Math.abs *)
  fmin : num -> num -> num;        (* Math.min on two arguments *)
  fmax : num -> num -> num;        (* Math.max on two arguments *)
  gtb : num -> num -> bool;        (* a > b *)
  ltb : num -> num -> bool;        (* a < b *)
  geb : num -> num -> bool;        (* a >= b *)
  leb : num -> num -> bool;        (* a <= b *)
  eqb : num -> num -> bool;        (* a === b *)
  isFinite : num -> bool;          (* Number.isFinite *)
  fround : num -> num;             (* the rounding of a Float32Array store *)
}.

Declare Scope js_scope.
Delimit Scope js_scope with js.
Infix "⊕" := add (at level 50, left associativity) : js_scope.
Infix "⊖" := sub (at level 50, left associativity) : js_scope.
Infix "⊗" := mul (at level 40, left associativity) : js_scope.
Infix "⊘" := div (at level 40, left associativity) : js_scope.
Local Open Scope js_scope.

Section Generic.
Context {num : Type} `{!Arith num}.

Definition zero : num := lit 0.
Definition one : num := lit 1.

(** [x || y] on numbers: [x] is falsy when it is zero or NaN. *)
Definition truthy (x : num) : bool := negb (eqb x zero) && eqb x x.
Definition or_else (x y : num) : num := if truthy x then x else y.

(** [arr[i]] read in a numeric context: a read out of range is
    [undefined], which arithmetic coerces to NaN. *)
Definition idx (arr : list num) (i : nat) : num :=
  match arr !! i with Some v => v | None => nan end.

(** [Number(i)] for an array index or a count. *)
Definition of_nat (n : nat) : num := lit (inject_Z (Z.of_nat n)).

End Generic.

(** ** The extended-field instance *)

Class Scalar (K : Type) := {
  k_of_Q : Q -> K;
  kadd : K -> K -> K;
  kopp : K -> K;
  kmul : K -> K -> K;
  kinv : K -> K;
  kcmp : K -> K -> comparison;
}.

Inductive ext (K : Type) : Type :=
  | Fin (k : K)
  | PInf
  | NInf
  | NaN.
Arguments Fin {K} k.
Arguments PInf {K}.
Arguments NInf {K}.
Arguments NaN {K}.

Section Ext.
Context {K : Type} `{Scalar K}.

Definition k0 : K := k_of_Q 0.
Definition ksgn (k : K) : comparison := kcmp k k0.

Definition flip (x : ext K) : ext K :=
  match x with
  | Fin k => Fin (kopp k)
  | PInf => NInf
  | NInf => PInf
  | NaN => NaN
  end.

(** An infinity [inf], with the sign [s] of the other factor applied. *)
Definition signed (s : comparison) (inf : ext K) : ext K :=
  match s with Gt => inf | Lt => flip inf | Eq => NaN end.

Definition ext_add (x y : ext K) : ext K :=
  match x, y with
  | NaN, _ | _, NaN => NaN
  | Fin a, Fin b => Fin (kadd a b)
  | PInf, NInf | NInf, PInf => NaN
  | PInf, _ | _, PInf => PInf
  | NInf, _ | _, NInf => NInf
  end.

Definition ext_sub (x y : ext K) : ext K := ext_add x (flip y).

Definition ext_mul (x y : ext K) : ext K :=
  match x, y with
  | NaN, _ | _, NaN => NaN
  | Fin a, Fin b => Fin (kmul a b)
  | Fin a, inf => signed (ksgn a) inf
  | inf, Fin b => signed (ksgn b) inf
  | PInf, PInf | NInf, NInf => PInf
  | PInf, NInf | NInf, PInf => NInf
  end.

Definition ext_div (x y : ext K) : ext K :=
  match x, y with
  | NaN, _ | _, NaN => NaN
  | Fin a, Fin b =>
      match ksgn b with
      | Eq => signed (ksgn a) PInf
      | _ => Fin (kmul a (kinv b))
      end
  | Fin _, _ => Fin k0
  | inf, Fin b => match ksgn b with Lt => flip inf | _ => inf end
  | _, _ => NaN
  end.

Definition ext_abs (x : ext K) : ext K :=
  match x with
  | Fin a => Fin (match ksgn a with Lt => kopp a | _ => a end)
  | PInf | NInf => PInf
  | NaN => NaN
  end.

(** Comparison; [None] when an operand is NaN. *)
Definition ext_cmp (x y : ext K) : option comparison :=
  match x, y with
  | NaN, _ | _, NaN => None
  | Fin a, Fin b => Some (kcmp a b)
  | PInf, PInf | NInf, NInf => Some Eq
  | PInf, _ | _, NInf => Some Gt
  | NInf, _ | _, PInf => Some Lt
  end.

Definition ext_gtb (x y : ext K) : bool :=
  match ext_cmp x y with Some Gt => true | _ => false end.
Definition ext_ltb (x y : ext K) : bool :=
  match ext_cmp x y with Some Lt => true | _ => false end.
Definition ext_geb (x y : ext K) : bool :=
  match ext_cmp x y with Some Gt | Some Eq => true | _ => false end.
Definition ext_leb (x y : ext K) : bool :=
  match ext_cmp x y with Some Lt | Some Eq => true | _ => false end.
Definition ext_eqb (x y : ext K) : bool :=
  match ext_cmp x y with Some Eq => true | _ => false end.

Definition ext_min (x y : ext K) : ext K :=
  match ext_cmp x y with
  | None => NaN
  | Some Gt => y
  | Some _ => x
  end.

Definition ext_max (x y : ext K) : ext K :=
  match ext_cmp x y with
  | None => NaN
  | Some Lt => y
  | Some _ => x
  end.

Definition ext_isFinite (x : ext K) : bool :=
  match x with Fin _ => true | _ => false end.

#[export] Instance ext_arith : Arith (ext K) := {|
  lit q := Fin (k_of_Q q);
  nan := NaN;
  neg_infinity := NInf;
  add := ext_add;
  sub := ext_sub;
  mul := ext_mul;
  div := ext_div;
  neg := flip;
  abs := ext_abs;
  fmin := ext_min;
  fmax := ext_max;
  gtb := ext_gtb;
  ltb := ext_ltb;
  geb := ext_geb;
  leb := ext_leb;
  eqb := ext_eqb;
  isFinite := ext_isFinite;
  fround x := x;
|}.

End Ext.

#[export] Instance Q_scalar : Scalar Q := {|
  k_of_Q q := Qred q;
  kadd a b := Qred (a + b);
  kopp a := Qred (- a);
  kmul a b := Qred (a * b);
  kinv a := Qred (/ a);
  kcmp := Qcompare;
|}.

Definition Rcmp (a b : R) : comparison :=
  match total_order_T a b with
  | inleft (left _) => Lt
  | inleft (right _) => Eq
  | inright _ => Gt
  end.

#[export] Instance R_scalar : Scalar R := {|
  k_of_Q := Q2R;
  kadd := Rplus;
  kopp := Ropp;
  kmul := Rmult;
  kinv := Rinv;
  kcmp := Rcmp;
|}.

(** The numbers the code is evaluated on. *)
Abbreviation xq := (ext Q).
Abbreviation xr := (ext R).

(** ** Control flow: exceptions and loops *)

Inductive exn : Type :=
  | Error (msg : string)
  | TypeError (msg : string).

Inductive result (A : Type) : Type :=
  | Ok (a : A)
  | Throw (e : exn).
Arguments Ok {A} a.
Arguments Throw {A} e.

#[export] Instance result_ret : MRet result := fun A a => Ok a.
#[export] Instance result_bind : MBind result := fun A B f r =>
  match r with Ok a => f a | Throw e => Throw e end.

(** [for (let i = 0; i < n; i += 1) body] on a state [S]. *)
Definition for_loop {S : Type} (n : nat) (body : nat -> S -> S) (s : S) : S :=
  foldl (fun s i => body i s) s (seq 0 n).

(** The same loop with a body that can throw. *)
Definition for_loopM {S : Type} (n : nat) (body : nat -> S -> result S)
    (s : S) : result S :=
  foldl (fun r i => s ← r; body i s) (Ok s) (seq 0 n).

(** [arr.forEach((x, i) => body)] with a body that can throw. *)
Definition forEachM {A S : Type} (arr : list A) (body : A -> nat -> S -> result S)
    (s : S) : result S :=
  foldl (fun r '(i, x) => s ← r; body x i s) (Ok s) (imap pair arr).

(** ** MLPNetwork *)

Section MLP.
Context {num : Type} `{!Arith num}.

(** The loaded JSON document; an absent field is [None]. *)
Record LayerDef : Type := {
  def_name : option string;
  def_activation : option string;
  def_weights : list (list num);
  def_biases : list num;
}.

Record Normalization : Type := { mean : num; std : num }.

Record NetworkDef : Type := {
  def_layers : option (list LayerDef);
  def_normalization : option Normalization;
  def_architecture : option (list nat);
}.

Record Layer : Type := {
  name : string;
  activation : string;
  weights : list (list num);
  biases : list num;
}.

Record MLPNetwork : Type := {
  normalization : Normalization;
  architecture : list nat;
  layers : list Layer;
}.

(** [Float32Array.from(row)] *)
Definition Float32Array_from (row : list num) : list num := map fround row.

(** [new Float32Array(n)] *)
Definition Float32Array_new (n : nat) : list num := replicate n zero.

Definition computeArchitecture (ls : list LayerDef) : list nat :=
  match ls with
  | [] => []
  | firstLayer :: _ =>
      let architecture :=
        [match def_weights firstLayer !! 0%nat with
         | Some row => length row
         | None => 0%nat
         end] in
      foldl (fun architecture layer => architecture ++ [length (def_biases layer)])
        architecture ls
  end.

Definition MLPNetwork_new (definition : NetworkDef) : result MLPNetwork :=
  match def_layers definition with
  | None | Some [] => Throw (Error "Network definition must contain layers.")
  | Some ls =>
      Ok {| normalization :=
              match def_normalization definition with
              | Some n => n
              | None => {| mean := zero; std := one |}
              end;
            architecture :=
              match def_architecture definition with
              | Some a => a
              | None => computeArchitecture ls
              end;
            layers :=
              imap (fun index layer =>
                {| name := match def_name layer with
                           | Some n => n
                           | None => "dense_" +:+ pretty index
                           end;
                   activation := match def_activation layer with
                                 | Some a => a
                                 | None => "relu"
                                 end;
                   weights := map Float32Array_from (def_weights layer);
                   biases := Float32Array_from (def_biases layer) |}) ls |}
  end.

Record ForwardResult : Type := {
  normalizedInput : list num;
  activations : list (list num);
  preActivations : list (list num);
}.

(** The normalisation loop of [forward]. *)
Definition normalize (n : Normalization) (pixels : list num) : list num :=
  for_loop (length pixels)
    (fun i input => <[i := fround ((idx pixels i ⊖ mean n) ⊘ std n)]> input)
    (Float32Array_new (length pixels)).

(** The loop over [source] for one output neuron: [sum] starts at the
    bias and accumulates [weights[source] * current[source]]. *)
Definition neuron_sum (bias : num) (ws current : list num) : num :=
  for_loop (length ws)
    (fun source sum => sum ⊕ idx ws source ⊗ idx current source) bias.

(** The loop over [neuron]; reading [weights.length] of a missing row
    throws. *)
Definition linear_layer (layer : Layer) (current : list num) : result (list num) :=
  let outSize := length (biases layer) in
  for_loopM outSize
    (fun neuron linear =>
       match weights layer !! neuron with
       | None => Throw (TypeError "Cannot read properties of undefined (reading 'length')")
       | Some ws =>
           Ok (<[neuron := fround (neuron_sum (idx (biases layer) neuron) ws current)]> linear)
       end)
    (Float32Array_new outSize).

Definition activate (layer : Layer) (linear : list num) : list num :=
  let outSize := length (biases layer) in
  if String.eqb (activation layer) "relu" then
    for_loop outSize
      (fun i activated =>
         <[i := fround (if gtb (idx linear i) zero then idx linear i else zero)]> activated)
      (Float32Array_new outSize)
  else linear.

(** The state of the loop over the layers: [activations],
    [preActivations] and [current]. *)
Definition forward_step (st : list (list num) * list (list num) * list num)
    (layer : Layer) : result (list (list num) * list (list num) * list num) :=
  let '(acts, pres, current) := st in
  linear ← linear_layer layer current;
  let activated := activate layer linear in
  Ok (acts ++ [activated], pres ++ [linear], activated).

Definition forward (net : MLPNetwork) (pixels : list num) : result ForwardResult :=
  let input := normalize (normalization net) pixels in
  st ← foldl (fun r layer => st ← r; forward_step st layer)
         (Ok ([input], [], input)) (layers net);
  let '(acts, pres, _) := st in
  Ok {| normalizedInput := match acts !! 0%nat with Some a => a | None => [] end;
        activations := acts;
        preActivations := pres |}.

End MLP.

Arguments LayerDef : clear implicits.
Arguments Normalization : clear implicits.
Arguments NetworkDef : clear implicits.
Arguments Layer : clear implicits.
Arguments MLPNetwork : clear implicits.
Arguments ForwardResult : clear implicits.

(** ** NetworkVisualizer: the connection selector *)

(** [arr.sort(cmp)]: the sort is stable, and [a] goes after [b] when
    [cmp(a, b) > 0].  Insertion from the right is such a sort; for a
    comparator that is a consistent order (as the one of the selector is,
    below) the result of a stable sort does not depend on the algorithm. *)
Fixpoint sort_insert {num : Type} `{!Arith num} {A : Type} (cmp : A -> A -> num) (x : A)
    (sorted : list A) : list A :=
  match sorted with
  | [] => [x]
  | y :: rest =>
      if gtb (cmp x y) zero then y :: sort_insert cmp x rest else x :: y :: rest
  end.

Definition Array_sort {num : Type} `{!Arith num} {A : Type} (cmp : A -> A -> num)
    (arr : list A) : list A :=
  foldr (sort_insert cmp) [] arr.

Section Selector.
Context {num : Type} `{!Arith num}.

Record Candidate : Type := {
  c_sourceIndex : nat;
  c_targetIndex : nat;
  c_weight : num;
  c_magnitude : num;
}.

Record Connection : Type := {
  sourceIndex : nat;
  targetIndex : nat;
  weight : num;
}.

(** The loop over [source]: the candidates of one row, and the running
    [maxAbsWeight]. *)
Definition row_candidates (target : nat) (row : list num) (maxAbsWeight : num)
    : list Candidate * num :=
  for_loop (length row)
    (fun source '(candidates, maxAbsWeight) =>
       let weight := idx row source in
       if negb (isFinite weight) then (candidates, maxAbsWeight)
       else
         let magnitude := abs weight in
         (candidates ++ [{| c_sourceIndex := source; c_targetIndex := target;
                            c_weight := weight; c_magnitude := magnitude |}],
          if gtb magnitude maxAbsWeight then magnitude else maxAbsWeight))
    ([], maxAbsWeight).

Definition by_magnitude_desc (a b : Candidate) : num :=
  c_magnitude b ⊖ c_magnitude a.

(** The edges pushed for one target, given its candidates. *)
Definition take_top (limit : nat) (candidates : list Candidate)
    (selected : list Connection) : list Connection :=
  let sorted := Array_sort by_magnitude_desc candidates in
  let take := Nat.min limit (length sorted) in
  for_loop take
    (fun i selected =>
       match sorted !! i with
       | Some c => selected ++ [{| sourceIndex := c_sourceIndex c;
                                   targetIndex := c_targetIndex c;
                                   weight := c_weight c |}]
       | None => selected
       end)
    selected.

Record Selection : Type := {
  selected : list Connection;
  sel_maxAbsWeight : num;
}.

(** [limit] is [this.options.maxConnectionsPerNeuron], a count. *)
Definition findImportantConnections (limit : nat) (layer : Layer num) : Selection :=
  let '(selected, maxAbsWeight) :=
    for_loop (length (weights layer))
      (fun target '(selected, maxAbsWeight) =>
         let row := match weights layer !! target with Some r => r | None => [] end in
         let '(candidates, maxAbsWeight) := row_candidates target row maxAbsWeight in
         (take_top limit candidates selected, maxAbsWeight))
      ([], zero) in
  {| selected := selected; sel_maxAbsWeight := maxAbsWeight |}.

End Selector.

Arguments Candidate : clear implicits.
Arguments Connection : clear implicits.
Arguments Selection : clear implicits.

(** ** NetworkVisualizer: scene state, layout and recolouring *)

Section Visualizer.
Context {num : Type} `{!Arith num}.

Record Vector3 : Type := { vx : num; vy : num; vz : num }.
Record Color : Type := { cr : num; cg : num; cb : num }.

(** An [InstancedBufferAttribute]: its typed array and its dirty flag. *)
Record BufferAttribute : Type := {
  attr_array : list num;
  needsUpdate : bool;
}.

(** An [InstancedMesh].  Geometry and material are objects of the
    rendering library, kept as handles; [instanceMatrix] holds 16 numbers
    and [instanceColor] 3 numbers per instance.  [buildLayers] and
    [buildConnections] give every mesh an [instanceColor] before any
    update, so the attribute is always present here. *)
Record InstancedMesh : Type := {
  geometry : nat;
  material : nat;
  count : nat;
  instanceMatrix : BufferAttribute;
  instanceColor : BufferAttribute;
}.

Record LayerMesh : Type := {
  mesh : InstancedMesh;
  positions : list Vector3;
}.

Record ConnectionGroup : Type := {
  group_mesh : InstancedMesh;
  connections : list (Connection num);
  sourceLayer : nat;
  maxAbsWeight : num;
}.

Record Options : Type := {
  layerSpacing : num;
  nodeRadius : num;
  maxConnectionsPerNeuron : nat;
  inputSpacing : num;
  hiddenSpacing : num;
}.

Record NetworkVisualizer : Type := {
  mlp : MLPNetwork num;
  options : Options;
  layerMeshes : list LayerMesh;
  connectionGroups : list ConnectionGroup;
  tempColor : Color;
}.

(** *** computeLayerPositions *)

(** [Math.ceil(Math.sqrt(n))] and [Math.ceil(n / c)] on counts. *)
Definition ceil_sqrt (n : nat) : nat :=
  let s := Nat.sqrt n in if (s * s =? n)%nat then s else S s.

Definition ceil_div (n c : nat) : nat :=
  if (n mod c =? 0)%nat then (n / c)%nat else S (n / c).

(** A count that may be NaN ([0 / 0]), as a number. *)
Definition count_num (c : option nat) : num :=
  match c with Some c => of_nat c | None => nan end.

Definition grid_position (spacing height width layerX : num) (row col : nat)
    : Vector3 :=
  let y := height ⊘ lit 2 ⊖ of_nat row ⊗ spacing in
  let z := neg width ⊘ lit 2 ⊕ of_nat col ⊗ spacing in
  {| vx := layerX; vy := y; vz := z |}.

(** The two loop nests of the input layer carry [positions] and
    [filled]; a loop whose condition [filled < neuronCount] has become
    false runs no further iteration, and the condition cannot become true
    again, so the remaining indices skip. *)
Definition input_positions (spacing layerX : num) (neuronCount : nat)
    : list Vector3 :=
  let '(rows, cols) :=
    if (neuronCount =? 28 * 28)%nat then (Some 28%nat, 28%nat)
    else
      let cols := ceil_sqrt neuronCount in
      (if (cols =? 0)%nat then None else Some (ceil_div neuronCount cols), cols) in
  let height := (count_num rows ⊖ one) ⊗ spacing in
  let width := (of_nat cols ⊖ one) ⊗ spacing in
  fst (for_loop (match rows with Some r => r | None => 0%nat end)
    (fun row st =>
       if (snd st <? neuronCount)%nat then
         for_loop cols
           (fun col '(positions, filled) =>
              if (filled <? neuronCount)%nat then
                (positions ++ [grid_position spacing height width layerX row col],
                 S filled)
              else (positions, filled))
           st
       else st)
    ([], 0%nat)).

Definition hidden_positions (spacing layerX : num) (neuronCount : nat)
    : list Vector3 :=
  let cols := Nat.max 1 (ceil_sqrt neuronCount) in
  let rows := ceil_div neuronCount cols in
  let height := (of_nat rows ⊖ one) ⊗ spacing in
  let width := (of_nat cols ⊖ one) ⊗ spacing in
  for_loop neuronCount
    (fun index positions =>
       let row := (index / cols)%nat in
       let col := (index mod cols)%nat in
       positions ++ [grid_position spacing height width layerX row col])
    [].

Definition computeLayerPositions (this : NetworkVisualizer) (layerIndex : nat)
    (neuronCount : nat) (layerX : num) : list Vector3 :=
  if (layerIndex =? 0)%nat then
    input_positions (inputSpacing (options this)) layerX neuronCount
  else
    hidden_positions (hiddenSpacing (options this)) layerX neuronCount.

(** *** update *)

Definition maxAbsValue (values : list num) : num :=
  for_loop (length values)
    (fun i max =>
       let magnitude := abs (idx values i) in
       if gtb magnitude max then magnitude else max)
    zero.

Definition setRGB (r g b : Q) : Color :=
  {| cr := lit r; cg := lit g; cb := lit b |}.

(** [color.setRGB(a0 + a1 * intensity, ...)] *)
Definition ramp (r0 r1 g0 g1 b0 b1 : Q) (intensity : num) : Color :=
  {| cr := lit r0 ⊕ lit r1 ⊗ intensity;
     cg := lit g0 ⊕ lit g1 ⊗ intensity;
     cb := lit b0 ⊕ lit b1 ⊗ intensity |}.

(** [mesh.setColorAt(index, color)]: three stores into the colour
    array; a typed array ignores a store out of range. *)
Definition set_array (a : BufferAttribute) (arr : list num) : BufferAttribute :=
  {| attr_array := arr; needsUpdate := needsUpdate a |}.

Definition set_needsUpdate (a : BufferAttribute) : BufferAttribute :=
  {| attr_array := attr_array a; needsUpdate := true |}.

Definition set_instanceColor (m : InstancedMesh) (a : BufferAttribute)
    : InstancedMesh :=
  {| geometry := geometry m; material := material m; count := count m;
     instanceMatrix := instanceMatrix m; instanceColor := a |}.

Definition setColorAt (m : InstancedMesh) (index : nat) (c : Color)
    : InstancedMesh :=
  let a := attr_array (instanceColor m) in
  let a := <[(index * 3)%nat := fround (cr c)]> a in
  let a := <[(index * 3 + 1)%nat := fround (cg c)]> a in
  let a := <[(index * 3 + 2)%nat := fround (cb c)]> a in
  set_instanceColor m (set_array (instanceColor m) a).

Definition node_intensity (value safeScale : num) : num :=
  fmin one (abs value ⊘ safeScale).

Definition node_color (value intensity : num) : Color :=
  if ltb intensity (lit (15 # 1000)) then setRGB (8 # 100) (1 # 10) (18 # 100)
  else if geb value zero then
    ramp (14 # 100) (86 # 100) (24 # 100) (62 # 100) (28 # 100) (18 # 100) intensity
  else
    ramp (16 # 100) (24 # 100) (22 # 100) (48 # 100) (32 # 100) (68 # 100) intensity.

Definition safe_scale (scale : num) : num :=
  if gtb scale (lit (1 # 1000000)) then scale else one.

(** The mesh and [this.tempColor] after the call. *)
Definition applyNodeColors (m : InstancedMesh) (tc : Color) (values : list num)
    (scale : num) : InstancedMesh * Color :=
  let safeScale := safe_scale scale in
  let '(m, tc) :=
    for_loop (length values)
      (fun i '(m, _) =>
         let value := idx values i in
         let intensity := node_intensity value safeScale in
         let tc := node_color value intensity in
         (setColorAt m i tc, tc))
      (m, tc) in
  (set_instanceColor m (set_needsUpdate (instanceColor m)), tc).

Definition connection_color (value intensity : num) : Color :=
  if ltb intensity (lit (2 # 100)) then setRGB (8 # 100) (1 # 10) (18 # 100)
  else if geb value zero then
    ramp (25 # 100) (75 # 100) (32 # 100) (45 # 100) (2 # 10) (15 # 100) intensity
  else
    ramp (2 # 10) (18 # 100) (28 # 100) (4 # 10) (4 # 10) (55 # 100) intensity.

(** The first [forEach] of [applyConnectionColors]: [contributions] and
    [maxContribution]. *)
Definition contributions_of (conns : list (Connection num)) (sourceValues : list num)
    : list num * num :=
  foldl (fun '(contributions, maxContribution) '(index, connection) =>
           let activation :=
             match sourceValues !! sourceIndex connection with
             | Some a => a
             | None => zero
             end in
           let contribution := activation ⊗ weight connection in
           let magnitude := abs contribution in
           (<[index := fround contribution]> contributions,
            if gtb magnitude maxContribution then magnitude else maxContribution))
    (Float32Array_new (length conns), zero) (imap pair conns).

Definition connection_scale (maxContribution maxAbsWeight : num) : num :=
  if gtb maxContribution (lit (1 # 1000000)) then maxContribution
  else or_else maxAbsWeight one.

Definition applyConnectionColors (group : ConnectionGroup) (tc : Color)
    (sourceValues : list num) : ConnectionGroup * Color :=
  let '(contributions, maxContribution) :=
    contributions_of (connections group) sourceValues in
  let scale := connection_scale maxContribution (maxAbsWeight group) in
  let '(m, tc) :=
    foldl (fun '(m, _) '(index, _) =>
             let value := idx contributions index in
             let intensity := fmin one (abs value ⊘ scale) in
             let tc := connection_color value intensity in
             (setColorAt m index tc, tc))
      (group_mesh group, tc) (imap pair (connections group)) in
  ({| group_mesh := set_instanceColor m (set_needsUpdate (instanceColor m));
      connections := connections group;
      sourceLayer := sourceLayer group;
      maxAbsWeight := maxAbsWeight group |}, tc).

Definition set_layerMesh (this : NetworkVisualizer) (i : nat) (m : InstancedMesh)
    (tc : Color) : NetworkVisualizer :=
  {| mlp := mlp this; options := options this;
     layerMeshes :=
       alter (fun layer => {| mesh := m; positions := positions layer |}) i
         (layerMeshes this);
     connectionGroups := connectionGroups this;
     tempColor := tc |}.

Definition set_group (this : NetworkVisualizer) (i : nat) (g : ConnectionGroup)
    (tc : Color) : NetworkVisualizer :=
  {| mlp := mlp this; options := options this;
     layerMeshes := layerMeshes this;
     connectionGroups := <[i := g]> (connectionGroups this);
     tempColor := tc |}.

(** The scale handed to [applyNodeColors] for a layer; [maxAbsValue]
    throws on a missing activation vector. *)
Definition node_scale (layerIndex : nat) (actualActivations : list (list num))
    : result num :=
  if (layerIndex =? 0)%nat then Ok one
  else
    match actualActivations !! layerIndex with
    | Some a => Ok (maxAbsValue a)
    | None => Throw (TypeError "Cannot read properties of undefined (reading 'length')")
    end.

Definition update (this : NetworkVisualizer)
    (displayActivations actualActivations : list (list num))
    : result NetworkVisualizer :=
  this ← forEachM (layerMeshes this)
    (fun layer layerIndex this =>
       match displayActivations !! layerIndex with
       | None => Ok this
       | Some values =>
           scale ← node_scale layerIndex actualActivations;
           let '(m, tc) :=
             applyNodeColors (mesh layer) (tempColor this) values (or_else scale one) in
           Ok (set_layerMesh this layerIndex m tc)
       end)
    this;
  forEachM (connectionGroups this)
    (fun group groupIndex this =>
       match actualActivations !! sourceLayer group with
       | None => Ok this
       | Some sourceValues =>
           let '(g, tc) := applyConnectionColors group (tempColor this) sourceValues in
           Ok (set_group this groupIndex g tc)
       end)
    this.

End Visualizer.

Arguments Vector3 : clear implicits.
Arguments Color : clear implicits.
Arguments BufferAttribute : clear implicits.
Arguments InstancedMesh : clear implicits.
Arguments LayerMesh : clear implicits.
Arguments ConnectionGroup : clear implicits.
Arguments Options : clear implicits.
Arguments NetworkVisualizer : clear implicits.

(** ** softmax *)

(** [Math.exp] is a parameter: it is not an operation of the
    arithmetic interface. *)
Definition softmax {num : Type} `{!Arith num} (exp : num -> num) (values : list num) : list num :=
  match values with
  | [] => []
  | _ =>
      let maxVal := foldl fmax neg_infinity values in
      let exps := map (fun value => exp (value ⊖ maxVal)) values in
      let sum := foldl (fun acc value => acc ⊕ value) zero exps in
      map (fun value => if eqb sum zero then zero else value ⊘ sum) exps
  end.

(** ** DrawingGrid *)

Section Grid.
Context {num : Type} `{!Arith num}.

(** The typed arrays live in a store; a reference is an index into it.
    The grid owns [grid_values]; [getPixels] hands out references to
    arrays of its own. *)
Record DrawingGrid : Type := {
  grid_rows : nat;
  grid_cols : nat;
  grid_values : nat;
  pendingChange : bool;
}.

Record World : Type := {
  store : list (list num);
  grid : DrawingGrid;
}.

Definition alloc (st : list (list num)) (arr : list num) : list (list num) * nat :=
  (st ++ [arr], length st).

Definition deref (st : list (list num)) (r : nat) : list num :=
  match st !! r with Some a => a | None => [] end.

Definition DrawingGrid_new (st : list (list num)) (rows cols : nat) : World :=
  let '(st, r) := alloc st (Float32Array_new (rows * cols)) in
  {| store := st;
     grid := {| grid_rows := rows; grid_cols := cols; grid_values := r;
                pendingChange := false |} |}.

Definition set_pending (g : DrawingGrid) (b : bool) : DrawingGrid :=
  {| grid_rows := grid_rows g; grid_cols := grid_cols g;
     grid_values := grid_values g; pendingChange := b |}.

Definition paintCell (w : World) (index : nat) (erase : bool) : World :=
  let values := deref (store w) (grid_values (grid w)) in
  let delta := if erase then lit (-45 # 100) else lit (55 # 100) in
  let nextValue := fmin one (fmax zero (idx values index ⊕ delta)) in
  match values !! index with
  | Some v =>
      if eqb nextValue v then w
      else
        {| store := <[grid_values (grid w) := <[index := fround nextValue]> values]> (store w);
           grid := set_pending (grid w) true |}
  | None =>
      (* [nextValue] is NaN, the store is ignored *)
      {| store := store w; grid := set_pending (grid w) true |}
  end.

(** The new store and the reference returned to the caller. *)
Definition getPixels (w : World) : World * nat :=
  let '(st, r) :=
    alloc (store w) (Float32Array_from (deref (store w) (grid_values (grid w)))) in
  ({| store := st; grid := grid w |}, r).

Definition clear (w : World) : World :=
  let values := deref (store w) (grid_values (grid w)) in
  {| store := <[grid_values (grid w) := replicate (length values) zero]> (store w);
     grid := grid w |}.

End Grid.

Arguments World : clear implicits.

(** ** The forward pass in the words of the specification

    These definitions follow the specification, not the code; the code
    above is compared with them below. *)

Section ForwardSpec.
Context {num : Type} `{!Arith num}.

(** [input[i] = (pixels[i] - mean) / std], stored in a typed array. *)
Definition normalized_input (n : Normalization num) (pixels : list num) : list num :=
  map (fun p => fround ((p ⊖ mean n) ⊘ std n)) pixels.

(** [bias + sum over k of row[k] * current[k]], accumulated from the bias
    in the order of [k]. *)
Definition weighted_sum (bias : num) (row current : list num) : num :=
  foldl add bias (imap (fun k w => w ⊗ idx current k) row).

(** One [linear[j]] per output neuron. *)
Definition dense (layer : Layer num) (current : list num) : list num :=
  zip_with (fun b row => fround (weighted_sum b row current))
    (biases layer) (weights layer).

Definition relu (v : num) : num := if gtb v zero then v else zero.

Definition is_relu (layer : Layer num) : bool :=
  String.eqb (activation layer) "relu".

Definition activation_of (layer : Layer num) (linear : list num) : list num :=
  if is_relu layer then map (fun v => fround (relu v)) linear else linear.

(** The layers in order: the activation and the pre-activation vector
    of each. *)
Fixpoint run_layers (ls : list (Layer num)) (current : list num)
    : list (list num) * list (list num) :=
  match ls with
  | [] => ([], [])
  | layer :: ls =>
      let linear := dense layer current in
      let activated := activation_of layer linear in
      let '(acts, pres) := run_layers ls activated in
      (activated :: acts, linear :: pres)
  end.

(** Every output neuron of every layer has a row of weights. *)
Definition one_row_per_neuron (net : MLPNetwork num) : Prop :=
  Forall (fun layer => (length (biases layer) <= length (weights layer))%nat)
    (layers net).

End ForwardSpec.

(** ** The selector in the words of the specification *)

Section SelectorSpec.
Context {num : Type} `{!Arith num}.

Definition candidate_at (target source : nat) (weight : num) : Candidate num :=
  {| c_sourceIndex := source; c_targetIndex := target;
     c_weight := weight; c_magnitude := abs weight |}.

(** The candidates of a target: its finite incoming weights, in column
    order. *)
Definition finite_candidates (target : nat) (row : list num) : list (Candidate num) :=
  List.filter (fun c => isFinite (c_weight c)) (imap (candidate_at target) row).

Definition to_connection (c : Candidate num) : Connection num :=
  {| sourceIndex := c_sourceIndex c; targetIndex := c_targetIndex c;
     weight := c_weight c |}.

(** Sort descending by magnitude and keep the top [limit]. *)
Definition selected_for (limit target : nat) (row : list num) : list (Connection num) :=
  map to_connection
    (take limit (Array_sort by_magnitude_desc (finite_candidates target row))).

(** The largest magnitude among the finite weights seen so far. *)
Definition running_max (m : num) (row : list num) : num :=
  foldl (fun m w =>
           if isFinite w then (if gtb (abs w) m then abs w else m) else m) m row.

(** The edges returned for one target. *)
Definition edges_of (target : nat) (sel : Selection num) : list (Connection num) :=
  List.filter (fun e => (targetIndex e =? target)%nat) (selected sel).

End SelectorSpec.

(** On the extended rationals: the magnitude of a candidate as a
    rational, and the order a stable descending sort puts candidates in:
    larger magnitude first, equal magnitudes in column order. *)
Definition qmag (c : Candidate xq) : Q :=
  match c_magnitude c with Fin q => q | _ => 0%Q end.

Definition fin_mag (c : Candidate xq) : Prop :=
  exists q, c_magnitude c = Fin q.

Definition precedes (a b : Candidate xq) : Prop :=
  (qmag b <= qmag a)%Q
  /\ ((qmag a == qmag b)%Q -> (c_sourceIndex a < c_sourceIndex b)%nat).

(** ** The recolouring in the words of the specification *)

Section UpdateSpec.
Context {num : Type} `{!Arith num}.

(** What an update has to leave alone in a mesh: geometry, material,
    instance count, the transform attribute, and the size of the colour
    array. *)
Definition same_buffers (m m' : InstancedMesh num) : Prop :=
  geometry m' = geometry m
  /\ material m' = material m
  /\ count m' = count m
  /\ instanceMatrix m' = instanceMatrix m
  /\ length (attr_array (instanceColor m')) = length (attr_array (instanceColor m)).

Definition color_cells (c : Color num) : list num :=
  [fround (cr c); fround (cg c); fround (cb c)].

(** Instance [i] of the mesh has colour [c], as far as the colour array
    reaches. *)
Definition has_color (m : InstancedMesh num) (i : nat) (c : Color num) : Prop :=
  forall comp x,
    color_cells c !! comp = Some x ->
    (i * 3 + comp < length (attr_array (instanceColor m)))%nat ->
    attr_array (instanceColor m) !! (i * 3 + comp)%nat = Some x.

(** The contribution of a rendered connection: source activation times
    edge weight, a missing activation counting as 0. *)
Definition contribution (sourceValues : list num) (conn : Connection num) : num :=
  match sourceValues !! sourceIndex conn with Some a => a | None => zero end
  ⊗ weight conn.

(** The largest magnitude of a contribution of the frame. *)
Definition max_contribution (sourceValues : list num) (conns : list (Connection num))
    : num :=
  foldl (fun m conn =>
           let magnitude := abs (contribution sourceValues conn) in
           if gtb magnitude m then magnitude else m)
    zero conns.

(** The colour [update] gives to a neuron and to a connection. *)
Definition neuron_color (value scale : num) : Color num :=
  node_color value (node_intensity value (safe_scale (or_else scale one))).

Definition edge_color (sourceValues : list num) (group : ConnectionGroup num)
    (conn : Connection num) : Color num :=
  let value := fround (contribution sourceValues conn) in
  let scale := connection_scale (max_contribution sourceValues (connections group))
                 (maxAbsWeight group) in
  connection_color value (fmin one (abs value ⊘ scale)).

(** What [update] does to the mesh of layer [L] and to a connection
    group. *)
Definition layer_recolored (display actual : list (list num)) (L : nat)
    (layer layer' : LayerMesh num) : Prop :=
  positions layer' = positions layer
  /\ same_buffers (mesh layer) (mesh layer')
  /\ (display !! L = None -> layer' = layer)
  /\ (forall values, display !! L = Some values ->
      needsUpdate (instanceColor (mesh layer')) = true
      /\ exists scale,
          node_scale L actual = Ok scale
          /\ forall i v, values !! i = Some v ->
             has_color (mesh layer') i (neuron_color v scale)).

Definition group_recolored (actual : list (list num))
    (group group' : ConnectionGroup num) : Prop :=
  connections group' = connections group
  /\ sourceLayer group' = sourceLayer group
  /\ maxAbsWeight group' = maxAbsWeight group
  /\ same_buffers (group_mesh group) (group_mesh group')
  /\ (actual !! sourceLayer group = None -> group' = group)
  /\ (forall sourceValues, actual !! sourceLayer group = Some sourceValues ->
      needsUpdate (instanceColor (group_mesh group')) = true
      /\ forall i conn, connections group !! i = Some conn ->
         has_color (group_mesh group') i (edge_color sourceValues group conn)).

(** Every layer after the first that has display values also has actual
    activations; the caller builds both lists with the same length. *)
Definition activations_present (this : NetworkVisualizer num)
    (display actual : list (list num)) : Prop :=
  forall L, L <> 0%nat -> (L < length (layerMeshes this))%nat ->
    is_Some (display !! L) -> is_Some (actual !! L).

End UpdateSpec.

(** ** softmax on the extended reals *)

(** [Math.exp] on the extended reals, from a function [e] on the finite
    values: the mathematical exponential, or an exponential that
    underflows to 0 as the one of the machine does. *)
Definition exp_of (e : R -> R) (x : xr) : xr :=
  match x with
  | Fin r => Fin (e r)
  | PInf => PInf
  | NInf => Fin 0%R
  | NaN => NaN
  end.

(** The sum of a vector of reals. *)
Definition Rsum (xs : list R) : R := foldr Rplus 0%R xs.

(** ** A session with the drawing grid

    What happens to a grid between its construction and any later
    moment: the pointer paints or erases a cell, the reset button clears
    the grid, a frame callback runs, a caller asks for the pixels, and a
    caller writes into a buffer that [getPixels] returned to it. *)

Section GridSession.
Context {num : Type} `{!Arith num}.

Inductive event : Type :=
  | Draw (index : nat)
  | Erase (index : nat)
  | Clear
  | Frame
  | GetPixels
  | CallerWrite (buffer index : nat) (v : num).

(** The world, and the references handed out by [getPixels]. *)
Record Session : Type := {
  world : World num;
  handed : list nat;
}.

Definition session_new (rows cols : nat) : Session :=
  {| world := DrawingGrid_new [] rows cols; handed := [] |}.

Definition step (s : Session) (ev : event) : Session :=
  match ev with
  | Draw index => {| world := paintCell (world s) index false; handed := handed s |}
  | Erase index => {| world := paintCell (world s) index true; handed := handed s |}
  | Clear => {| world := clear (world s); handed := handed s |}
  | Frame =>
      {| world := {| store := store (world s);
                     grid := set_pending (grid (world s)) false |};
         handed := handed s |}
  | GetPixels =>
      let '(w, r) := getPixels (world s) in
      {| world := w; handed := handed s ++ [r] |}
  | CallerWrite buffer index v =>
      match handed s !! buffer with
      | Some r =>
          {| world :=
               {| store := <[r := <[index := fround v]> (deref (store (world s)) r)]>
                             (store (world s));
                  grid := grid (world s) |};
             handed := handed s |}
      | None => s
      end
  end.

Definition run (evs : list event) (s : Session) : Session := foldl step s evs.

(** The pixel buffer of the grid, and the grid as its owner sees it. *)
Definition grid_array (s : Session) : list num :=
  deref (store (world s)) (grid_values (grid (world s))).

Definition grid_view (s : Session) : list num * DrawingGrid :=
  (grid_array s, grid (world s)).

Definition is_grid_event (ev : event) : bool :=
  match ev with CallerWrite _ _ _ => false | _ => true end.

End GridSession.

Arguments event : clear implicits.
Arguments Session : clear implicits.

(** A finite value between 0 and 1. *)
Definition in_unit (x : xq) : Prop :=
  match x with Fin q => (0 <= q <= 1)%Q | _ => False end.

(** What holds of a session at every moment. *)
Definition grid_ok (rows cols : nat) (s : Session xq) : Prop :=
  (grid_values (grid (world s)) < length (store (world s)))%nat
  /\ (forall r, In r (handed s) ->
        r <> grid_values (grid (world s)) /\ (r < length (store (world s)))%nat)
  /\ length (grid_array s) = (rows * cols)%nat
  /\ Forall in_unit (grid_array s).

(** Two sessions that look the same from the grid. *)
Definition same_grid (s1 s2 : Session xq) : Prop :=
  grid (world s1) = grid (world s2)
  /\ handed s1 = handed s2
  /\ length (store (world s1)) = length (store (world s2))
  /\ grid_array s1 = grid_array s2.

(** ** Concrete definitions used to evaluate the code *)

(** A two-layer network: the first layer has no [activation] field, the
    second is named "identity". *)
Definition demo_layers : list (LayerDef xq) := [
  {| def_name := None; def_activation := None;
     def_weights := [[lit 1; lit (-2)]; [lit 3; lit 4]];
     def_biases := [lit 1; lit 0] |};
  {| def_name := Some "out"; def_activation := Some "identity";
     def_weights := [[lit (-1); lit 1]];
     def_biases := [lit (-8)] |} ].

Definition demo_def : NetworkDef xq := {|
  def_layers := Some demo_layers;
  def_normalization := None;
  def_architecture := None;
|}.

Definition demo_net : MLPNetwork xq :=
  match MLPNetwork_new demo_def with
  | Ok net => net
  | Throw _ => {| normalization := {| mean := zero; std := one |};
                  architecture := []; layers := [] |}
  end.

Definition demo_pixels : list xq := [lit 1; lit 1].

(** A definition whose layer has two biases and one weight row. *)
Definition missing_row_def : NetworkDef xq := {|
  def_layers := Some [
    {| def_name := None; def_activation := None;
       def_weights := [[lit 1]];
       def_biases := [lit 0; lit 0] |} ];
  def_normalization := None;
  def_architecture := None;
|}.

(** A layer with non-finite weights. *)
Definition selector_row : list xq := [lit 1; lit (-2); NaN; lit 2; lit (1 # 2)].

Definition selector_layer : Layer xq := {|
  name := "dense_0"; activation := "relu";
  weights := [selector_row; [PInf; lit 3]; []];
  biases := [lit 1; lit 0; lit 0];
|}.

(** A scene for the demo network's first two layers: two neurons each,
    and one group of two connections between them. *)
Definition demo_mesh (geometry material count : nat) : InstancedMesh xq := {|
  geometry := geometry; material := material; count := count;
  instanceMatrix := {| attr_array := replicate (count * 16) zero; needsUpdate := false |};
  instanceColor := {| attr_array := replicate (count * 3) zero; needsUpdate := false |};
|}.

Definition demo_vis : NetworkVisualizer xq := {|
  mlp := demo_net;
  options := {| layerSpacing := lit (55 # 10); nodeRadius := lit (26 # 100);
                maxConnectionsPerNeuron := 2;
                inputSpacing := lit (32 # 100); hiddenSpacing := lit (9 # 10) |};
  layerMeshes := [ {| mesh := demo_mesh 0 1 2; positions := [] |};
                   {| mesh := demo_mesh 0 2 2; positions := [] |} ];
  connectionGroups :=
    [ {| group_mesh := demo_mesh 3 4 2;
         connections := [ {| sourceIndex := 1; targetIndex := 0; weight := lit (-2) |};
                          {| sourceIndex := 0; targetIndex := 1; weight := lit 3 |} ];
         sourceLayer := 0;
         maxAbsWeight := lit 4 |} ];
  tempColor := {| cr := zero; cg := zero; cb := zero |};
|}.

(** The input layer alone, one neuron. *)
Definition input_vis : NetworkVisualizer xq := {|
  mlp := demo_net;
  options := options demo_vis;
  layerMeshes := [ {| mesh := demo_mesh 0 1 1; positions := [] |} ];
  connectionGroups := [];
  tempColor := {| cr := zero; cg := zero; cb := zero |};
|}.

(** A definition whose only weight row has three entries for an input
    width of two. *)
Definition mismatched_def : NetworkDef xq := {|
  def_layers := Some [
    {| def_name := None; def_activation := None;
       def_weights := [[lit 1; lit 2; lit 3]];
       def_biases := [lit 0] |} ];
  def_normalization := None;
  def_architecture := Some [2%nat; 1%nat];
|}.

(** The widths each layer's rows are expected to have: the input width,
    then the output width of each previous layer; and whether some row
    of some layer has another length. *)
Definition expected_widths {num : Type} (inputWidth : nat)
    (ls : list (LayerDef num)) : list nat :=
  inputWidth :: map (fun layer => length (def_biases layer)) ls.

Definition has_row_mismatch {num : Type} (inputWidth : nat)
    (ls : list (LayerDef num)) : bool :=
  existsb (fun '(layer, width) =>
             existsb (fun row => negb (length row =? width)%nat) (def_weights layer))
    (zip ls (expected_widths inputWidth ls)).

(** * More of the script *)

(** ** PredictionChart *)

Section Chart.
Context {num : Type} `{!Arith num}.

(** [Number.prototype.toFixed(1)], a function of the language that the
    arithmetic interface does not have. *)
Variable toFixed1 : num -> string.

(** A row of the chart: the digit, the width of its bar ([None] until a
    first update sets the style), the text of its percentage, and whether
    the bar carries the class "highest". *)
Record ChartRow : Type := {
  row_label : string;
  bar_width : option string;
  value_text : string;
  highest : bool;
}.

Definition PredictionChart_build : list ChartRow :=
  for_loop 10
    (fun digit rows =>
       rows ++ [{| row_label := pretty digit; bar_width := None;
                   value_text := "0.0%"; highest := false |}])
    [].

Definition PredictionChart_update (rows : list ChartRow) (probabilities : list num)
    : list ChartRow :=
  match probabilities with
  | [] => rows
  | _ =>
      let maxProb := foldl fmax neg_infinity probabilities in
      foldl (fun rows '(index, prob) =>
               let clamped := fmax zero (fmin one prob) in
               match rows !! index with
               | None => rows
               | Some entry =>
                   <[index := {| row_label := row_label entry;
                                 bar_width := Some (toFixed1 (clamped ⊗ lit 100) +:+ "%");
                                 value_text := toFixed1 (clamped ⊗ lit 100) +:+ "%";
                                 highest := eqb clamped maxProb |}]> rows
               end)
        rows (imap pair probabilities)
  end.

(** The row that an update writes for a probability. *)
Definition updated_row (maxProb : num) (entry : ChartRow) (prob : num) : ChartRow :=
  let clamped := fmax zero (fmin one prob) in
  {| row_label := row_label entry;
     bar_width := Some (toFixed1 (clamped ⊗ lit 100) +:+ "%");
     value_text := toFixed1 (clamped ⊗ lit 100) +:+ "%";
     highest := eqb clamped maxProb |}.

End Chart.

(** ** DrawingGrid: the pointer handlers and the change notifications *)

Section GridUI.
Context {num : Type} `{!Arith num}.

(** The grid with the state of its handlers: [isDrawing], whether
    [activeMode] is "erase", whether a change handler is installed, the
    callbacks waiting in [requestAnimationFrame], and the number of calls
    of the change handler so far. *)
Record GridUI : Type := {
  ui_world : World num;
  isDrawing : bool;
  erasing : bool;
  hasHandler : bool;
  framesRequested : nat;
  notified : nat;
}.

Definition GridUI_new (rows cols : nat) : GridUI :=
  {| ui_world := DrawingGrid_new [] rows cols;
     isDrawing := false; erasing := false; hasHandler := false;
     framesRequested := 0; notified := 0 |}.

(** [paintCell] with its call of [scheduleChange]: a frame is requested
    exactly when [scheduleChange] sets [pendingChange]. *)
Definition ui_paintCell (ui : GridUI) (index : nat) (erase : bool) : GridUI :=
  let w := paintCell (ui_world ui) index erase in
  {| ui_world := w;
     isDrawing := isDrawing ui; erasing := erasing ui; hasHandler := hasHandler ui;
     framesRequested :=
       if negb (pendingChange (grid (ui_world ui))) && pendingChange (grid w)
       then S (framesRequested ui) else framesRequested ui;
     notified := notified ui |}.

(** [applyPointer]: [cell] is the index of the cell under the pointer,
    [None] when there is no element there, no cell around it, or its
    index is not a number. *)
Definition applyPointer (ui : GridUI) (cell : option nat) : GridUI :=
  match cell with
  | None => ui
  | Some index => ui_paintCell ui index (erasing ui)
  end.

Definition handlePointerDown (ui : GridUI) (button buttons : nat) (cell : option nat)
    : GridUI :=
  let isErase := (button =? 2)%nat || (buttons =? 2)%nat in
  applyPointer
    {| ui_world := ui_world ui; isDrawing := true; erasing := isErase;
       hasHandler := hasHandler ui; framesRequested := framesRequested ui;
       notified := notified ui |}
    cell.

Definition handlePointerMove (ui : GridUI) (cell : option nat) : GridUI :=
  if isDrawing ui then applyPointer ui cell else ui.

Definition handlePointerUp (ui : GridUI) : GridUI :=
  {| ui_world := ui_world ui; isDrawing := false; erasing := erasing ui;
     hasHandler := hasHandler ui; framesRequested := framesRequested ui;
     notified := notified ui |}.

Definition setChangeHandler (ui : GridUI) : GridUI :=
  {| ui_world := ui_world ui; isDrawing := isDrawing ui; erasing := erasing ui;
     hasHandler := true; framesRequested := framesRequested ui;
     notified := notified ui |}.

(** One callback of [scheduleChange], run by the browser. *)
Definition frameCallback (ui : GridUI) : GridUI :=
  {| ui_world := {| store := store (ui_world ui);
                    grid := set_pending (grid (ui_world ui)) false |};
     isDrawing := isDrawing ui; erasing := erasing ui; hasHandler := hasHandler ui;
     framesRequested := framesRequested ui;
     notified := if hasHandler ui then S (notified ui) else notified ui |}.

(** An animation frame: the callbacks that wait are run, each once. *)
Definition animationFrame (ui : GridUI) : GridUI :=
  let ui' := for_loop (framesRequested ui) (fun _ ui => frameCallback ui) ui in
  {| ui_world := ui_world ui'; isDrawing := isDrawing ui'; erasing := erasing ui';
     hasHandler := hasHandler ui'; framesRequested := 0; notified := notified ui' |}.

(** [clear], with its direct call of the change handler. *)
Definition ui_clear (ui : GridUI) : GridUI :=
  {| ui_world := clear (ui_world ui);
     isDrawing := isDrawing ui; erasing := erasing ui; hasHandler := hasHandler ui;
     framesRequested := framesRequested ui;
     notified := if hasHandler ui then S (notified ui) else notified ui |}.

Inductive ui_event : Type :=
  | PointerDown (button buttons : nat) (cell : option nat)
  | PointerMove (cell : option nat)
  | PointerUp
  | AnimationFrame
  | SetChangeHandler
  | ClearGrid.

Definition ui_step (ui : GridUI) (ev : ui_event) : GridUI :=
  match ev with
  | PointerDown button buttons cell => handlePointerDown ui button buttons cell
  | PointerMove cell => handlePointerMove ui cell
  | PointerUp => handlePointerUp ui
  | AnimationFrame => animationFrame ui
  | SetChangeHandler => setChangeHandler ui
  | ClearGrid => ui_clear ui
  end.

Definition ui_run (evs : list ui_event) (ui : GridUI) : GridUI := foldl ui_step ui evs.

(** The pixel buffer of the grid. *)
Definition ui_pixels (ui : GridUI) : list num :=
  deref (store (ui_world ui)) (grid_values (grid (ui_world ui))).

End GridUI.

Arguments ChartRow : clear implicits.
Arguments GridUI : clear implicits.
Arguments ui_event : clear implicits.

(** ** DrawingGrid: the cells on the page *)

Section GridView.
Context {num : Type} `{!Arith num}.

(** [Number.prototype.toFixed(0)], as [toFixed(1)] above. *)
Variable toFixed0 : num -> string.

(** What the script sets on the element of a cell: its background
    ([None] until a first update) and the class "active". *)
Record CellVisual : Type := {
  background : option string;
  active : bool;
}.

(** [buildGrid]: one element for each value. *)
Definition buildGrid (values : list num) : list CellVisual :=
  for_loop (length values)
    (fun _ cells => cells ++ [{| background := None; active := false |}])
    [].

Definition updateCellVisual (values : list num) (cells : list CellVisual) (index : nat)
    : list CellVisual :=
  match cells !! index with
  | None => cells
  | Some _ =>
      let value := idx values index in
      if leb value zero then
        <[index := {| background := Some "rgba(255, 255, 255, 0.05)";
                      active := false |}]> cells
      else
        let hue := lit 180 ⊖ value ⊗ lit 70 in
        let saturation := lit 70 ⊕ value ⊗ lit 25 in
        let lightness := lit 25 ⊕ value ⊗ lit 40 in
        <[index := {| background :=
                        Some ("hsl(" +:+ toFixed0 hue +:+ ", " +:+ toFixed0 saturation
                              +:+ "%, " +:+ toFixed0 lightness +:+ "%)");
                      active := true |}]> cells
  end.

(** The cells after [paintCell]: the visual of the cell is updated when
    the value is stored, and not when [paintCell] returns early. *)
Definition paintCell_cells (w : World num) (cells : list CellVisual) (index : nat)
    (erase : bool) : list CellVisual :=
  let values := deref (store w) (grid_values (grid w)) in
  let delta := if erase then lit (-45 # 100) else lit (55 # 100) in
  let nextValue := fmin one (fmax zero (idx values index ⊕ delta)) in
  let w' := paintCell w index erase in
  match values !! index with
  | Some v =>
      if eqb nextValue v then cells
      else updateCellVisual (deref (store w') (grid_values (grid w'))) cells index
  | None => updateCellVisual (deref (store w') (grid_values (grid w'))) cells index
  end.

(** The cells after [clear]. *)
Definition clear_cells (w : World num) (cells : list CellVisual) : list CellVisual :=
  let w' := clear w in
  for_loop (length cells)
    (fun i cells => updateCellVisual (deref (store w') (grid_values (grid w'))) cells i)
    cells.

(** The grid with its cells. *)
Record GridView : Type := {
  gv_ui : GridUI num;
  gv_cells : list CellVisual;
}.

Definition GridView_new (rows cols : nat) : GridView :=
  {| gv_ui := GridUI_new rows cols;
     gv_cells := buildGrid (ui_pixels (GridUI_new rows cols)) |}.

Definition view_step (gv : GridView) (ev : ui_event) : GridView :=
  let ui := gv_ui gv in
  {| gv_ui := ui_step ui ev;
     gv_cells :=
       match ev with
       | PointerDown button buttons (Some index) =>
           paintCell_cells (ui_world ui) (gv_cells gv) index
             ((button =? 2)%nat || (buttons =? 2)%nat)
       | PointerMove (Some index) =>
           if isDrawing ui
           then paintCell_cells (ui_world ui) (gv_cells gv) index (erasing ui)
           else gv_cells gv
       | ClearGrid => clear_cells (ui_world ui) (gv_cells gv)
       | _ => gv_cells gv
       end |}.

Definition view_run (evs : list ui_event) (gv : GridView) : GridView :=
  foldl view_step gv evs.

End GridView.

Arguments CellVisual : clear implicits.
Arguments GridView : clear implicits.

(** ** initApp: updateNetwork and the reset button *)

Section App.
Context {num : Type} `{!Arith num}.

(** [Math.exp] and [toFixed(1)], as above. *)
Variable exp : num -> num.
Variable toFixed1 : num -> string.

(** What the closures of [initApp] share: the grid, the network, the
    visualiser and the chart; and the number of runs of [updateNetwork]
    that have returned. *)
Record App : Type := {
  app_grid : GridUI num;
  app_mlp : MLPNetwork num;
  app_vis : NetworkVisualizer num;
  app_chart : list ChartRow;
  app_updates : nat;
}.

Definition set_ui_world (ui : GridUI num) (w : World num) : GridUI num :=
  {| ui_world := w; isDrawing := isDrawing ui; erasing := erasing ui;
     hasHandler := hasHandler ui; framesRequested := framesRequested ui;
     notified := notified ui |}.

Definition updateNetwork (app : App) : result App :=
  let '(w, r) := getPixels (ui_world (app_grid app)) in
  let rawInput := deref (store w) r in
  forward ← forward (app_mlp app) rawInput;
  let actualActivations := activations forward in
  let displayActivations := rawInput :: drop 1 actualActivations in
  vis ← update (app_vis app) displayActivations actualActivations;
  let logitsTyped :=
    match last (preActivations forward) with
    | Some logits => logits
    | None => Float32Array_new 0
    end in
  let probabilities := softmax exp logitsTyped in
  Ok {| app_grid := set_ui_world (app_grid app) w;
        app_mlp := app_mlp app;
        app_vis := vis;
        app_chart := PredictionChart_update toFixed1 (app_chart app) probabilities;
        app_updates := S (app_updates app) |}.

Definition set_app_grid (app : App) (g : GridUI num) : App :=
  {| app_grid := g; app_mlp := app_mlp app; app_vis := app_vis app;
     app_chart := app_chart app; app_updates := app_updates app |}.

(** The click handler of the reset button: [drawingGrid.clear()], which
    ends with a call of the change handler, that is of [updateNetwork],
    when one is installed; then [updateNetwork()]. *)
Definition resetClick (app : App) : result App :=
  let g := ui_clear (app_grid app) in
  app ← (if hasHandler g then updateNetwork (set_app_grid app g)
         else Ok (set_app_grid app g));
  updateNetwork app.

End App.

Arguments App : clear implicits.

(** ** NetworkVisualizer: the construction of the scene *)

Section Scene.
Context {num : Type} `{!Arith num}.

(** three.js computes the matrix of an instance from the position, the
    rotation and the scale of [tempObject].  These computations of the
    library are parameters: the 16 elements of the matrix of a sphere at
    a position, and of the matrix of the cylinder from a source position
    to a target position. *)
Variable node_matrix : Vector3 num -> list num.
Variable connection_matrix : Vector3 num -> Vector3 num -> list num.

(** [new THREE.InstancedMesh(geometry, material, count)] followed by the
    assignment of a new [instanceColor] attribute.  The loops below write
    the matrix and the colour of each of the [count] instances. *)
Definition InstancedMesh_new (geometry material count : nat) : InstancedMesh num :=
  {| geometry := geometry; material := material; count := count;
     instanceMatrix := {| attr_array := Float32Array_new (count * 16);
                          needsUpdate := false |};
     instanceColor := {| attr_array := Float32Array_new (count * 3);
                         needsUpdate := false |} |}.

(** [mesh.setMatrixAt(index, matrix)]: 16 stores into the matrix array. *)
Definition setMatrixAt (m : InstancedMesh num) (index : nat) (matrix : list num)
    : InstancedMesh num :=
  {| geometry := geometry m; material := material m; count := count m;
     instanceMatrix :=
       set_array (instanceMatrix m)
         (for_loop 16
            (fun k a => <[(index * 16 + k)%nat := fround (idx matrix k)]> a)
            (attr_array (instanceMatrix m)));
     instanceColor := instanceColor m |}.

(** [mesh.instanceMatrix.needsUpdate = true; mesh.instanceColor.needsUpdate = true] *)
Definition mark_updated (m : InstancedMesh num) : InstancedMesh num :=
  {| geometry := geometry m; material := material m; count := count m;
     instanceMatrix := set_needsUpdate (instanceMatrix m);
     instanceColor := set_needsUpdate (instanceColor m) |}.

Definition push_layer (this : NetworkVisualizer num) (layer : LayerMesh num)
    (tc : Color num) : NetworkVisualizer num :=
  {| mlp := mlp this; options := options this;
     layerMeshes := layerMeshes this ++ [layer];
     connectionGroups := connectionGroups this;
     tempColor := tc |}.

Definition push_group (this : NetworkVisualizer num) (group : ConnectionGroup num)
    (tc : Color num) : NetworkVisualizer num :=
  {| mlp := mlp this; options := options this;
     layerMeshes := layerMeshes this;
     connectionGroups := connectionGroups this ++ [group];
     tempColor := tc |}.

(** The mesh of one layer: the body of the [forEach] of [buildLayers]
    up to the push, with [this.tempColor] after it. *)
Definition build_layer (this : NetworkVisualizer num) (geometry material : nat)
    (startX : num) (layerIndex neuronCount : nat) : LayerMesh num * Color num :=
  let mesh := InstancedMesh_new geometry material neuronCount in
  let layerX := startX ⊕ of_nat layerIndex ⊗ layerSpacing (options this) in
  let positions := computeLayerPositions this layerIndex neuronCount layerX in
  let '(mesh, tc) :=
    foldl (fun '(mesh, _) '(instanceIndex, position) =>
             let mesh := setMatrixAt mesh instanceIndex (node_matrix position) in
             let baseColor := setRGB (8 # 100) (1 # 10) (18 # 100) in
             (setColorAt mesh instanceIndex baseColor, baseColor))
      (mesh, tempColor this) (imap pair positions) in
  ({| mesh := mark_updated mesh; positions := positions |}, tc).

(** The objects of the library are handles; [next] is the next free
    one.  [buildLayers] makes a geometry and a material, and a clone of
    the material for each layer. *)
Definition buildLayers (this : NetworkVisualizer num) (next : nat)
    : NetworkVisualizer num * nat :=
  let geometry := next in
  let layerCount := length (architecture (mlp this)) in
  let totalWidth := (of_nat layerCount ⊖ one) ⊗ layerSpacing (options this) in
  let startX := neg totalWidth ⊘ lit 2 in
  foldl (fun '(this, next) '(layerIndex, neuronCount) =>
           let '(layer, tc) :=
             build_layer this geometry next startX layerIndex neuronCount in
           (push_layer this layer tc, S next))
    (this, S (S next)) (imap pair (architecture (mlp this))).

(** One connection of a group: the two positions are read, and the
    matrix and the base colour of the instance are written.  A layer
    without mesh and a target without position make the script read a
    property of [undefined]; a source without position does the same
    inside [Vector3.sub]. *)
Definition connection_instance (this : NetworkVisualizer num) (layerIndex : nat)
    (connection : Connection num) (instanceIndex : nat)
    (st : InstancedMesh num * Color num) : result (InstancedMesh num * Color num) :=
  match layerMeshes this !! layerIndex with
  | None => Throw (TypeError "Cannot read properties of undefined (reading 'positions')")
  | Some sourceMesh =>
      match layerMeshes this !! S layerIndex with
      | None =>
          Throw (TypeError "Cannot read properties of undefined (reading 'positions')")
      | Some targetMesh =>
          match positions targetMesh !! targetIndex connection with
          | None =>
              Throw (TypeError "Cannot read properties of undefined (reading 'clone')")
          | Some targetPosition =>
              match positions sourceMesh !! sourceIndex connection with
              | None =>
                  Throw (TypeError "Cannot read properties of undefined (reading 'x')")
              | Some sourcePosition =>
                  let mesh :=
                    setMatrixAt (fst st) instanceIndex
                      (connection_matrix sourcePosition targetPosition) in
                  let color := setRGB (1 # 10) (12 # 100) (18 # 100) in
                  Ok (setColorAt mesh instanceIndex color, color)
              end
          end
      end
  end.

Definition buildConnections (this : NetworkVisualizer num) (next : nat)
    : result (NetworkVisualizer num * nat) :=
  let geometry := next in
  forEachM (layers (mlp this))
    (fun layer layerIndex '(this, next) =>
       let sel := findImportantConnections (maxConnectionsPerNeuron (options this)) layer in
       match selected sel with
       | [] => Ok (this, next)
       | _ =>
           let mesh := InstancedMesh_new geometry next (length (selected sel)) in
           st ← forEachM (selected sel) (connection_instance this layerIndex)
                  (mesh, tempColor this);
           Ok (push_group this
                 {| group_mesh := mark_updated (fst st);
                    connections := selected sel;
                    sourceLayer := layerIndex;
                    maxAbsWeight := sel_maxAbsWeight sel |}
                 (snd st),
               S next)
       end)
    (this, S (S next)).

(** The constructor, after [Object.assign] has filled in the options
    that the caller left out; the renderer, the camera and the lights of
    [initThreeScene] are not part of the state.  A new [THREE.Color] is
    white. *)
Definition NetworkVisualizer_new (mlp : MLPNetwork num) (options : Options num)
    (next : nat) : result (NetworkVisualizer num * nat) :=
  let this := {| mlp := mlp; options := options; layerMeshes := [];
                 connectionGroups := []; tempColor := setRGB 1 1 1 |} in
  let '(this, next) := buildLayers this next in
  buildConnections this next.

(** Both ends of a connection of layer [layerIndex] are neurons of the
    architecture. *)
Definition endpoints_in_range (architecture : list nat) (layerIndex : nat)
    (connection : Connection num) : Prop :=
  exists sourceCount targetCount,
    architecture !! layerIndex = Some sourceCount
    /\ architecture !! S layerIndex = Some targetCount
    /\ (sourceIndex connection < sourceCount)%nat
    /\ (targetIndex connection < targetCount)%nat.

(** Every connection that the selector returns for a layer of the
    network joins two neurons of the architecture. *)
Definition scene_buildable (mlp : MLPNetwork num) (limit : nat) : Prop :=
  forall layerIndex layer connection,
    layers mlp !! layerIndex = Some layer ->
    In connection (selected (findImportantConnections limit layer)) ->
    endpoints_in_range (architecture mlp) layerIndex connection.

(** A mesh as the constructor leaves it: [count] instances, a matrix and
    a colour for each, every instance in the colour [c], both attributes
    marked for upload. *)
Definition fresh_mesh (m : InstancedMesh num) (count' : nat) (c : Color num) : Prop :=
  count m = count'
  /\ length (attr_array (instanceMatrix m)) = (count' * 16)%nat
  /\ length (attr_array (instanceColor m)) = (count' * 3)%nat
  /\ needsUpdate (instanceMatrix m) = true
  /\ needsUpdate (instanceColor m) = true
  /\ forall i, (i < count')%nat -> has_color m i c.

(** What the writes of an instance leave alone, and the instances
    below [k] that are in the colour [c]. *)
Definition built_upto (m0 : InstancedMesh num) (k : nat) (c : Color num)
    (m : InstancedMesh num) : Prop :=
  geometry m = geometry m0 /\ material m = material m0 /\ count m = count m0
  /\ length (attr_array (instanceMatrix m)) = length (attr_array (instanceMatrix m0))
  /\ length (attr_array (instanceColor m)) = length (attr_array (instanceColor m0))
  /\ needsUpdate (instanceMatrix m) = needsUpdate (instanceMatrix m0)
  /\ needsUpdate (instanceColor m) = needsUpdate (instanceColor m0)
  /\ forall j, (j < k)%nat -> has_color m j c.


(** Both ends of a connection of layer [layerIndex] have a position in
    the scene. *)
Definition positions_present (this : NetworkVisualizer num) (layerIndex : nat)
    (connection : Connection num) : Prop :=
  exists sourceMesh targetMesh,
    layerMeshes this !! layerIndex = Some sourceMesh
    /\ layerMeshes this !! S layerIndex = Some targetMesh
    /\ is_Some (positions sourceMesh !! sourceIndex connection)
    /\ is_Some (positions targetMesh !! targetIndex connection).

(** The selector returns a connection for layer [layerIndex]. *)
Definition has_connections (mlp : MLPNetwork num) (limit layerIndex : nat) : bool :=
  match layers mlp !! layerIndex with
  | Some layer =>
      match selected (findImportantConnections limit layer) with
      | [] => false
      | _ => true
      end
  | None => false
  end.

(** A group as [buildConnections] leaves it: the selection of its
    layer, with an instance in the base colour for each connection. *)
Definition group_built (mlp : MLPNetwork num) (limit : nat)
    (group : ConnectionGroup num) : Prop :=
  exists layer,
    layers mlp !! sourceLayer group = Some layer
    /\ connections group = selected (findImportantConnections limit layer)
    /\ connections group <> []
    /\ maxAbsWeight group = sel_maxAbsWeight (findImportantConnections limit layer)
    /\ fresh_mesh (group_mesh group) (length (connections group))
         (setRGB (1 # 10) (12 # 100) (18 # 100)).

(** A network whose architecture counts its layers, in which no layer
    has more weight rows than output neurons and no row is longer than
    the layer before is wide. *)
Definition well_shaped (mlp : MLPNetwork num) : Prop :=
  forall layerIndex layer,
    layers mlp !! layerIndex = Some layer ->
    exists sourceCount targetCount,
      architecture mlp !! layerIndex = Some sourceCount
      /\ architecture mlp !! S layerIndex = Some targetCount
      /\ (length (weights layer) <= targetCount)%nat
      /\ Forall (fun row => (length row <= sourceCount)%nat) (weights layer).

(** What the loop of [buildConnections] has done after [k] layers. *)
Definition groups_upto (this : NetworkVisualizer num) (next k : nat)
    (st : NetworkVisualizer num * nat) : Prop :=
  let limit := maxConnectionsPerNeuron (options this) in
  mlp (fst st) = mlp this /\ options (fst st) = options this
  /\ layerMeshes (fst st) = layerMeshes this
  /\ (forall L layer c, (L < k)%nat -> layers (mlp this) !! L = Some layer ->
        In c (selected (findImportantConnections limit layer)) ->
        positions_present this L c)
  /\ exists gs,
       connectionGroups (fst st) = connectionGroups this ++ gs
       /\ map sourceLayer gs = List.filter (has_connections (mlp this) limit) (seq 0 k)
       /\ Forall (group_built (mlp this) limit) gs
       /\ (forall j g, gs !! j = Some g ->
             geometry (group_mesh g) = next
             /\ material (group_mesh g) = (next + 2 + j)%nat)
       /\ snd st = (next + 2 + length gs)%nat.

End Scene.

(** ** initApp *)

Section InitApp.
Context {num : Type} `{!Arith num}.

Variable exp : num -> num.
Variable toFixed1 : num -> string.
Variable node_matrix : Vector3 num -> list num.
Variable connection_matrix : Vector3 num -> Vector3 num -> list num.

(** The options that [initApp] passes to the visualiser, from [CONFIG],
    with the radius that it leaves to the default. *)
Definition CONFIG_options : Options num :=
  {| layerSpacing := lit (55 # 10); nodeRadius := lit (26 # 100);
     maxConnectionsPerNeuron := 20;
     inputSpacing := lit (32 # 100); hiddenSpacing := lit (9 # 10) |}.

(** [initApp], from the answer of the server on.  [network] is
    [definition?.network], [None] when it is missing or falsy;
    [gridContainer] and [chartContainer] say whether the document has
    these elements.  A throw rejects the promise, and the caller shows
    the error. *)
Definition initApp (network : option (NetworkDef num))
    (gridContainer chartContainer : bool) (next : nat) : result (App num) :=
  match network with
  | None => Throw (Error "Invalid network definition.")
  | Some definition =>
      net ← MLPNetwork_new definition;
      drawingGrid ←
        (if gridContainer then Ok (GridUI_new 28 28)
         else Throw (Error "Grid container not found."));
      predictionChart ←
        (if chartContainer then Ok PredictionChart_build
         else Throw (Error "Prediction chart container not found."));
      scene ← NetworkVisualizer_new node_matrix connection_matrix net CONFIG_options next;
      updateNetwork exp toFixed1
        {| app_grid := setChangeHandler drawingGrid;
           app_mlp := net;
           app_vis := fst scene;
           app_chart := predictionChart;
           app_updates := 0 |}
  end.

End InitApp.

(** ** More concrete definitions *)

(** [toFixed(1)] on the extended rationals, with exact rounding: the
    integer nearest to ten times the magnitude, the larger one on a tie,
    written with one decimal. *)
Definition toFixed1_q (x : xq) : string :=
  match x with
  | Fin q =>
      let n := Z.to_N (Qfloor (Qabs q * 10 + (1 # 2))) in
      (if Qlt_le_dec q 0 then "-" else "")
      +:+ pretty (n / 10)%N +:+ "." +:+ pretty (n mod 10)%N
  | PInf => "Infinity"
  | NInf => "-Infinity"
  | NaN => "NaN"
  end.

(** The events after which the change handler can have run: the
    animation frames and the clears. *)
Definition frames_and_clears (evs : list ui_event) : nat :=
  length (List.filter (fun ev => match ev with
                                 | AnimationFrame | ClearGrid => true
                                 | _ => false
                                 end) evs).

Definition is_pointer_move (ev : ui_event) : bool :=
  match ev with PointerMove _ => true | _ => false end.

Definition is_pointer_event (ev : ui_event) : bool :=
  match ev with
  | PointerDown _ _ _ | PointerMove _ | PointerUp => true
  | _ => false
  end.

(** An application around the demo network and the demo scene, with a
    grid of one row and two columns and its change handler installed.
    The exponential here is the constant 1; the theorems hold for every
    function. *)
Definition demo_app : App xq := {|
  app_grid := setChangeHandler (GridUI_new 1 2);
  app_mlp := demo_net;
  app_vis := demo_vis;
  app_chart := PredictionChart_build;
  app_updates := 0;
|}.

(** A layer whose only row has three weights, for two inputs. *)
Definition long_row_layer : Layer xq := {|
  name := "dense_0"; activation := "relu";
  weights := [[lit 1; lit 2; lit 3]];
  biases := [lit 0];
|}.

(** Matrices to evaluate the construction with: the translation to a
    position, which is the matrix of an object that is neither rotated
    nor scaled, and for a connection the translation to the middle of its
    ends (the rotation and the stretch of the cylinder are left out). *)
Definition demo_node_matrix (p : Vector3 xq) : list xq :=
  [lit 1; lit 0; lit 0; lit 0;
   lit 0; lit 1; lit 0; lit 0;
   lit 0; lit 0; lit 1; lit 0;
   vx p; vy p; vz p; lit 1].

Definition demo_connection_matrix (source target : Vector3 xq) : list xq :=
  demo_node_matrix {| vx := (vx source ⊕ vx target) ⊘ lit 2;
                      vy := (vy source ⊕ vy target) ⊘ lit 2;
                      vz := (vz source ⊕ vz target) ⊘ lit 2 |}.

(** The scene that the constructor builds for the demo network. *)
Definition demo_scene : NetworkVisualizer xq * nat :=
  match NetworkVisualizer_new demo_node_matrix demo_connection_matrix demo_net
          (options demo_vis) 0 with
  | Ok res => res
  | Throw _ => (demo_vis, 0%nat)
  end.

(** A network with two weight rows for its one output neuron. *)
Definition extra_row_layer : Layer xq := {|
  name := "dense_0"; activation := "relu";
  weights := [[lit 1]; [lit 2]];
  biases := [lit 0];
|}.

Definition extra_row_net : MLPNetwork xq := {|
  normalization := {| mean := zero; std := one |};
  architecture := [1%nat; 1%nat];
  layers := [extra_row_layer];
|}.

(** What holds of the grid and its handlers at every moment. *)
Definition ui_ok (rows cols : nat) (ui : GridUI xq) : Prop :=
  framesRequested ui = (if pendingChange (grid (ui_world ui)) then 1%nat else 0%nat)
  /\ grid_ok rows cols {| world := ui_world ui; handed := [] |}.

(** What holds of the grid and its cells at every moment: a cell for
    each pixel, with the class "active" exactly when the pixel is above
    0. *)
Definition view_ok (rows cols : nat) (gv : GridView xq) : Prop :=
  ui_ok rows cols (gv_ui gv)
  /\ length (gv_cells gv) = (rows * cols)%nat
  /\ forall i c v,
       gv_cells gv !! i = Some c -> ui_pixels (gv_ui gv) !! i = Some v ->
       active c = gtb v zero.

(** * Proofs *)

(** ** Loops *)

Section Loops.
Context {S : Type}.

Lemma for_loop_0 (body : nat -> S -> S) (s : S) : for_loop 0 body s = s.
Proof. reflexivity. Qed.

Lemma for_loop_S (n : nat) (body : nat -> S -> S) (s : S) :
  for_loop (Datatypes.S n) body s = body n (for_loop n body s).
Proof. unfold for_loop. rewrite seq_S, foldl_app. reflexivity. Qed.

Lemma for_loop_ext (n : nat) (f g : nat -> S -> S) (s : S) :
  (forall i s, (i < n)%nat -> f i s = g i s) ->
  for_loop n f s = for_loop n g s.
Proof.
  induction n as [|n IH]; intros Hfg; [reflexivity|].
  rewrite !for_loop_S, IH by (intros; apply Hfg; lia).
  apply Hfg. lia.
Qed.

(** An invariant carried through a loop. *)
Lemma for_loop_ind (P : nat -> S -> Prop) (n : nat) (body : nat -> S -> S) (s : S) :
  P 0%nat s ->
  (forall i s, (i < n)%nat -> P i s -> P (Datatypes.S i) (body i s)) ->
  P n (for_loop n body s).
Proof.
  intros H0 Hstep. induction n as [|n IH]; [exact H0|].
  rewrite for_loop_S. apply Hstep; [lia|]. apply IH.
  intros i s' Hi. apply Hstep. lia.
Qed.

Lemma foldl_Throw {B : Type} (f : S -> B -> result S) (e : exn) (l : list B) :
  foldl (fun r x => s ← r; f s x) (Throw e) l = Throw e.
Proof. induction l as [|x l IH]; [reflexivity|]. simpl. exact IH. Qed.

(** A loop whose body never throws is the pure loop. *)
Lemma for_loopM_pure (n : nat) (body : nat -> S -> result S) (g : nat -> S -> S)
    (s : S) :
  (forall i s, (i < n)%nat -> body i s = Ok (g i s)) ->
  for_loopM n body s = Ok (for_loop n g s).
Proof.
  unfold for_loopM, for_loop. induction n as [|n IH]; intros Hb; [reflexivity|].
  rewrite seq_S, !foldl_app. simpl.
  rewrite IH by (intros; apply Hb; lia). simpl. apply Hb. lia.
Qed.

End Loops.

(** The loop that fills a fresh typed array cell by cell. *)
Lemma fill_loop_prefix {A : Type} (f : nat -> A) (z : A) (n k : nat) :
  (k <= n)%nat ->
  for_loop k (fun i a => <[i := f i]> a) (replicate n z)
  = map f (seq 0 k) ++ replicate (n - k) z.
Proof.
  induction k as [|k IH]; intros Hk.
  - simpl. rewrite Nat.sub_0_r. reflexivity.
  - rewrite for_loop_S, IH by lia.
    rewrite seq_S, map_app. simpl.
    replace (n - k)%nat with (Datatypes.S (n - Datatypes.S k)) by lia.
    rewrite insert_app_r_alt by (rewrite length_map, length_seq; lia).
    rewrite length_map, length_seq, Nat.sub_diag. simpl.
    rewrite <- app_assoc. reflexivity.
Qed.

Lemma fill_loop {A : Type} (f : nat -> A) (z : A) (n : nat) :
  for_loop n (fun i a => <[i := f i]> a) (replicate n z) = map f (seq 0 n).
Proof.
  rewrite fill_loop_prefix by lia. rewrite Nat.sub_diag. simpl.
  apply app_nil_r.
Qed.

(** The loop that pushes one element per index. *)
Lemma push_loop {A : Type} (f : nat -> A) (n : nat) (l : list A) :
  for_loop n (fun i a => a ++ [f i]) l = l ++ map f (seq 0 n).
Proof.
  induction n as [|n IH].
  - simpl. rewrite app_nil_r. reflexivity.
  - rewrite for_loop_S, IH, seq_S, map_app, app_assoc. reflexivity.
Qed.

Lemma map_seq_lookup {A B : Type} (d : A) (g : A -> B) (l : list A) :
  map (fun i => g (match l !! i with Some v => v | None => d end)) (seq 0 (length l))
  = map g l.
Proof.
  induction l as [|x l IH] using rev_ind; [reflexivity|].
  rewrite length_app. simpl. rewrite Nat.add_1_r, seq_S, !map_app. simpl.
  rewrite lookup_app_r, Nat.sub_diag by lia. simpl. f_equal.
  rewrite <- IH. apply map_ext_in. intros i Hi. apply in_seq in Hi.
  rewrite lookup_app_l by lia. reflexivity.
Qed.

(** ** MLPNetwork.forward *)

Section ForwardProofs.
Context {num : Type} `{!Arith num}.

Lemma normalize_spec (n : Normalization num) (pixels : list num) :
  normalize n pixels = normalized_input n pixels.
Proof.
  unfold normalize, normalized_input, Float32Array_new, idx.
  rewrite fill_loop.
  apply (map_seq_lookup nan (fun p => fround ((p ⊖ mean n) ⊘ std n))).
Qed.

Lemma neuron_sum_spec (bias : num) (ws current : list num) :
  neuron_sum bias ws current = weighted_sum bias ws current.
Proof.
  unfold neuron_sum, weighted_sum.
  induction ws as [|w ws IH] using rev_ind; [reflexivity|].
  rewrite length_app. simpl. rewrite Nat.add_1_r, for_loop_S.
  rewrite imap_app, foldl_app. simpl. rewrite Nat.add_0_r.
  rewrite <- IH. f_equal.
  - apply for_loop_ext. intros i s Hi. unfold idx.
    rewrite lookup_app_l by lia. reflexivity.
  - unfold idx at 1. rewrite lookup_app_r, Nat.sub_diag by lia. reflexivity.
Qed.

Lemma dense_length (layer : Layer num) (current : list num) :
  (length (biases layer) <= length (weights layer))%nat ->
  length (dense layer current) = length (biases layer).
Proof. intros Hl. unfold dense. rewrite length_zip_with. lia. Qed.

Lemma linear_layer_spec (layer : Layer num) (current : list num) :
  (length (biases layer) <= length (weights layer))%nat ->
  linear_layer layer current = Ok (dense layer current).
Proof.
  intros Hrows. unfold linear_layer.
  rewrite (for_loopM_pure _ _
    (fun neuron linear =>
       <[neuron := fround (weighted_sum (idx (biases layer) neuron)
                             (match weights layer !! neuron with
                              | Some ws => ws | None => [] end) current)]> linear)).
  - f_equal. unfold Float32Array_new. rewrite fill_loop. unfold dense.
    apply list_eq. intros j.
    rewrite list_lookup_fmap, lookup_zip_with.
    destruct (decide (j < length (biases layer))%nat) as [Hj|Hj].
    + rewrite lookup_seq_lt by lia. simpl. unfold idx.
      destruct (lookup_lt_is_Some_2 (biases layer) j Hj) as [b ->].
      destruct (lookup_lt_is_Some_2 (weights layer) j ltac:(lia)) as [row ->].
      reflexivity.
    + rewrite lookup_seq_ge by lia.
      rewrite (lookup_ge_None_2 (biases layer)) by lia. reflexivity.
  - intros i s Hi.
    destruct (lookup_lt_is_Some_2 (weights layer) i ltac:(lia)) as [row ->].
    rewrite neuron_sum_spec. reflexivity.
Qed.

(** Fewer rows than biases: the read of [weights.length] throws. *)
Lemma linear_layer_throws (layer : Layer num) (current : list num) :
  (length (weights layer) < length (biases layer))%nat ->
  exists msg, linear_layer layer current = Throw (TypeError msg).
Proof.
  intros Hrows. unfold linear_layer, for_loopM.
  assert (Hsplit : seq 0 (length (biases layer))
                   = seq 0 (length (weights layer)) ++ length (weights layer)
                     :: seq (Datatypes.S (length (weights layer)))
                          (length (biases layer) - Datatypes.S (length (weights layer)))).
  { replace (length (biases layer))
      with (length (weights layer)
            + Datatypes.S (length (biases layer) - Datatypes.S (length (weights layer))))%nat
      at 1 by lia.
    rewrite seq_app. simpl. reflexivity. }
  rewrite Hsplit, foldl_app. simpl.
  rewrite (lookup_ge_None_2 (weights layer) (length (weights layer))) by lia.
  pose proof (for_loopM_pure (length (weights layer))
    (fun neuron linear =>
       match weights layer !! neuron with
       | None => Throw (TypeError "Cannot read properties of undefined (reading 'length')")
       | Some ws =>
           Ok (<[neuron := fround (neuron_sum (idx (biases layer) neuron) ws current)]> linear)
       end)
    (fun neuron linear =>
       <[neuron := fround (neuron_sum (idx (biases layer) neuron)
                             (match weights layer !! neuron with
                              | Some ws => ws | None => [] end) current)]> linear)
    (Float32Array_new (length (biases layer)))) as Hpre.
  unfold for_loopM in Hpre. rewrite Hpre.
  - simpl. eexists. apply foldl_Throw.
  - intros i s Hi.
    destruct (lookup_lt_is_Some_2 (weights layer) i Hi) as [row ->]. reflexivity.
Qed.

Lemma activate_spec (layer : Layer num) (linear : list num) :
  length linear = length (biases layer) ->
  activate layer linear = activation_of layer linear.
Proof.
  intros Hlen. unfold activate, activation_of, is_relu.
  destruct (String.eqb (activation layer) "relu"); [|reflexivity].
  unfold Float32Array_new. rewrite fill_loop, <- Hlen. unfold idx.
  apply (map_seq_lookup nan (fun v => fround (relu v))).
Qed.

Lemma run_layers_length (ls : list (Layer num)) (current : list num) :
  length (fst (run_layers ls current)) = length ls
  /\ length (snd (run_layers ls current)) = length ls.
Proof.
  revert current. induction ls as [|layer ls IH]; intros current; [done|].
  simpl. specialize (IH (activation_of layer (dense layer current))).
  destruct (run_layers ls _) as [acts pres]. simpl in *. lia.
Qed.

(** Layer [i] reads [activations[i]], records its pre-activation at
    [preActivations[i]] and its activation at [activations[i + 1]]. *)
Lemma run_layers_lookup (ls : list (Layer num)) (current : list num) (i : nat)
    (layer : Layer num) :
  ls !! i = Some layer ->
  exists c,
    (current :: fst (run_layers ls current)) !! i = Some c
    /\ snd (run_layers ls current) !! i = Some (dense layer c)
    /\ fst (run_layers ls current) !! i = Some (activation_of layer (dense layer c)).
Proof.
  revert current i. induction ls as [|l ls IH]; intros current i Hi; [done|].
  simpl. specialize (IH (activation_of l (dense l current))).
  destruct (run_layers ls _) as [acts pres] eqn:Hrun. simpl in *.
  destruct i as [|i].
  - injection Hi as ->. exists current. done.
  - simpl in Hi. destruct (IH i Hi) as (c & Hc & Hpre & Hact).
    exists c. done.
Qed.

Lemma forward_fold_spec (ls : list (Layer num)) (acts pres : list (list num))
    (current : list num) :
  Forall (fun layer => (length (biases layer) <= length (weights layer))%nat) ls ->
  exists final,
    foldl (fun r layer => st ← r; forward_step st layer) (Ok (acts, pres, current)) ls
    = Ok (acts ++ fst (run_layers ls current), pres ++ snd (run_layers ls current), final).
Proof.
  intros Hrows. revert acts pres current.
  induction Hrows as [|layer ls Hrow Hrows IH]; intros acts pres current.
  - exists current. simpl. rewrite !app_nil_r. reflexivity.
  - simpl. rewrite linear_layer_spec by exact Hrow. simpl.
    rewrite activate_spec by (apply dense_length; exact Hrow).
    destruct (IH (acts ++ [activation_of layer (dense layer current)])
                 (pres ++ [dense layer current])
                 (activation_of layer (dense layer current))) as [final ->].
    exists final.
    destruct (run_layers ls _) as [acts' pres']. simpl.
    rewrite <- !app_assoc. reflexivity.
Qed.

(** The code computes what the specification describes. *)
Lemma forward_spec (net : MLPNetwork num) (pixels : list num) :
  one_row_per_neuron net ->
  let input := normalized_input (normalization net) pixels in
  forward net pixels
  = Ok {| normalizedInput := input;
          activations := input :: fst (run_layers (layers net) input);
          preActivations := snd (run_layers (layers net) input) |}.
Proof.
  intros Hrows input. unfold forward. rewrite normalize_spec. fold input.
  destruct (forward_fold_spec (layers net) [input] [] input Hrows) as [final ->].
  reflexivity.
Qed.

(** A layer that lacks a row makes [forward] throw. *)
Lemma forward_fold_throws (ls : list (Layer num)) (st : list (list num) * list (list num) * list num) :
  Exists (fun layer => (length (weights layer) < length (biases layer))%nat) ls ->
  exists msg,
    foldl (fun r layer => st ← r; forward_step st layer) (Ok st) ls
    = Throw (TypeError msg).
Proof.
  intros Hex. revert st. induction ls as [|layer ls IH]; intros st.
  - inversion Hex.
  - simpl. destruct st as [[acts pres] current]. simpl.
    destruct (decide (length (weights layer) < length (biases layer))%nat) as [Hlt|Hge].
    + destruct (linear_layer_throws layer current Hlt) as [msg ->]. simpl.
      exists msg. apply foldl_Throw.
    + rewrite linear_layer_spec by lia. simpl.
      apply IH. inversion Hex; subst; [lia|assumption].
Qed.

End ForwardProofs.

(** ** Order facts of the extended rationals *)

Lemma xq_ltb_not_gtb (x y : xq) : ltb x y = true -> gtb x y = false.
Proof.
  simpl. unfold ext_ltb, ext_gtb. destruct (ext_cmp x y) as [[]|]; done.
Qed.

Lemma xq_relu_negative (v : xq) : ltb v zero = true -> relu v = zero.
Proof. intros Hneg. unfold relu. rewrite (xq_ltb_not_gtb _ _ Hneg). reflexivity. Qed.

(** ** Claim C1 *)

(** C1 as stated fails: a definition whose layer has two biases and
    one weight row is constructed, its layer list is not empty and a
    pixel vector of the architecture's input width is given, and
    [forward] throws a TypeError at the neuron without a row instead of
    returning. *)
Lemma missing_row_makes_forward_throw :
  exists net,
    MLPNetwork_new missing_row_def = Ok net
    /\ layers net <> []
    /\ architecture net !! 0%nat = Some (length [lit 1 : xq])
    /\ forward net [lit 1]
       = Throw (TypeError "Cannot read properties of undefined (reading 'length')").
Proof.
  eexists. split; [reflexivity|]. split; [discriminate|]. split; [reflexivity|].
  vm_compute. reflexivity.
Qed.

(** C1, as the code has it.  In any arithmetic, for a network whose
    layers have a row of weights for each bias, and any pixel vector,
    [forward] returns.  The normalised input is
    [(pixels[i] - mean) / std], rounded by the store into the typed
    array.  Layer [i] reads [activations[i]]; its pre-activation
    [linear[j]] is the bias plus the sum of [weight[j][k] * current[k]],
    accumulated from the bias in the order of [k] and rounded by the
    store, recorded at [preActivations[i]]; its activation, at
    [activations[i + 1]], is the rounded ReLU of it for a layer named
    "relu" (a component that is not above 0, so a negative one, becomes
    0) and the vector unchanged otherwise.  [activations] has one more
    entry than there are layers and starts with the normalised input,
    [preActivations] has one entry per layer. *)
Theorem forward_computes_layers {num : Type} `{!Arith num} (net : MLPNetwork num)
    (pixels : list num) :
  one_row_per_neuron net ->
  exists r,
    forward net pixels = Ok r
    /\ normalizedInput r
       = map (fun p => fround ((p ⊖ mean (normalization net)) ⊘ std (normalization net)))
           pixels
    /\ activations r !! 0%nat = Some (normalizedInput r)
    /\ length (activations r) = S (length (layers net))
    /\ length (preActivations r) = length (layers net)
    /\ forall i layer, layers net !! i = Some layer ->
       exists current linear activated,
         activations r !! i = Some current
         /\ preActivations r !! i = Some linear
         /\ activations r !! S i = Some activated
         /\ length linear = length (biases layer)
         /\ (forall j b, biases layer !! j = Some b ->
             exists row, weights layer !! j = Some row
                         /\ linear !! j = Some (fround (weighted_sum b row current)))
         /\ length activated = length linear
         /\ (forall j v, linear !! j = Some v ->
             activated !! j = Some (if is_relu layer then fround (relu v) else v))
         /\ (forall j v, linear !! j = Some v -> is_relu layer = true ->
             gtb v zero = false -> activated !! j = Some (fround zero)).
Proof.
  intros Hrows.
  set (input := normalized_input (normalization net) pixels).
  eexists. split; [apply forward_spec; exact Hrows|]. fold input.
  cbn [normalizedInput activations preActivations].
  destruct (run_layers_length (layers net) input) as [Hla Hlp].
  split; [reflexivity|]. split; [reflexivity|].
  split; [cbn [length]; lia|]. split; [exact Hlp|].
  intros i layer Hi.
  destruct (run_layers_lookup _ input i layer Hi) as (c & Hc & Hpre & Hact).
  pose proof (Forall_lookup_1 _ _ _ _ Hrows Hi) as Hrow. simpl in Hrow.
  exists c, (dense layer c), (activation_of layer (dense layer c)).
  split; [exact Hc|]. split; [exact Hpre|]. split; [exact Hact|].
  split; [apply dense_length; exact Hrow|].
  assert (Hactv : forall j v, dense layer c !! j = Some v ->
            activation_of layer (dense layer c) !! j
            = Some (if is_relu layer then fround (relu v) else v)).
  { intros j v Hj. unfold activation_of. destruct (is_relu layer); [|exact Hj].
    rewrite list_lookup_fmap, Hj. reflexivity. }
  split; [|split; [|split]].
  - intros j b Hb.
    destruct (lookup_lt_is_Some_2 (weights layer) j) as [row Hrowj].
    { apply lookup_lt_Some in Hb. lia. }
    exists row. split; [exact Hrowj|].
    unfold dense. rewrite lookup_zip_with, Hb. simpl. rewrite Hrowj. reflexivity.
  - unfold activation_of. destruct (is_relu layer); [|reflexivity].
    apply length_map.
  - exact Hactv.
  - intros j v Hj Hrelu Hneg. rewrite (Hactv j v Hj), Hrelu.
    unfold relu. rewrite Hneg. reflexivity.
Qed.

(** The forward pass on the demo network and two pixels. *)
Lemma forward_computes_layers_witness :
  one_row_per_neuron demo_net
  /\ exists r, forward demo_net demo_pixels = Ok r
              /\ length (activations r) = 3%nat
              /\ length (preActivations r) = 2%nat.
Proof.
  assert (H3 : one_row_per_neuron demo_net).
  { unfold one_row_per_neuron. repeat constructor. }
  split; [exact H3|].
  destruct (forward_computes_layers demo_net demo_pixels H3)
    as (r & Hr & _ & _ & Hla & Hlp & _).
  exists r. split; [exact Hr|]. split; [exact Hla|exact Hlp].
Defined.

(** ** Claims C2 and C9: the constructor *)

Section ConstructorProofs.
Context {num : Type} `{!Arith num}.

Lemma MLPNetwork_new_layers (definition : NetworkDef num) (ls : list (LayerDef num)) :
  def_layers definition = Some ls -> ls <> [] ->
  exists net,
    MLPNetwork_new definition = Ok net
    /\ length (layers net) = length ls
    /\ forall i ld, ls !! i = Some ld ->
       exists layer,
         layers net !! i = Some layer
         /\ activation layer
            = match def_activation ld with Some a => a | None => "relu" end
         /\ weights layer = map Float32Array_from (def_weights ld)
         /\ biases layer = Float32Array_from (def_biases ld).
Proof.
  intros Hls Hne. unfold MLPNetwork_new. rewrite Hls.
  destruct ls as [|l ls]; [done|].
  eexists. split; [reflexivity|]. cbn [layers].
  split; [apply length_imap|].
  intros i ld Hi. eexists. rewrite list_lookup_imap, Hi. simpl.
  split; [reflexivity|]. done.
Qed.

(** [forward] returns only on a network with a row for each neuron. *)
Lemma forward_Ok_rows (net : MLPNetwork num) (pixels : list num) (r : ForwardResult num) :
  forward net pixels = Ok r -> one_row_per_neuron net.
Proof.
  intros Hr. unfold one_row_per_neuron.
  destruct (Forall_Exists_dec
              (fun layer : Layer num => (length (biases layer) <= length (weights layer))%nat)
              (fun layer : Layer num => (length (weights layer) < length (biases layer))%nat)
              (fun layer => le_lt_dec _ _) (layers net)) as [Hall|Hex]; [exact Hall|].
  exfalso. unfold forward in Hr.
  destruct (forward_fold_throws (layers net)
              ([normalize (normalization net) pixels], [],
               normalize (normalization net) pixels) Hex) as [msg Hthrow].
  rewrite Hthrow in Hr. discriminate.
Qed.

(** C2, as the code has it.  Construction fails, with the error "Network
    definition must contain layers.", exactly when the layer list is
    absent or empty.  Any other definition is accepted whatever the
    lengths of its weight rows, which are kept as they are; and [forward]
    then returns on every input as soon as each output neuron has a row. *)
Theorem construction_rejects_only_missing_layers (definition : NetworkDef num) :
  match def_layers definition with
  | None | Some [] =>
      MLPNetwork_new definition
      = Throw (Error "Network definition must contain layers.")
  | Some ls =>
      exists net,
        MLPNetwork_new definition = Ok net
        /\ length (layers net) = length ls
        /\ (forall i ld, ls !! i = Some ld ->
            exists layer,
              layers net !! i = Some layer
              /\ map length (weights layer) = map length (def_weights ld)
              /\ length (biases layer) = length (def_biases ld))
        /\ (forall pixels, one_row_per_neuron net ->
            exists r, forward net pixels = Ok r)
  end.
Proof.
  destruct (def_layers definition) as [ls|] eqn:Hls;
    [|unfold MLPNetwork_new; rewrite Hls; reflexivity].
  destruct ls as [|l ls]; [unfold MLPNetwork_new; rewrite Hls; reflexivity|].
  destruct (MLPNetwork_new_layers definition (l :: ls) Hls ltac:(done))
    as (net & Hnet & Hlen & Hlayers).
  exists net. split; [exact Hnet|]. split; [exact Hlen|]. split.
  - intros i ld Hi. destruct (Hlayers i ld Hi) as (layer & Hl & _ & Hw & Hb).
    exists layer. split; [exact Hl|]. rewrite Hw, Hb.
    unfold Float32Array_from. rewrite length_map. split; [|reflexivity].
    rewrite map_map. apply map_ext. intros row. apply length_map.
  - intros pixels Hrows. eexists. apply forward_spec. exact Hrows.
Qed.

(** C9.  A layer without an [activation] field gets "relu", any given
    name is kept and none is rejected; and a layer whose name is not
    exactly "relu" is an identity layer: [forward] returns its
    pre-activation vector as its activation vector. *)
Theorem unknown_activation_is_identity (definition : NetworkDef num)
    (ls : list (LayerDef num)) :
  def_layers definition = Some ls -> ls <> [] ->
  exists net,
    MLPNetwork_new definition = Ok net
    /\ forall i ld, ls !! i = Some ld ->
       exists layer,
         layers net !! i = Some layer
         /\ (def_activation ld = None -> activation layer = "relu")
         /\ (forall a, def_activation ld = Some a -> activation layer = a)
         /\ (activation layer <> "relu" ->
             (forall linear, activate layer linear = linear)
             /\ (forall pixels, one_row_per_neuron net ->
                 exists r linear,
                   forward net pixels = Ok r
                   /\ preActivations r !! i = Some linear
                   /\ activations r !! S i = Some linear)).
Proof.
  intros Hls Hne.
  destruct (MLPNetwork_new_layers definition ls Hls Hne) as (net & Hnet & _ & Hlayers).
  exists net. split; [exact Hnet|].
  intros i ld Hi. destruct (Hlayers i ld Hi) as (layer & Hl & Hact & _).
  exists layer. split; [exact Hl|].
  split; [intros Hnone; rewrite Hact, Hnone; reflexivity|].
  split; [intros a Ha; rewrite Hact, Ha; reflexivity|].
  intros Hnot. apply String.eqb_neq in Hnot. split.
  - intros linear. unfold activate. rewrite Hnot. reflexivity.
  - intros pixels Hrows. eexists. exists (dense layer
      (match (normalized_input (normalization net) pixels
              :: fst (run_layers (layers net)
                        (normalized_input (normalization net) pixels))) !! i with
       | Some c => c | None => [] end)).
    split; [apply forward_spec; exact Hrows|]. simpl.
    destruct (run_layers_lookup _ (normalized_input (normalization net) pixels) i layer Hl)
      as (c & Hc & Hpre & Hactv).
    rewrite Hc. split; [exact Hpre|].
    rewrite Hactv. unfold activation_of, is_relu. rewrite Hnot. reflexivity.
Qed.

End ConstructorProofs.

(** C2 as stated fails: a definition whose weight row has three entries
    for an input width of two is constructed without error, and the
    mismatch shows only in the output of [forward], as NaN. *)
Lemma mismatched_rows_are_constructed :
  has_row_mismatch 2
    (match def_layers mismatched_def with Some ls => ls | None => [] end) = true
  /\ exists net,
      MLPNetwork_new mismatched_def = Ok net
      /\ forward net [lit 1; lit 1]
         = Ok {| normalizedInput := [Fin 1%Q; Fin 1%Q];
                 activations := [[Fin 1%Q; Fin 1%Q]; [Fin 0%Q]];
                 preActivations := [[NaN]] |}.
Proof.
  split; [reflexivity|]. eexists. split; [reflexivity|]. vm_compute. reflexivity.
Qed.

(** The demo definition: its second layer is named "identity". *)
Lemma unknown_activation_is_identity_witness :
  def_layers demo_def = Some demo_layers
  /\ demo_layers <> []
  /\ exists net,
      MLPNetwork_new demo_def = Ok net
      /\ exists layer,
          layers net !! 1%nat = Some layer /\ activation layer = "identity".
Proof.
  split; [reflexivity|]. split; [discriminate|].
  destruct (unknown_activation_is_identity demo_def demo_layers
              eq_refl ltac:(discriminate))
    as (net & Hnet & Hlayers).
  exists net. split; [exact Hnet|].
  destruct (Hlayers 1%nat _ eq_refl) as (layer & Hl & _ & Hsome & _).
  exists layer. split; [exact Hl|]. apply Hsome. reflexivity.
Defined.

(** ** The connection selector *)

Lemma filter_none {A : Type} (f : A -> bool) (l : list A) :
  (forall x, In x l -> f x = false) -> List.filter f l = [].
Proof.
  induction l as [|x l IH]; intros Hf; [reflexivity|]. simpl.
  rewrite (Hf x) by (left; reflexivity). apply IH.
  intros y Hy. apply Hf. right. exact Hy.
Qed.

Section SelectorProofs.
Context {num : Type} `{!Arith num}.

Lemma row_candidates_spec (target : nat) (row : list num) (m : num) :
  row_candidates target row m = (finite_candidates target row, running_max m row).
Proof.
  unfold row_candidates, finite_candidates, running_max.
  pose (body := fun (r : list num) (source : nat) (st : list (Candidate num) * num) =>
    let '(candidates, maxAbsWeight) := st in
    let weight := idx r source in
    if negb (isFinite weight) then (candidates, maxAbsWeight)
    else
      let magnitude := abs weight in
      (candidates ++ [{| c_sourceIndex := source; c_targetIndex := target;
                         c_weight := weight; c_magnitude := magnitude |}],
       if gtb magnitude maxAbsWeight then magnitude else maxAbsWeight)).
  change (for_loop (length row) (body row) ([], m)
          = (List.filter (fun c => isFinite (c_weight c)) (imap (candidate_at target) row),
             foldl (fun m w => if isFinite w then (if gtb (abs w) m then abs w else m) else m)
               m row)).
  induction row as [|w row IH] using rev_ind; [reflexivity|].
  rewrite length_app. simpl. rewrite Nat.add_1_r, for_loop_S.
  rewrite (for_loop_ext _ (body (row ++ [w])) (body row)).
  2:{ intros i [c mx] Hi. unfold body, idx. rewrite lookup_app_l by lia. reflexivity. }
  rewrite IH. unfold body at 1, idx. rewrite lookup_app_r, Nat.sub_diag by lia. simpl.
  rewrite imap_app, List.filter_app, foldl_app. simpl. rewrite Nat.add_0_r.
  destruct (isFinite w); simpl; [reflexivity|].
  rewrite app_nil_r. reflexivity.
Qed.

Lemma take_loop {A B : Type} (f : A -> B) (l : list A) (n : nat) (acc : list B) :
  (n <= length l)%nat ->
  for_loop n (fun i acc => match l !! i with
                           | Some c => acc ++ [f c]
                           | None => acc
                           end) acc
  = acc ++ map f (take n l).
Proof.
  induction n as [|n IH]; intros Hn.
  - simpl. rewrite app_nil_r. reflexivity.
  - rewrite for_loop_S, IH by lia.
    destruct (lookup_lt_is_Some_2 l n ltac:(lia)) as [c Hc]. rewrite Hc.
    rewrite (take_S_r l n c Hc), map_app, app_assoc. reflexivity.
Qed.

Lemma take_top_spec (limit : nat) (candidates : list (Candidate num))
    (acc : list (Connection num)) :
  take_top limit candidates acc
  = acc ++ map to_connection (take limit (Array_sort by_magnitude_desc candidates)).
Proof.
  unfold take_top. cbv zeta.
  etransitivity; [apply (take_loop to_connection); lia|]. f_equal. f_equal.
  destruct (le_lt_dec limit (length (Array_sort by_magnitude_desc candidates))) as [Hle|Hgt].
  - rewrite Nat.min_l by lia. reflexivity.
  - rewrite Nat.min_r by lia. rewrite !take_ge by lia. reflexivity.
Qed.

(** The selection is the per-target selections, one after the other. *)
Lemma findImportantConnections_spec (limit : nat) (layer : Layer num) :
  selected (findImportantConnections limit layer)
  = concat (imap (selected_for limit) (weights layer)).
Proof.
  unfold findImportantConnections.
  set (ws := weights layer). clearbody ws.
  pose (body := fun (rows : list (list num)) (target : nat)
                     (st : list (Connection num) * num) =>
    let '(selected, maxAbsWeight) := st in
    let row := match rows !! target with Some r => r | None => [] end in
    let '(candidates, maxAbsWeight) := row_candidates target row maxAbsWeight in
    (take_top limit candidates selected, maxAbsWeight)).
  assert (Hloop :
    for_loop (length ws) (body ws) ([], zero)
    = (concat (imap (selected_for limit) ws), foldl running_max zero ws)).
  { induction ws as [|row ws IH] using rev_ind; [reflexivity|].
    rewrite length_app. simpl. rewrite Nat.add_1_r, for_loop_S.
    rewrite (for_loop_ext _ (body (ws ++ [row])) (body ws)).
    2:{ intros i [sel mx] Hi. unfold body. rewrite lookup_app_l by lia. reflexivity. }
    rewrite IH. unfold body at 1. rewrite lookup_app_r, Nat.sub_diag by lia. simpl.
    rewrite row_candidates_spec, take_top_spec.
    rewrite imap_app, concat_app, foldl_app. simpl.
    rewrite Nat.add_0_r, app_nil_r. reflexivity. }
  change (selected (let '(selected, maxAbsWeight) := for_loop (length ws) (body ws) ([], zero) in
                    {| selected := selected; sel_maxAbsWeight := maxAbsWeight |})
          = concat (imap (selected_for limit) ws)).
  rewrite Hloop. reflexivity.
Qed.

Lemma selected_for_target (limit target : nat) (row : list num) (e : Connection num) :
  In e (selected_for limit target row) -> targetIndex e = target.
Proof.
  unfold selected_for. intros He. apply in_map_iff in He as (c & <- & Hc).
  apply list_elem_of_In, elem_of_take in Hc as (i & Hc & _).
  apply list_elem_of_lookup_2, list_elem_of_In in Hc.
  assert (Hperm : forall l x, In x (Array_sort by_magnitude_desc l) -> In x l).
  { clear. intros l x. induction l as [|y l IH]; [done|]. simpl.
    intros Hx.
    assert (Hins : forall s, In x (sort_insert by_magnitude_desc y s) -> x = y \/ In x s).
    { clear. intros s. induction s as [|z s IHs]; simpl.
      - intros [->|[]]. left. reflexivity.
      - destruct (gtb _ _); simpl.
        + intros [->|Hs]; [right; left; reflexivity|].
          destruct (IHs Hs) as [->|Hin]; [left; reflexivity|right; right; exact Hin].
        + intros [->|[->|Hs]]; [left|right; left|right; right]; done. }
    destruct (Hins _ Hx) as [->|Hin]; [left; reflexivity|right; apply IH, Hin]. }
  apply Hperm in Hc. unfold finite_candidates in Hc.
  apply List.filter_In in Hc as [Hc _].
  apply list_elem_of_In, list_elem_of_lookup in Hc as [k Hk].
  rewrite list_lookup_imap in Hk.
  destruct (row !! k); simpl in Hk; [|done]. injection Hk as <-. reflexivity.
Qed.

(** The edges of target [t] in the selection are its own selection. *)
Lemma edges_of_spec (limit : nat) (layer : Layer num) (t : nat) (row : list num) :
  weights layer !! t = Some row ->
  edges_of t (findImportantConnections limit layer) = selected_for limit t row.
Proof.
  unfold edges_of. rewrite findImportantConnections_spec.
  set (ws := weights layer). clearbody ws. revert t row.
  induction ws as [|r ws IH] using rev_ind; intros t row Ht; [done|].
  rewrite imap_app, concat_app, List.filter_app. simpl.
  rewrite Nat.add_0_r, app_nil_r.
  assert (Hall : forall k r', (k <> t) ->
            List.filter (fun e : Connection num => (targetIndex e =? t)%nat)
              (selected_for limit k r') = []).
  { intros k r' Hk. apply filter_none. intros e He.
    rewrite (selected_for_target _ _ _ _ He). apply Nat.eqb_neq. exact Hk. }
  assert (Hsame : forall r',
            List.filter (fun e : Connection num => (targetIndex e =? t)%nat)
              (selected_for limit t r') = selected_for limit t r').
  { intros r'. apply List.forallb_filter_id, List.forallb_forall. intros e He.
    rewrite (selected_for_target _ _ _ _ He). apply Nat.eqb_refl. }
  destruct (decide (t < length ws)%nat) as [Hlt|Hge].
  - rewrite lookup_app_l in Ht by lia. rewrite (IH t row Ht).
    rewrite Hall by lia. apply app_nil_r.
  - rewrite lookup_app_r in Ht by lia.
    destruct (t - length ws)%nat as [|d] eqn:Hd; [|destruct d; done].
    injection Ht as ->. assert (t = length ws) as -> by lia.
    rewrite Hsame.
    assert (Hpre : List.filter (fun e : Connection num => (targetIndex e =? length ws)%nat)
              (concat (imap (selected_for limit) ws)) = []).
    { apply filter_none. intros e He. apply in_concat in He as (seg & Hseg & He).
      apply list_elem_of_In, list_elem_of_lookup in Hseg as [k Hk].
      rewrite list_lookup_imap in Hk.
      destruct (ws !! k) as [rk|] eqn:Hrk; simpl in Hk; [|done]. injection Hk as <-.
      rewrite (selected_for_target _ _ _ _ He). apply Nat.eqb_neq.
      apply lookup_lt_Some in Hrk. lia. }
    rewrite Hpre. reflexivity.
Qed.

End SelectorProofs.

(** *** The sort, on the extended rationals *)

Lemma xq_gtb_sub (a b : Q) :
  gtb (Fin b ⊖ Fin a) (zero : xq) = true <-> (a < b)%Q.
Proof.
  simpl. unfold ext_gtb, ext_sub. simpl.
  rewrite !Qred_correct.
  destruct (Qcompare (b + - a) 0) eqn:Hc.
  - split; [done|]. intros Hlt. apply Qlt_minus_iff in Hlt.
    apply Qeq_alt in Hc. rewrite Hc in Hlt. exfalso. revert Hlt. apply Qlt_irrefl.
  - split; [done|]. intros Hlt. apply Qlt_minus_iff in Hlt.
    apply Qlt_alt in Hc. exfalso. apply (Qlt_irrefl 0).
    eapply Qlt_trans; [exact Hlt|exact Hc].
  - split; [|done]. intros _. apply Qgt_alt in Hc. apply Qlt_minus_iff. exact Hc.
Qed.

Lemma xq_leb_Fin (a b : Q) : leb (Fin a : xq) (Fin b) = true <-> (a <= b)%Q.
Proof.
  simpl. unfold ext_leb. simpl. rewrite Qle_alt.
  destruct (Qcompare a b); split; done.
Qed.

Lemma xq_eqb_Fin (a b : Q) : eqb (Fin a : xq) (Fin b) = true <-> (a == b)%Q.
Proof.
  simpl. unfold ext_eqb. simpl. rewrite Qeq_alt.
  destruct (Qcompare a b); split; done.
Qed.

Lemma xq_isFinite (x : xq) : isFinite x = true -> exists q, x = Fin q.
Proof. destruct x; simpl; try done. intros _. eexists. reflexivity. Qed.

Lemma xq_abs_Fin (w : Q) : exists q, abs (Fin w : xq) = Fin q.
Proof. simpl. eexists. reflexivity. Qed.

Lemma after_iff (a b : Candidate xq) :
  fin_mag a -> fin_mag b ->
  gtb (by_magnitude_desc a b) zero = true <-> (qmag a < qmag b)%Q.
Proof.
  intros [qa Ha] [qb Hb]. unfold by_magnitude_desc, qmag. rewrite Ha, Hb.
  apply xq_gtb_sub.
Qed.

Lemma sort_insert_In {num : Type} `{!Arith num} {A : Type} (cmp : A -> A -> num)
    (x y : A) (s : list A) :
  In y (sort_insert cmp x s) <-> y = x \/ In y s.
Proof.
  induction s as [|z s IH]; cbn [sort_insert].
  - simpl. intuition congruence.
  - destruct (gtb (cmp x z) zero); cbn [In]; [rewrite IH|]; intuition congruence.
Qed.

Lemma sort_insert_length {num : Type} `{!Arith num} {A : Type} (cmp : A -> A -> num)
    (x : A) (s : list A) :
  length (sort_insert cmp x s) = S (length s).
Proof.
  induction s as [|z s IH]; [reflexivity|]. cbn [sort_insert].
  destruct (gtb (cmp x z) zero); cbn [length]; [rewrite IH|]; reflexivity.
Qed.

Lemma Array_sort_In {num : Type} `{!Arith num} {A : Type} (cmp : A -> A -> num)
    (y : A) (l : list A) :
  In y (Array_sort cmp l) <-> In y l.
Proof.
  induction l as [|x l IH]; [reflexivity|]. simpl.
  rewrite sort_insert_In, IH. intuition congruence.
Qed.

Lemma Array_sort_length {num : Type} `{!Arith num} {A : Type} (cmp : A -> A -> num)
    (l : list A) :
  length (Array_sort cmp l) = length l.
Proof.
  induction l as [|x l IH]; [reflexivity|]. simpl.
  rewrite sort_insert_length, IH. reflexivity.
Qed.

(** Inserting a candidate of an earlier column keeps the order. *)
Lemma sort_insert_sorted (x : Candidate xq) (s : list (Candidate xq)) :
  fin_mag x -> Forall fin_mag s ->
  Forall (fun y => (c_sourceIndex x < c_sourceIndex y)%nat) s ->
  StronglySorted precedes s ->
  StronglySorted precedes (sort_insert by_magnitude_desc x s).
Proof.
  intros Hx Hfin Hsrc Hsorted.
  induction Hsorted as [|y s Hs IH Hys]; cbn [sort_insert].
  - constructor; constructor.
  - inversion Hfin as [|? ? Hy Hfin']; subst.
    inversion Hsrc as [|? ? Hxy Hsrc']; subst.
    destruct (gtb (by_magnitude_desc x y) zero) eqn:Hafter.
    + apply after_iff in Hafter; [|assumption..].
      constructor; [apply IH; assumption|].
      apply Forall_forall. intros z Hz. apply list_elem_of_In, sort_insert_In in Hz as [->|Hz].
      * split; [apply Qlt_le_weak; exact Hafter|].
        intros Heq. rewrite Heq in Hafter. exfalso. revert Hafter. apply Qlt_irrefl.
      * rewrite Forall_forall in Hys. apply Hys, list_elem_of_In. exact Hz.
    + assert (Hle : (qmag y <= qmag x)%Q).
      { apply Qnot_lt_le. intros Hlt. apply after_iff in Hlt; [|assumption..].
        congruence. }
      constructor; [constructor; assumption|].
      constructor; [split; [exact Hle|intros _; exact Hxy]|].
      apply Forall_forall. intros z Hz.
      rewrite Forall_forall in Hys, Hsrc'.
      split; [|intros _; apply Hsrc'; exact Hz].
      eapply Qle_trans; [apply (Hys z Hz)|exact Hle].
Qed.

Lemma finite_candidates_lookup (t : nat) (row : list xq) (c : Candidate xq) :
  In c (finite_candidates t row) <->
  exists k w, row !! k = Some w /\ isFinite w = true /\ c = candidate_at t k w.
Proof.
  unfold finite_candidates. rewrite List.filter_In. split.
  - intros [Hc Hf]. apply list_elem_of_In, list_elem_of_lookup in Hc as [k Hk].
    rewrite list_lookup_imap in Hk.
    destruct (row !! k) as [w|] eqn:Hw; simpl in Hk; [|done]. injection Hk as <-.
    exists k, w. done.
  - intros (k & w & Hw & Hf & ->). split; [|exact Hf].
    apply list_elem_of_In, list_elem_of_lookup. exists k.
    rewrite list_lookup_imap, Hw. reflexivity.
Qed.

Lemma finite_candidates_fin (t : nat) (row : list xq) :
  Forall fin_mag (finite_candidates t row).
Proof.
  apply Forall_forall. intros c Hc.
  apply list_elem_of_In, finite_candidates_lookup in Hc as (k & w & _ & Hf & ->).
  apply xq_isFinite in Hf as [q ->]. apply xq_abs_Fin.
Qed.

(** The sorted candidates of a row are in the order [precedes]. *)
Lemma sorted_candidates (t : nat) (row : list xq) :
  StronglySorted precedes (Array_sort by_magnitude_desc (finite_candidates t row)).
Proof.
  unfold finite_candidates.
  assert (Hgen : forall (off : nat) (r : list xq),
    let l := List.filter (fun c : Candidate xq => isFinite (c_weight c))
               (imap (fun k => candidate_at t (off + k)) r) in
    StronglySorted precedes (Array_sort by_magnitude_desc l)
    /\ Forall (fun c => (off <= c_sourceIndex c)%nat /\ fin_mag c)
         (Array_sort by_magnitude_desc l)).
  { intros off r. revert off. induction r as [|w r IH]; intros off.
    - simpl. split; constructor.
    - simpl.
      assert (Hshift : imap ((fun k => candidate_at t (off + k)) ∘ S) r
                       = imap (fun k => candidate_at t (S off + k)) r).
      { apply imap_ext. intros k x _. simpl. f_equal. lia. }
      rewrite Hshift. destruct (IH (S off)) as [Hs Hall].
      rewrite Nat.add_0_r.
      destruct (ext_isFinite w) eqn:Hf; unfold Array_sort; cbn [foldr];
        fold (Array_sort (A:=Candidate xq) by_magnitude_desc).
      + change (ext_isFinite w = true) with (isFinite w = true) in Hf.
        assert (Hfin : fin_mag (candidate_at t off w)).
        { apply xq_isFinite in Hf as [q ->]. apply xq_abs_Fin. }
        split.
        * apply sort_insert_sorted; [exact Hfin| | |exact Hs].
          -- eapply Forall_impl; [exact Hall|]. simpl. tauto.
          -- eapply Forall_impl; [exact Hall|]. simpl. intros c [Hc _]. lia.
        * apply Forall_forall. intros c Hc.
          apply list_elem_of_In, sort_insert_In in Hc as [->|Hc].
          -- simpl. split; [lia|exact Hfin].
          -- rewrite Forall_forall in Hall.
             destruct (Hall c) as [Hc1 Hc2]; [apply list_elem_of_In; exact Hc|].
             split; [lia|exact Hc2].
      + split; [exact Hs|]. eapply Forall_impl; [exact Hall|].
        simpl. intros c [Hc1 Hc2]. split; [lia|exact Hc2]. }
  destruct (Hgen 0%nat row) as [Hs _]. exact Hs.
Qed.

Lemma StronglySorted_lookup {A : Type} (R : A -> A -> Prop) (l : list A)
    (i j : nat) (a b : A) :
  StronglySorted R l -> (i < j)%nat -> l !! i = Some a -> l !! j = Some b -> R a b.
Proof.
  intros Hs. revert i j. induction Hs as [|x l Hs IH Hx]; intros i j Hij Ha Hb; [done|].
  destruct j as [|j]; [lia|]. simpl in Hb.
  destruct i as [|i].
  - injection Ha as <-. rewrite Forall_forall in Hx.
    apply Hx. eapply list_elem_of_lookup_2. exact Hb.
  - simpl in Ha. apply (IH i j); [lia|assumption..].
Qed.

Lemma precedes_leb (a b : Candidate xq) :
  fin_mag a -> fin_mag b -> precedes a b ->
  leb (c_magnitude b) (c_magnitude a) = true
  /\ (eqb (c_magnitude a) (c_magnitude b) = true ->
      (c_sourceIndex a < c_sourceIndex b)%nat).
Proof.
  intros [qa Ha] [qb Hb] [Hle Htie]. unfold qmag in Hle, Htie.
  rewrite Ha, Hb in *. split.
  - apply xq_leb_Fin. exact Hle.
  - intros Heq. apply Htie. apply xq_eqb_Fin. exact Heq.
Qed.

Lemma filter_length_le' {A : Type} (f : A -> bool) (l : list A) :
  (length (List.filter f l) <= length l)%nat.
Proof.
  induction l as [|x l IH]; [done|]. simpl. destruct (f x); simpl; lia.
Qed.

(** What is known of a candidate at position [i] of the sorted list. *)
Lemma sorted_candidate_inv (t : nat) (row : list xq) (i : nat) (c : Candidate xq) :
  Array_sort by_magnitude_desc (finite_candidates t row) !! i = Some c ->
  fin_mag c
  /\ exists k w, row !! k = Some w /\ isFinite w = true /\ c = candidate_at t k w.
Proof.
  intros Hc. apply list_elem_of_lookup_2, list_elem_of_In, Array_sort_In in Hc.
  split.
  - pose proof (finite_candidates_fin t row) as Hall. rewrite Forall_forall in Hall.
    apply Hall, list_elem_of_In. exact Hc.
  - apply finite_candidates_lookup. exact Hc.
Qed.

(** ** Claim C3 *)

(** C3.  For every layer, limit and target neuron [t] with row [row],
    the edges returned for [t] are at most [min(limit, row.length)];
    each is a finite weight of the row at its source column; a finite
    weight of the row that is not returned has a magnitude no larger than
    that of any returned edge, and on a tie its column is the later one;
    the returned edges are in descending order of magnitude, equal
    magnitudes in column order.  The selector is a total function: a
    non-finite weight is skipped and selection goes on. *)
Theorem top_k_per_target (limit : nat) (layer : Layer xq) (t : nat) (row : list xq) :
  weights layer !! t = Some row ->
  let edges := edges_of t (findImportantConnections limit layer) in
  (length edges <= Nat.min limit (length row))%nat
  /\ (forall e, In e edges ->
      targetIndex e = t /\ isFinite (weight e) = true
      /\ row !! sourceIndex e = Some (weight e))
  /\ (forall e k w, In e edges -> row !! k = Some w -> isFinite w = true ->
      (forall e', In e' edges -> sourceIndex e' <> k) ->
      leb (abs w) (abs (weight e)) = true
      /\ (eqb (abs (weight e)) (abs w) = true -> (sourceIndex e < k)%nat))
  /\ (forall i j ei ej, (i < j)%nat -> edges !! i = Some ei -> edges !! j = Some ej ->
      leb (abs (weight ej)) (abs (weight ei)) = true
      /\ (eqb (abs (weight ei)) (abs (weight ej)) = true ->
          (sourceIndex ei < sourceIndex ej)%nat)).
Proof.
  intros Hrow edges. subst edges. rewrite (edges_of_spec limit layer t row Hrow).
  unfold selected_for.
  set (sorted := Array_sort by_magnitude_desc (finite_candidates t row)).
  pose proof (sorted_candidates t row) as Hsorted. fold sorted in Hsorted.
  assert (Hedge : forall e i, map to_connection (take limit sorted) !! i = Some e ->
            exists c, sorted !! i = Some c /\ (i < limit)%nat /\ e = to_connection c).
  { intros e i He. rewrite list_lookup_fmap in He.
    destruct (take limit sorted !! i) as [c|] eqn:Hc; simpl in He; [|done].
    injection He as <-. apply lookup_take_Some in Hc as [Hc Hi]. exists c. done. }
  assert (Hin : forall e, In e (map to_connection (take limit sorted)) ->
            exists i c, sorted !! i = Some c /\ (i < limit)%nat /\ e = to_connection c).
  { intros e He. apply list_elem_of_In, list_elem_of_lookup in He as [i Hi].
    destruct (Hedge e i Hi) as (c & H1 & H2 & H3). exists i, c. done. }
  split; [|split; [|split]].
  - rewrite length_map, length_take. unfold sorted.
    rewrite Array_sort_length. unfold finite_candidates.
    pose proof (filter_length_le' (fun c : Candidate xq => isFinite (c_weight c))
                  (imap (candidate_at t) row)) as Hle.
    rewrite length_imap in Hle. lia.
  - intros e He. destruct (Hin e He) as (i & c & Hc & _ & ->).
    destruct (sorted_candidate_inv t row i c Hc) as (_ & k & w & Hw & Hf & ->).
    simpl. done.
  - intros e k w He Hw Hf Hnot.
    destruct (Hin e He) as (i & c & Hc & Hi & ->).
    destruct (sorted_candidate_inv t row i c Hc) as (Hfc & k0 & w0 & Hw0 & Hf0 & ->).
    assert (Hcand : In (candidate_at t k w) sorted).
    { apply Array_sort_In, finite_candidates_lookup. exists k, w. done. }
    apply list_elem_of_In, list_elem_of_lookup in Hcand as [j Hj].
    assert (Hjl : (limit <= j)%nat).
    { destruct (le_lt_dec limit j) as [|Hlt]; [assumption|]. exfalso.
      apply (Hnot (to_connection (candidate_at t k w))); [|reflexivity].
      apply in_map, list_elem_of_In. eapply list_elem_of_lookup_2.
      apply lookup_take_Some. split; [exact Hj|exact Hlt]. }
    destruct (sorted_candidate_inv t row j _ Hj) as (Hfj & _).
    pose proof (StronglySorted_lookup precedes sorted i j _ _ Hsorted
                  ltac:(lia) Hc Hj) as Hprec.
    apply (precedes_leb _ _ Hfc Hfj) in Hprec. exact Hprec.
  - intros i j ei ej Hij Hi Hj.
    destruct (Hedge ei i Hi) as (ci & Hci & _ & ->).
    destruct (Hedge ej j Hj) as (cj & Hcj & _ & ->).
    destruct (sorted_candidate_inv t row i ci Hci) as (Hfi & ki & wi & _ & _ & ->).
    destruct (sorted_candidate_inv t row j cj Hcj) as (Hfj & kj & wj & _ & _ & ->).
    pose proof (StronglySorted_lookup precedes sorted i j _ _ Hsorted Hij Hci Hcj)
      as Hprec.
    apply (precedes_leb _ _ Hfi Hfj) in Hprec. exact Hprec.
Qed.

(** Target 0 of the layer with non-finite weights, limit 2. *)
Lemma top_k_per_target_witness :
  weights selector_layer !! 0%nat = Some selector_row
  /\ (length (edges_of 0 (findImportantConnections 2 selector_layer)) <= 2)%nat.
Proof.
  split; [reflexivity|].
  destruct (top_k_per_target 2 selector_layer 0 selector_row eq_refl) as [Hlen _].
  exact Hlen.
Defined.

(** ** Claim C5 *)

Lemma finite_candidates_length {num : Type} `{!Arith num} (t : nat) (row : list num) :
  length (finite_candidates t row) = length (List.filter isFinite row).
Proof.
  unfold finite_candidates.
  induction row as [|w row IH] using rev_ind; [reflexivity|].
  rewrite imap_app, !List.filter_app, !length_app, IH. simpl.
  destruct (isFinite w); reflexivity.
Qed.

(** C5 as stated fails: the row [[Infinity, 3]] of target 1 has width
    two, and with a limit of two its target receives one edge. *)
Lemma non_finite_weights_reduce_edges :
  weights selector_layer !! 1%nat = Some [PInf; lit 3]
  /\ ~ (Nat.min 2 (length [PInf; lit 3 : xq])
        <= length (edges_of 1 (findImportantConnections 2 selector_layer)))%nat.
Proof. split; [reflexivity|]. intros Hle. vm_compute in Hle. lia. Qed.

(** C5, as the code has it.  A target receives exactly
    [min(limit, f)] edges, where [f] is the number of finite weights in
    its row; that is [min(limit, inputWidth)] when all the weights of the
    row are finite. *)
Theorem edges_per_target_count {num : Type} `{!Arith num} (limit : nat)
    (layer : Layer num) (t : nat) (row : list num) :
  weights layer !! t = Some row ->
  length (edges_of t (findImportantConnections limit layer))
  = Nat.min limit (length (List.filter isFinite row))
  /\ (forallb isFinite row = true ->
      length (edges_of t (findImportantConnections limit layer))
      = Nat.min limit (length row)).
Proof.
  intros Hrow. rewrite (edges_of_spec limit layer t row Hrow). unfold selected_for.
  rewrite length_map, length_take, Array_sort_length, finite_candidates_length.
  split; [reflexivity|]. intros Hall.
  rewrite (List.forallb_filter_id _ _ Hall). reflexivity.
Qed.

(** The count for target 0 of the layer with non-finite weights. *)
Lemma edges_per_target_count_witness :
  weights selector_layer !! 0%nat = Some selector_row
  /\ length (edges_of 0 (findImportantConnections 2 selector_layer))
     = Nat.min 2 (length (List.filter isFinite selector_row)).
Proof.
  split; [reflexivity|].
  destruct (edges_per_target_count 2 selector_layer 0 selector_row eq_refl) as [Hlen _].
  exact Hlen.
Defined.

(** ** NetworkVisualizer.update *)

Lemma foldl_ext_In {A B : Type} (f g : A -> B -> A) (a : A) (l : list B) :
  (forall a x, In x l -> f a x = g a x) -> foldl f a l = foldl g a l.
Proof.
  revert a. induction l as [|x l IH]; intros a Hfg; [reflexivity|]. simpl.
  rewrite (Hfg a x) by (left; reflexivity). apply IH.
  intros a' y Hy. apply Hfg. right. exact Hy.
Qed.

(** [forEach] as a loop over the indices. *)
Lemma foldl_imap_pair {A S : Type} (g : nat -> A -> S -> S) (l : list A) (s : S) :
  foldl (fun s '(i, x) => g i x s) s (imap pair l)
  = for_loop (length l)
      (fun i s => match l !! i with Some x => g i x s | None => s end) s.
Proof.
  induction l as [|x l IH] using rev_ind; [reflexivity|].
  rewrite imap_app, foldl_app, IH, length_app. simpl.
  rewrite Nat.add_1_r, for_loop_S, Nat.add_0_r.
  rewrite lookup_app_r, Nat.sub_diag by lia. simpl. f_equal.
  apply for_loop_ext. intros i s' Hi. rewrite lookup_app_l by lia. reflexivity.
Qed.

(** An invariant carried through a loop that does not throw. *)
Lemma for_loopM_ind {S : Type} (P : nat -> S -> Prop) (n : nat)
    (body : nat -> S -> result S) (s : S) :
  P 0%nat s ->
  (forall i s, (i < n)%nat -> P i s -> exists s', body i s = Ok s' /\ P (Datatypes.S i) s') ->
  exists s', for_loopM n body s = Ok s' /\ P n s'.
Proof.
  intros H0 Hstep. unfold for_loopM. induction n as [|n IH].
  - exists s. done.
  - destruct IH as (s1 & H1 & HP1); [intros i s' Hi; apply Hstep; lia|].
    rewrite seq_S, foldl_app, H1. simpl. apply Hstep; [lia|exact HP1].
Qed.

Lemma forEachM_for_loopM {A S : Type} (body : A -> nat -> S -> result S)
    (arr : list A) (s : S) :
  forEachM arr body s
  = for_loopM (length arr)
      (fun i s => match arr !! i with Some x => body x i s | None => Ok s end) s.
Proof.
  unfold forEachM, for_loopM.
  induction arr as [|x arr IH] using rev_ind; [reflexivity|].
  rewrite imap_app, foldl_app, IH, length_app. simpl.
  rewrite Nat.add_1_r, seq_S, foldl_app, Nat.add_0_r. simpl.
  assert (Hpre :
    foldl (fun r i => s0 ← r;
             match (arr ++ [x]) !! i with Some x0 => body x0 i s0 | None => Ok s0 end)
      (Ok s) (seq 0 (length arr))
    = foldl (fun r i => s0 ← r;
             match arr !! i with Some x0 => body x0 i s0 | None => Ok s0 end)
      (Ok s) (seq 0 (length arr))).
  { apply foldl_ext_In. intros r i Hi. apply in_seq in Hi.
    rewrite lookup_app_l by lia. reflexivity. }
  rewrite Hpre. destruct (foldl _ _ (seq 0 (length arr))) as [s1|e]; simpl; [|reflexivity].
  rewrite lookup_app_r, Nat.sub_diag by lia. reflexivity.
Qed.

Section UpdateProofs.
Context {num : Type} `{!Arith num}.

Lemma same_buffers_refl (m : InstancedMesh num) : same_buffers m m.
Proof. unfold same_buffers. done. Qed.

Lemma same_buffers_trans (m1 m2 m3 : InstancedMesh num) :
  same_buffers m1 m2 -> same_buffers m2 m3 -> same_buffers m1 m3.
Proof. unfold same_buffers. intuition congruence. Qed.

(** The three stores of [setColorAt]. *)
Lemma set_cells (arr : list num) (k : nat) (r g b : num) :
  let arr' := <[(k * 3 + 2)%nat := b]> (<[(k * 3 + 1)%nat := g]> (<[(k * 3)%nat := r]> arr)) in
  length arr' = length arr
  /\ (forall p, (p < k * 3 \/ k * 3 + 3 <= p)%nat -> arr' !! p = arr !! p)
  /\ (forall comp x, [r; g; b] !! comp = Some x -> (k * 3 + comp < length arr)%nat ->
      arr' !! (k * 3 + comp)%nat = Some x).
Proof.
  cbv zeta. split; [rewrite !length_insert; reflexivity|]. split.
  - intros p Hp. rewrite !list_lookup_insert_ne by lia. reflexivity.
  - intros comp x Hx Hlt. destruct comp as [|[|[|comp]]]; simpl in Hx; [| | |done];
      injection Hx as <-.
    + rewrite Nat.add_0_r in *. rewrite !list_lookup_insert_ne by lia.
      apply list_lookup_insert_eq. exact Hlt.
    + rewrite list_lookup_insert_ne by lia.
      apply list_lookup_insert_eq. rewrite length_insert. exact Hlt.
    + apply list_lookup_insert_eq. rewrite !length_insert. exact Hlt.
Qed.

Lemma setColorAt_spec (m : InstancedMesh num) (k : nat) (c : Color num) :
  same_buffers m (setColorAt m k c)
  /\ needsUpdate (instanceColor (setColorAt m k c)) = needsUpdate (instanceColor m)
  /\ has_color (setColorAt m k c) k c
  /\ (forall i c', (i < k)%nat -> has_color m i c' -> has_color (setColorAt m k c) i c').
Proof.
  destruct (set_cells (attr_array (instanceColor m)) k (fround (cr c)) (fround (cg c))
              (fround (cb c))) as (Hlen & Hother & Hcells).
  unfold same_buffers, has_color, setColorAt. simpl.
  split; [rewrite Hlen; done|]. split; [reflexivity|]. split.
  - intros comp x Hx Hlt. rewrite Hlen in Hlt. apply Hcells; assumption.
  - intros i c' Hi Hc' comp x Hx Hlt. rewrite Hlen in Hlt.
    assert (comp < 3)%nat by (apply lookup_lt_Some in Hx; exact Hx).
    rewrite Hother by lia. apply Hc'; assumption.
Qed.

(** A loop that colours the instances [0 .. n-1]. *)
Lemma color_loop (n : nat) (col : nat -> Color num) (m : InstancedMesh num)
    (tc : Color num) :
  let m' := fst (for_loop n (fun i st => (setColorAt (fst st) i (col i), col i)) (m, tc)) in
  same_buffers m m'
  /\ needsUpdate (instanceColor m') = needsUpdate (instanceColor m)
  /\ forall i, (i < n)%nat -> has_color m' i (col i).
Proof.
  cbv zeta.
  apply (for_loop_ind
    (fun k st => same_buffers m (fst st)
                 /\ needsUpdate (instanceColor (fst st)) = needsUpdate (instanceColor m)
                 /\ forall i, (i < k)%nat -> has_color (fst st) i (col i))).
  - simpl. split; [apply same_buffers_refl|]. split; [reflexivity|]. intros i Hi. lia.
  - intros k [mk tk] Hk (Hsame & Hdirty & Hcols). simpl in *.
    destruct (setColorAt_spec mk k (col k)) as (Hs & Hd & Hk1 & Hk2).
    split; [eapply same_buffers_trans; eassumption|].
    split; [congruence|].
    intros i Hi. destruct (decide (i = k)) as [->|Hne]; [exact Hk1|].
    apply Hk2; [lia|]. apply Hcols. lia.
Qed.

Lemma applyNodeColors_spec (m : InstancedMesh num) (tc : Color num)
    (values : list num) (scale : num) :
  let m' := fst (applyNodeColors m tc values scale) in
  same_buffers m m'
  /\ needsUpdate (instanceColor m') = true
  /\ forall i v, values !! i = Some v ->
     has_color m' i (node_color v (node_intensity v (safe_scale scale))).
Proof.
  cbv zeta. unfold applyNodeColors.
  pose (col := fun i => node_color (idx values i)
                          (node_intensity (idx values i) (safe_scale scale))).
  rewrite (for_loop_ext _ _ (fun i st => (setColorAt (fst st) i (col i), col i)))
    by (intros i [m0 t0] _; reflexivity).
  destruct (color_loop (length values) col m tc) as (Hsame & Hdirty & Hcols).
  destruct (for_loop _ _ (m, tc)) as [m1 t1]. simpl in *.
  split; [unfold same_buffers in *; simpl; exact Hsame|].
  split; [reflexivity|].
  intros i v Hv. specialize (Hcols i ltac:(eapply lookup_lt_Some; exact Hv)).
  unfold col, idx in Hcols. rewrite Hv in Hcols.
  unfold has_color in *. simpl. exact Hcols.
Qed.

Lemma contributions_of_spec (conns : list (Connection num)) (sourceValues : list num) :
  contributions_of conns sourceValues
  = (map (fun conn => fround (contribution sourceValues conn)) conns,
     max_contribution sourceValues conns).
Proof.
  unfold contributions_of, max_contribution, Float32Array_new.
  set (n := length conns).
  pose (g := fun (index : nat) (connection : Connection num) (st : list num * num) =>
    (<[index := fround (contribution sourceValues connection)]> (fst st),
     if gtb (abs (contribution sourceValues connection)) (snd st)
     then abs (contribution sourceValues connection) else snd st)).
  transitivity (foldl (fun s '(i, x) => g i x s) (replicate n zero, zero) (imap pair conns)).
  { apply foldl_ext_In. intros [c mx] [i x] _. reflexivity. }
  rewrite foldl_imap_pair. fold n.
  assert (Hinv : forall k, (k <= n)%nat ->
    for_loop k (fun i s => match conns !! i with Some x => g i x s | None => s end)
      (replicate n zero, zero)
    = (map (fun conn => fround (contribution sourceValues conn)) (take k conns)
         ++ replicate (n - k) zero,
       foldl (fun m conn =>
                if gtb (abs (contribution sourceValues conn)) m
                then abs (contribution sourceValues conn) else m) zero (take k conns))).
  { induction k as [|k IH]; intros Hk.
    - simpl. rewrite Nat.sub_0_r. reflexivity.
    - rewrite for_loop_S, IH by lia.
      destruct (lookup_lt_is_Some_2 conns k ltac:(unfold n in Hk; lia)) as [c Hc].
      rewrite Hc, (take_S_r conns k c Hc), map_app, foldl_app. unfold g. simpl.
      f_equal.
      replace (n - k)%nat with (Datatypes.S (n - Datatypes.S k)) by lia.
      rewrite insert_app_r_alt by (rewrite length_map, length_take; lia).
      rewrite length_map, length_take.
      replace (k - k `min` length conns)%nat with 0%nat by (unfold n in Hk; lia).
      simpl. rewrite <- app_assoc. reflexivity. }
  rewrite (Hinv n) by lia. unfold n. rewrite Nat.sub_diag, take_ge by lia.
  simpl. rewrite app_nil_r. reflexivity.
Qed.

Lemma applyConnectionColors_spec (group : ConnectionGroup num) (tc : Color num)
    (sourceValues : list num) :
  let group' := fst (applyConnectionColors group tc sourceValues) in
  connections group' = connections group
  /\ sourceLayer group' = sourceLayer group
  /\ maxAbsWeight group' = maxAbsWeight group
  /\ same_buffers (group_mesh group) (group_mesh group')
  /\ needsUpdate (instanceColor (group_mesh group')) = true
  /\ forall i conn, connections group !! i = Some conn ->
     has_color (group_mesh group') i (edge_color sourceValues group conn).
Proof.
  cbv zeta. unfold applyConnectionColors. rewrite contributions_of_spec.
  cbv beta iota zeta.
  set (contributions := map (fun conn => fround (contribution sourceValues conn))
                          (connections group)).
  set (scale := connection_scale (max_contribution sourceValues (connections group))
                  (maxAbsWeight group)).
  pose (col := fun i => connection_color (idx contributions i)
                          (fmin one (abs (idx contributions i) ⊘ scale))).
  pose (g := fun (index : nat) (_ : Connection num) (st : InstancedMesh num * Color num) =>
               (setColorAt (fst st) index (col index), col index)).
  match goal with
  | |- context [foldl ?f (group_mesh group, tc) ?l] =>
      assert (Hfold : foldl f (group_mesh group, tc) l
                = for_loop (length (connections group))
                    (fun i st => (setColorAt (fst st) i (col i), col i))
                    (group_mesh group, tc))
  end.
  { transitivity (foldl (fun s '(i, x) => g i x s) (group_mesh group, tc)
                    (imap pair (connections group))).
    { apply foldl_ext_In. intros [m0 t0] [i x] _. reflexivity. }
    rewrite foldl_imap_pair. apply for_loop_ext. intros i st Hi.
    destruct (lookup_lt_is_Some_2 (connections group) i Hi) as [c ->]. reflexivity. }
  rewrite Hfold.
  destruct (color_loop (length (connections group)) col (group_mesh group) tc)
    as (Hsame & Hdirty & Hcols).
  destruct (for_loop _ _ (group_mesh group, tc)) as [m1 t1]. simpl in *.
  split; [reflexivity|]. split; [reflexivity|]. split; [reflexivity|].
  split; [unfold same_buffers in *; simpl; exact Hsame|].
  split; [reflexivity|].
  intros i conn Hconn.
  specialize (Hcols i ltac:(eapply lookup_lt_Some; exact Hconn)).
  unfold has_color in *. simpl.
  unfold col, idx, contributions in Hcols.
  rewrite list_lookup_fmap, Hconn in Hcols. simpl in Hcols. exact Hcols.
Qed.

Lemma update_nodes_spec (this : NetworkVisualizer num)
    (display actual : list (list num)) :
  activations_present this display actual ->
  exists this1,
    forEachM (layerMeshes this)
      (fun layer layerIndex this =>
         match display !! layerIndex with
         | None => Ok this
         | Some values =>
             scale ← node_scale layerIndex actual;
             let '(m, tc) :=
               applyNodeColors (mesh layer) (tempColor this) values (or_else scale one) in
             Ok (set_layerMesh this layerIndex m tc)
         end) this = Ok this1
    /\ mlp this1 = mlp this /\ options this1 = options this
    /\ connectionGroups this1 = connectionGroups this
    /\ length (layerMeshes this1) = length (layerMeshes this)
    /\ forall L layer, layerMeshes this !! L = Some layer ->
       exists layer', layerMeshes this1 !! L = Some layer'
                      /\ layer_recolored display actual L layer layer'.
Proof.
  intros Hpresent. rewrite forEachM_for_loopM.
  destruct (for_loopM_ind
    (fun k s =>
       mlp s = mlp this /\ options s = options this
       /\ connectionGroups s = connectionGroups this
       /\ length (layerMeshes s) = length (layerMeshes this)
       /\ (forall L, (k <= L)%nat -> layerMeshes s !! L = layerMeshes this !! L)
       /\ (forall L layer, (L < k)%nat -> layerMeshes this !! L = Some layer ->
           exists layer', layerMeshes s !! L = Some layer'
                          /\ layer_recolored display actual L layer layer'))
    (length (layerMeshes this))
    (fun i s => match layerMeshes this !! i with
                | Some layer =>
                    match display !! i with
                    | None => Ok s
                    | Some values =>
                        scale ← node_scale i actual;
                        let '(m, tc) :=
                          applyNodeColors (mesh layer) (tempColor s) values
                            (or_else scale one) in
                        Ok (set_layerMesh s i m tc)
                    end
                | None => Ok s
                end)
    this) as (this1 & Hrun & Hm & Ho & Hg & Hlen & _ & Hpost).
  - repeat split; try reflexivity. intros L layer HL. lia.
  - intros i s Hi (Hm & Ho & Hg & Hlen & Hrest & Hdone).
    destruct (lookup_lt_is_Some_2 (layerMeshes this) i Hi) as [layer Hlayer].
    rewrite Hlayer.
    destruct (display !! i) as [values|] eqn:Hdisp.
    + assert (Hscale : exists scale, node_scale i actual = Ok scale).
      { unfold node_scale. destruct (Nat.eqb_spec i 0) as [->|Hne]; [eauto|].
        destruct (Hpresent i Hne Hi ltac:(rewrite Hdisp; eauto)) as [a ->]. eauto. }
      destruct Hscale as [scale Hscale]. rewrite Hscale. simpl.
      pose proof (applyNodeColors_spec (mesh layer) (tempColor s) values
                    (or_else scale one)) as Hcol. cbv zeta in Hcol.
      destruct (applyNodeColors (mesh layer) (tempColor s) values (or_else scale one))
        as [m tc]. simpl in Hcol. destruct Hcol as (Hsame & Hdirty & Hcols).
      eexists. split; [reflexivity|]. simpl.
      split; [exact Hm|]. split; [exact Ho|]. split; [exact Hg|].
      split; [rewrite length_alter; exact Hlen|]. split.
      * intros L HL. rewrite list_lookup_alter_ne by lia. apply Hrest. lia.
      * intros L layer0 HL Hlayer0. destruct (decide (L = i)) as [->|Hne].
        -- rewrite list_lookup_alter_eq, (Hrest i) by lia. rewrite Hlayer. simpl.
           assert (layer0 = layer) as -> by congruence.
           eexists. split; [reflexivity|]. unfold layer_recolored. simpl.
           split; [reflexivity|]. split; [exact Hsame|].
           split; [intros Hnone; congruence|].
           intros values0 Hvalues0. assert (values0 = values) as -> by congruence.
           split; [exact Hdirty|]. exists scale. split; [exact Hscale|]. exact Hcols.
        -- rewrite list_lookup_alter_ne by lia. apply Hdone; [lia|exact Hlayer0].
    + exists s. split; [reflexivity|].
      split; [exact Hm|]. split; [exact Ho|]. split; [exact Hg|].
      split; [exact Hlen|]. split.
      * intros L HL. apply Hrest. lia.
      * intros L layer0 HL Hlayer0. destruct (decide (L = i)) as [->|Hne].
        -- rewrite (Hrest i) by lia. exists layer0. split; [exact Hlayer0|].
           unfold layer_recolored. split; [reflexivity|].
           split; [apply same_buffers_refl|]. split; [reflexivity|].
           intros values Hvalues. congruence.
        -- apply Hdone; [lia|exact Hlayer0].
  - exists this1. split; [exact Hrun|]. repeat (split; [assumption|]).
    intros L layer HL. apply Hpost; [|exact HL]. eapply lookup_lt_Some. exact HL.
Qed.

Lemma update_groups_spec (this : NetworkVisualizer num) (actual : list (list num)) :
  exists this2,
    forEachM (connectionGroups this)
      (fun group groupIndex this =>
         match actual !! sourceLayer group with
         | None => Ok this
         | Some sourceValues =>
             let '(g, tc) := applyConnectionColors group (tempColor this) sourceValues in
             Ok (set_group this groupIndex g tc)
         end) this = Ok this2
    /\ mlp this2 = mlp this /\ options this2 = options this
    /\ layerMeshes this2 = layerMeshes this
    /\ length (connectionGroups this2) = length (connectionGroups this)
    /\ forall G group, connectionGroups this !! G = Some group ->
       exists group', connectionGroups this2 !! G = Some group'
                      /\ group_recolored actual group group'.
Proof.
  rewrite forEachM_for_loopM.
  destruct (for_loopM_ind
    (fun k s =>
       mlp s = mlp this /\ options s = options this
       /\ layerMeshes s = layerMeshes this
       /\ length (connectionGroups s) = length (connectionGroups this)
       /\ (forall G, (k <= G)%nat -> connectionGroups s !! G = connectionGroups this !! G)
       /\ (forall G group, (G < k)%nat -> connectionGroups this !! G = Some group ->
           exists group', connectionGroups s !! G = Some group'
                          /\ group_recolored actual group group'))
    (length (connectionGroups this))
    (fun i s => match connectionGroups this !! i with
                | Some group =>
                    match actual !! sourceLayer group with
                    | None => Ok s
                    | Some sourceValues =>
                        let '(g, tc) :=
                          applyConnectionColors group (tempColor s) sourceValues in
                        Ok (set_group s i g tc)
                    end
                | None => Ok s
                end)
    this) as (this2 & Hrun & Hm & Ho & Hl & Hlen & _ & Hpost).
  - repeat split; try reflexivity. intros G group HG. lia.
  - intros i s Hi (Hm & Ho & Hl & Hlen & Hrest & Hdone).
    destruct (lookup_lt_is_Some_2 (connectionGroups this) i Hi) as [group Hgroup].
    rewrite Hgroup.
    destruct (actual !! sourceLayer group) as [sourceValues|] eqn:Hact.
    + pose proof (applyConnectionColors_spec group (tempColor s) sourceValues) as Hcol.
      cbv zeta in Hcol.
      destruct (applyConnectionColors group (tempColor s) sourceValues) as [g tc].
      simpl in Hcol. destruct Hcol as (Hc & Hs & Hw & Hsame & Hdirty & Hcols).
      eexists. split; [reflexivity|]. simpl.
      split; [exact Hm|]. split; [exact Ho|]. split; [exact Hl|].
      split; [rewrite length_insert; exact Hlen|]. split.
      { intros G HG. rewrite list_lookup_insert_ne by lia. apply Hrest. lia. }
      intros G group0 HG Hgroup0. destruct (decide (G = i)) as [->|Hne].
      * rewrite list_lookup_insert_eq by lia.
        assert (group0 = group) as -> by congruence.
        eexists. split; [reflexivity|]. unfold group_recolored.
        split; [exact Hc|]. split; [exact Hs|]. split; [exact Hw|].
        split; [exact Hsame|]. split; [intros Hnone; congruence|].
        intros sv Hsv. assert (sv = sourceValues) as -> by congruence.
        split; [exact Hdirty|exact Hcols].
      * rewrite list_lookup_insert_ne by lia. apply Hdone; [lia|exact Hgroup0].
    + exists s. split; [reflexivity|].
      split; [exact Hm|]. split; [exact Ho|]. split; [exact Hl|].
      split; [exact Hlen|]. split.
      { intros G HG. apply Hrest. lia. }
      intros G group0 HG Hgroup0. destruct (decide (G = i)) as [->|Hne].
      * assert (group0 = group) as -> by congruence.
        rewrite (Hrest i) by lia. exists group. split; [exact Hgroup|].
        unfold group_recolored. repeat (split; [reflexivity|]).
        split; [apply same_buffers_refl|]. split; [reflexivity|].
        intros sv Hsv. congruence.
      * apply Hdone; [lia|exact Hgroup0].
  - exists this2. split; [exact Hrun|]. repeat (split; [assumption|]).
    intros G group HG. apply Hpost; [|exact HG]. eapply lookup_lt_Some. exact HG.
Qed.

(** [update] returns, and recolours every layer and every group. *)
Lemma update_spec (this : NetworkVisualizer num) (display actual : list (list num)) :
  activations_present this display actual ->
  exists this',
    update this display actual = Ok this'
    /\ mlp this' = mlp this /\ options this' = options this
    /\ length (layerMeshes this') = length (layerMeshes this)
    /\ length (connectionGroups this') = length (connectionGroups this)
    /\ (forall L layer, layerMeshes this !! L = Some layer ->
        exists layer', layerMeshes this' !! L = Some layer'
                       /\ layer_recolored display actual L layer layer')
    /\ (forall G group, connectionGroups this !! G = Some group ->
        exists group', connectionGroups this' !! G = Some group'
                       /\ group_recolored actual group group').
Proof.
  intros Hpresent. unfold update.
  destruct (update_nodes_spec this display actual Hpresent)
    as (this1 & Hrun1 & Hm1 & Ho1 & Hg1 & Hlen1 & Hpost1).
  rewrite Hrun1. simpl.
  destruct (update_groups_spec this1 actual)
    as (this2 & Hrun2 & Hm2 & Ho2 & Hl2 & Hlen2 & Hpost2).
  exists this2. split; [exact Hrun2|].
  split; [congruence|]. split; [congruence|]. split; [congruence|].
  split; [congruence|]. split.
  - intros L layer HL. rewrite Hl2. apply Hpost1. exact HL.
  - intros G group HG. apply Hpost2. rewrite Hg1. exact HG.
Qed.

(** ** Claim C7 *)

(** C7.  A call of [update] whose activation lists cover the layers
    returns, and changes nothing but colour arrays and their dirty
    flags: every mesh keeps its geometry, material, instance count,
    transform attribute and the size of its colour array, the positions
    and the connections stay as built; a recoloured mesh is flagged
    dirty; and connection [i] of a group gets the colour of its
    contribution (source activation times edge weight), scaled by the
    largest magnitude of a contribution of the frame when that is above
    1e-6 and by the group's [maxAbsWeight] (or 1 when that is 0)
    otherwise. *)
Theorem update_writes_colors_only (this : NetworkVisualizer num)
    (display actual : list (list num)) :
  activations_present this display actual ->
  exists this',
    update this display actual = Ok this'
    /\ mlp this' = mlp this /\ options this' = options this
    /\ length (layerMeshes this') = length (layerMeshes this)
    /\ length (connectionGroups this') = length (connectionGroups this)
    /\ (forall L layer, layerMeshes this !! L = Some layer ->
        exists layer',
          layerMeshes this' !! L = Some layer'
          /\ positions layer' = positions layer
          /\ same_buffers (mesh layer) (mesh layer')
          /\ (is_Some (display !! L) ->
              needsUpdate (instanceColor (mesh layer')) = true))
    /\ (forall G group, connectionGroups this !! G = Some group ->
        exists group',
          connectionGroups this' !! G = Some group'
          /\ connections group' = connections group
          /\ sourceLayer group' = sourceLayer group
          /\ maxAbsWeight group' = maxAbsWeight group
          /\ same_buffers (group_mesh group) (group_mesh group')
          /\ forall sourceValues, actual !! sourceLayer group = Some sourceValues ->
             needsUpdate (instanceColor (group_mesh group')) = true
             /\ forall i conn, connections group !! i = Some conn ->
                has_color (group_mesh group') i
                  (let value := fround (contribution sourceValues conn) in
                   let maxContribution :=
                     max_contribution sourceValues (connections group) in
                   let scale :=
                     if gtb maxContribution (lit (1 # 1000000)) then maxContribution
                     else or_else (maxAbsWeight group) one in
                   connection_color value (fmin one (abs value ⊘ scale)))).
Proof.
  intros Hpresent.
  destruct (update_spec this display actual Hpresent)
    as (this' & Hrun & Hm & Ho & Hll & Hlg & Hlayers & Hgroups).
  exists this'. split; [exact Hrun|]. split; [exact Hm|]. split; [exact Ho|].
  split; [exact Hll|]. split; [exact Hlg|]. split.
  - intros L layer HL. destruct (Hlayers L layer HL) as (layer' & Hl' & Hp & Hs & _ & Hv).
    exists layer'. split; [exact Hl'|]. split; [exact Hp|]. split; [exact Hs|].
    intros [values Hvalues]. apply (Hv values Hvalues).
  - intros G group HG.
    destruct (Hgroups G group HG) as (group' & Hg' & Hc & Hs & Hw & Hsame & _ & Hv).
    exists group'. split; [exact Hg'|]. split; [exact Hc|]. split; [exact Hs|].
    split; [exact Hw|]. split; [exact Hsame|]. exact Hv.
Qed.

End UpdateProofs.

(** An update of the demo scene. *)
Lemma update_writes_colors_only_witness :
  activations_present demo_vis [[lit 1; lit 1]; [lit 0; lit 7]]
    [[lit 1; lit 1]; [lit 0; lit 7]]
  /\ exists this',
      update demo_vis [[lit 1; lit 1]; [lit 0; lit 7]] [[lit 1; lit 1]; [lit 0; lit 7]]
      = Ok this'
      /\ length (layerMeshes this') = 2%nat.
Proof.
  assert (Hp : activations_present demo_vis [[lit 1; lit 1]; [lit 0; lit 7]]
                 [[lit 1; lit 1]; [lit 0; lit 7]]).
  { intros L _ _ HL. exact HL. }
  split; [exact Hp|].
  destruct (update_writes_colors_only demo_vis _ _ Hp) as (this' & Hrun & _ & _ & Hl & _).
  exists this'. split; [exact Hrun|exact Hl].
Defined.

(** ** Claim C6 *)

Lemma xq_effective_scale (m : xq) :
  safe_scale (or_else m one)
  = if gtb m (lit (1 # 1000000)) then m else one.
Proof.
  destruct m as [q| | |]; try reflexivity.
  unfold or_else, truthy.
  destruct (eqb (Fin q) (zero : xq)) eqn:Hz; simpl negb; cbn [andb].
  - apply xq_eqb_Fin in Hz.
    assert (Hng : gtb (Fin q : xq) (lit (1 # 1000000)) = false).
    { simpl. unfold ext_gtb. simpl. rewrite Hz. reflexivity. }
    rewrite Hng. reflexivity.
  - assert (Hrefl : eqb (Fin q : xq) (Fin q) = true) by (apply xq_eqb_Fin; reflexivity).
    rewrite Hrefl. reflexivity.
Qed.

(** C6 as stated fails for the input layer: with the display value 0.5
    and the actual activation 0.5 in layer 0, the neuron is coloured with
    the intensity 0.5 / 1, not 0.5 / 0.5. *)
Lemma input_layer_scale_is_one :
  exists this' layer',
    update input_vis [[lit (1 # 2)]] [[lit (1 # 2)]] = Ok this'
    /\ layerMeshes this' !! 0%nat = Some layer'
    /\ attr_array (instanceColor (mesh layer'))
       = color_cells (node_color (lit (1 # 2)) (node_intensity (lit (1 # 2)) one))
    /\ attr_array (instanceColor (mesh layer'))
       <> color_cells
            (node_color (lit (1 # 2))
               (node_intensity (lit (1 # 2))
                  (safe_scale (maxAbsValue [lit (1 # 2)])))).
Proof.
  eexists. eexists. split; [vm_compute; reflexivity|]. split; [reflexivity|].
  split; [vm_compute; reflexivity|]. vm_compute. discriminate.
Qed.

(** C6, as the code has it.  For a layer of index at least 1, a neuron
    is coloured with the intensity [min(1, |display value| / s)], where
    [s] is the largest magnitude of the layer's actual activations when
    that is above 1e-6 and 1 otherwise; for the input layer (index 0)
    the scale [s] is the constant 1. *)
Theorem node_colors_scaled (this : NetworkVisualizer xq)
    (display actual : list (list xq)) :
  activations_present this display actual ->
  exists this',
    update this display actual = Ok this'
    /\ forall L layer values,
         layerMeshes this !! L = Some layer -> display !! L = Some values ->
         exists layer' scale,
           layerMeshes this' !! L = Some layer'
           /\ (L = 0%nat -> scale = one)
           /\ (L <> 0%nat ->
               exists a, actual !! L = Some a
                 /\ scale = if gtb (maxAbsValue a) (lit (1 # 1000000))
                            then maxAbsValue a else one)
           /\ forall i v, values !! i = Some v ->
              has_color (mesh layer') i (node_color v (fmin one (abs v ⊘ scale))).
Proof.
  intros Hpresent.
  destruct (update_spec this display actual Hpresent)
    as (this' & Hrun & _ & _ & _ & _ & Hlayers & _).
  exists this'. split; [exact Hrun|].
  intros L layer values HL Hvalues.
  destruct (Hlayers L layer HL) as (layer' & Hl' & _ & _ & _ & Hv).
  destruct (Hv values Hvalues) as (_ & scale & Hscale & Hcols).
  exists layer'. unfold node_scale in Hscale.
  destruct (Nat.eqb_spec L 0) as [->|Hne].
  - injection Hscale as <-. exists one. split; [exact Hl'|].
    split; [reflexivity|]. split; [done|]. exact Hcols.
  - destruct (actual !! L) as [a|] eqn:Ha; [|discriminate]. injection Hscale as <-.
    exists (if gtb (maxAbsValue a) (lit (1 # 1000000)) then maxAbsValue a else one).
    split; [exact Hl'|]. split; [done|]. split; [intros _; exists a; done|].
    intros i v Hi. specialize (Hcols i v Hi). unfold neuron_color in Hcols.
    rewrite xq_effective_scale in Hcols. exact Hcols.
Qed.

(** The node colours of the demo scene. *)
Lemma node_colors_scaled_witness :
  activations_present demo_vis [[lit 1; lit 1]; [lit 0; lit 7]]
    [[lit 1; lit 1]; [lit 0; lit 7]]
  /\ exists this',
      update demo_vis [[lit 1; lit 1]; [lit 0; lit 7]] [[lit 1; lit 1]; [lit 0; lit 7]]
      = Ok this'.
Proof.
  assert (Hp : activations_present demo_vis [[lit 1; lit 1]; [lit 0; lit 7]]
                 [[lit 1; lit 1]; [lit 0; lit 7]]).
  { intros L _ _ HL. exact HL. }
  split; [exact Hp|].
  destruct (node_colors_scaled demo_vis _ _ Hp) as (this' & Hrun & _).
  exists this'. exact Hrun.
Defined.

(** ** Claim C8: computeLayerPositions *)

Lemma ceil_div_covers (n c : nat) : (0 < c)%nat -> (n <= ceil_div n c * c)%nat.
Proof.
  intros Hc. unfold ceil_div.
  pose proof (Nat.div_mod_eq n c) as Hdm.
  pose proof (Nat.mod_upper_bound n c ltac:(lia)) as Hmod.
  destruct (Nat.eqb_spec (n mod c) 0) as [Hz|Hnz]; nia.
Qed.

Lemma ceil_sqrt_pos (n : nat) : (0 < n)%nat -> (0 < ceil_sqrt n)%nat.
Proof.
  intros Hn. unfold ceil_sqrt.
  destruct (Nat.eqb_spec (Nat.sqrt n * Nat.sqrt n) n) as [Heq|Hne]; [|lia].
  destruct (Nat.sqrt n); simpl in *; lia.
Qed.

Section LayoutProofs.
Context {num : Type} `{!Arith num}.

(** One row of the input grid: [cols] more positions, up to
    [neuronCount]. *)
Lemma input_row_filled (n cols : nat) (mk : nat -> Vector3 num)
    (st : list (Vector3 num) * nat) :
  snd st = length (fst st) ->
  let st' := for_loop cols
               (fun col '(positions, filled) =>
                  if (filled <? n)%nat then (positions ++ [mk col], S filled)
                  else (positions, filled)) st in
  snd st' = length (fst st') /\ (snd st' = Nat.min n (snd st + cols) \/ (n < snd st)%nat /\ snd st' = snd st).
Proof.
  intros Hlen. cbv zeta.
  apply (for_loop_ind
    (fun c st' => snd st' = length (fst st')
                  /\ (snd st' = Nat.min n (snd st + c)
                      \/ (n < snd st)%nat /\ snd st' = snd st))).
  - split; [exact Hlen|]. destruct (le_lt_dec (snd st) n); [left|right]; lia.
  - intros c [positions filled] Hc [Hl Hf]. simpl in *.
    destruct (Nat.ltb_spec filled n) as [Hlt|Hge]; simpl.
    + split; [rewrite length_app; simpl; lia|]. left. lia.
    + split; [exact Hl|]. destruct Hf as [Hf|Hf]; [left|right]; lia.
Qed.

Lemma input_positions_length (spacing layerX : num) (n : nat) :
  length (input_positions spacing layerX n) = n.
Proof.
  unfold input_positions.
  set (rc := if (n =? 28 * 28)%nat then (Some 28%nat, 28%nat)
             else (if (ceil_sqrt n =? 0)%nat then None
                   else Some (ceil_div n (ceil_sqrt n)), ceil_sqrt n)).
  assert (Hrc : match rc with
                | (Some rows, cols) => (n <= rows * cols)%nat
                | (None, _) => n = 0%nat
                end).
  { unfold rc. destruct (Nat.eqb_spec n (28 * 28)) as [Heq|Hne]; [lia|].
    destruct (Nat.eqb_spec (ceil_sqrt n) 0) as [Hz|Hnz].
    - destruct n; [reflexivity|]. pose proof (ceil_sqrt_pos (S n) ltac:(lia)). lia.
    - apply ceil_div_covers. lia. }
  clearbody rc. destruct rc as [[rows|] cols]; [|rewrite Hrc; reflexivity].
  match goal with
  | |- length (fst (for_loop rows ?body ?init)) = n =>
      assert (Hinv : snd (for_loop rows body init) = length (fst (for_loop rows body init))
                     /\ snd (for_loop rows body init) = Nat.min n (rows * cols))
  end.
  { apply (for_loop_ind
      (fun r st => snd st = length (fst st) /\ snd st = Nat.min n (r * cols))).
    - simpl. split; [reflexivity|lia].
    - intros r st Hr [Hl Hf].
      destruct (Nat.ltb_spec (snd st) n) as [Hlt|Hge].
      + match goal with
        | |- context [for_loop cols ?inner st] =>
            pose proof (input_row_filled n cols
                          (fun col => grid_position spacing
                             ((count_num (Some rows) ⊖ one) ⊗ spacing)
                             ((of_nat cols ⊖ one) ⊗ spacing) layerX r col) st Hl) as Hrow
        end.
        cbv zeta in Hrow. destruct Hrow as [Hl' Hf'].
        split; [exact Hl'|]. destruct Hf' as [Hf'|[Hbad _]]; [|lia].
        rewrite Hf'. lia.
      + split; [exact Hl|]. lia. }
  destruct Hinv as [Hl Hf]. rewrite <- Hl, Hf. lia.
Qed.

Lemma hidden_positions_length (spacing layerX : num) (n : nat) :
  length (hidden_positions spacing layerX n) = n.
Proof.
  unfold hidden_positions. cbv zeta.
  rewrite (push_loop
    (fun index =>
       grid_position spacing
         ((of_nat (ceil_div n (Nat.max 1 (ceil_sqrt n))) ⊖ one) ⊗ spacing)
         ((of_nat (Nat.max 1 (ceil_sqrt n)) ⊖ one) ⊗ spacing) layerX
         (index / Nat.max 1 (ceil_sqrt n)) (index mod Nat.max 1 (ceil_sqrt n)))).
  simpl. rewrite length_map, length_seq. reflexivity.
Qed.

(** C8.  [computeLayerPositions] returns exactly [neuronCount]
    positions, for every layer index and every count; and the positions
    are determined by the layer index, the count, the offset [layerX] and
    the two configured spacings: two visualisers that agree on these
    spacings compute the same coordinates, whatever their networks'
    weights and whatever else their state holds. *)
Theorem layout_length_and_purity (this : NetworkVisualizer num)
    (layerIndex neuronCount : nat) (layerX : num) :
  length (computeLayerPositions this layerIndex neuronCount layerX) = neuronCount
  /\ forall other : NetworkVisualizer num,
       inputSpacing (options other) = inputSpacing (options this) ->
       hiddenSpacing (options other) = hiddenSpacing (options this) ->
       computeLayerPositions other layerIndex neuronCount layerX
       = computeLayerPositions this layerIndex neuronCount layerX.
Proof.
  unfold computeLayerPositions. split.
  - destruct (layerIndex =? 0)%nat;
      [apply input_positions_length|apply hidden_positions_length].
  - intros other Hin Hhid. rewrite Hin, Hhid. reflexivity.
Qed.

End LayoutProofs.

(** ** Claim C4: softmax *)

Lemma Rcmp_Lt (a b : R) : Rcmp a b = Lt <-> (a < b)%R.
Proof.
  unfold Rcmp. destruct (total_order_T a b) as [[Hlt|Heq]|Hgt]; split; intros Hx;
    try done; lra.
Qed.

Lemma Rcmp_Eq (a b : R) : Rcmp a b = Eq <-> a = b.
Proof.
  unfold Rcmp. destruct (total_order_T a b) as [[Hlt|Heq]|Hgt]; split; intros Hx;
    try done; lra.
Qed.

Lemma xr_zero : (zero : xr) = Fin 0%R.
Proof. unfold zero. simpl. rewrite RMicromega.Q2R_0. reflexivity. Qed.

(** [Math.max(...values)] on finite values is their maximum. *)
Lemma xr_max_fold (rs : list R) (a : R) :
  exists m, foldl fmax (Fin a : xr) (map Fin rs) = Fin m
            /\ (m = a \/ In m rs) /\ (a <= m)%R /\ forall r, In r rs -> (r <= m)%R.
Proof.
  revert a. induction rs as [|r rs IH]; intros a.
  - exists a. simpl. split; [reflexivity|]. split; [left; reflexivity|].
    split; [lra|]. intros r [].
  - simpl. unfold ext_max. simpl.
    destruct (Rcmp a r) eqn:Hc.
    + apply Rcmp_Eq in Hc. subst r. destruct (IH a) as (m & Hm & Hin & Hle & Hall).
      exists m. split; [exact Hm|]. split; [tauto|]. split; [exact Hle|].
      intros r [<-|Hr]; [exact Hle|apply Hall; exact Hr].
    + apply Rcmp_Lt in Hc. destruct (IH r) as (m & Hm & Hin & Hle & Hall).
      exists m. split; [exact Hm|]. split; [right; destruct Hin as [->|Hin]; tauto|].
      split; [lra|]. intros r' [<-|Hr]; [exact Hle|apply Hall; exact Hr].
    + assert (Hgt : (r < a)%R).
      { unfold Rcmp in Hc. destruct (total_order_T a r) as [[?|?]|?]; try done. }
      destruct (IH a) as (m & Hm & Hin & Hle & Hall).
      exists m. split; [exact Hm|]. split; [tauto|]. split; [exact Hle|].
      intros r' [<-|Hr]; [lra|apply Hall; exact Hr].
Qed.

Lemma xr_max (rs : list R) :
  rs <> [] ->
  exists m, foldl fmax (neg_infinity : xr) (map Fin rs) = Fin m
            /\ In m rs /\ forall r, In r rs -> (r <= m)%R.
Proof.
  destruct rs as [|r rs]; [done|]. intros _. simpl.
  destruct (xr_max_fold rs r) as (m & Hm & Hin & Hle & Hall).
  exists m. split; [exact Hm|]. split; [destruct Hin as [->|Hin]; tauto|].
  intros r' [<-|Hr]; [exact Hle|apply Hall; exact Hr].
Qed.

Lemma xr_sum_fold (xs : list R) (a : R) :
  foldl (fun acc value => acc ⊕ value) (Fin a : xr) (map Fin xs) = Fin (a + Rsum xs)%R.
Proof.
  revert a. induction xs as [|x xs IH]; intros a; simpl.
  - f_equal. lra.
  - rewrite IH. f_equal. lra.
Qed.


Lemma Rsum_nonneg (xs : list R) : (forall x, In x xs -> (0 <= x)%R) -> (0 <= Rsum xs)%R.
Proof.
  induction xs as [|x xs IH]; intros Hx; simpl; [lra|].
  pose proof (Hx x ltac:(left; reflexivity)).
  pose proof (IH ltac:(intros y Hy; apply Hx; right; exact Hy)). lra.
Qed.


(** The vector [softmax] returns on finite values, with [m] their
    maximum. *)
Lemma softmax_finite (e : R -> R) (rs : list R) :
  rs <> [] ->
  exists m,
    In m rs /\ (forall r, In r rs -> (r <= m)%R)
    /\ softmax (exp_of e) (map Fin rs)
       = map (fun r => if Req_dec_T (Rsum (map (fun r => e (r - m)%R) rs)) 0
                       then zero
                       else Fin (e (r - m) / Rsum (map (fun r => e (r - m)%R) rs))%R)
           rs.
Proof.
  intros Hne. destruct (xr_max rs Hne) as (m & Hm & Hin & Hall).
  exists m. split; [exact Hin|]. split; [exact Hall|].
  unfold softmax. destruct rs as [|r0 rs0] eqn:Hrs; [done|]. rewrite <- Hrs in *.
  assert (Hmatch : forall (X : list xr),
            match map Fin (r0 :: rs0) with [] => [] | _ => X end = X) by reflexivity.
  rewrite <- Hrs in Hmatch. rewrite Hmatch. clear Hmatch.
  rewrite Hm.
  assert (Hexps : map (fun value : xr => exp_of e (value ⊖ Fin m)) (map Fin rs)
                  = map Fin (map (fun r => e (r - m)%R) rs)).
  { rewrite !map_map. apply map_ext. intros r. reflexivity. }
  rewrite Hexps, xr_zero, xr_sum_fold, Rplus_0_l.
  set (S := Rsum (map (fun r => e (r - m)%R) rs)).
  rewrite !map_map. apply map_ext. intros r.
  simpl. unfold ext_eqb, ext_div, ksgn, k0. simpl. rewrite RMicromega.Q2R_0.
  destruct (Req_dec_T S 0) as [Hz|Hnz].
  - rewrite (proj2 (Rcmp_Eq S 0) Hz). reflexivity.
  - destruct (Rcmp S 0) eqn:Hc; [apply Rcmp_Eq in Hc; done| |]; reflexivity.
Qed.




(** ** Claim C10: the drawing grid *)

Lemma clamp_in_unit (x : xq) :
  isFinite x = true -> in_unit (fmin one (fmax zero x)).
Proof.
  destruct x as [a| | |]; try done. intros _.
  simpl. unfold ext_min, ext_max. simpl.
  change (Qred 0) with 0%Q. change (Qred 1) with 1%Q.
  destruct (Qcompare 0 a) eqn:H0; simpl.
  - split; [apply Qle_refl|discriminate].
  - destruct (Qcompare 1 a) eqn:H1; simpl.
    + split; discriminate.
    + split; discriminate.
    + apply Qlt_alt in H0. apply Qgt_alt in H1.
      split; apply Qlt_le_weak; assumption.
  - split; [apply Qle_refl|discriminate].
Qed.

Lemma in_unit_add_finite (v d : xq) :
  in_unit v -> isFinite d = true -> isFinite (v ⊕ d) = true.
Proof. destruct v, d; done. Qed.

Section GridProofs.

Lemma deref_insert_eq (st : list (list xq)) (r : nat) (a : list xq) :
  (r < length st)%nat -> deref (<[r := a]> st) r = a.
Proof. intros Hr. unfold deref. rewrite list_lookup_insert_eq by exact Hr. reflexivity. Qed.

Lemma deref_insert_ne (st : list (list xq)) (r r' : nat) (a : list xq) :
  r <> r' -> deref (<[r := a]> st) r' = deref st r'.
Proof. intros Hr. unfold deref. rewrite list_lookup_insert_ne by exact Hr. reflexivity. Qed.

Lemma paintCell_array (w : World xq) (index : nat) (erase : bool) :
  (grid_values (grid w) < length (store w))%nat ->
  let values := deref (store w) (grid_values (grid w)) in
  let delta : xq := if erase then lit (-45 # 100) else lit (55 # 100) in
  grid_values (grid (paintCell w index erase)) = grid_values (grid w)
  /\ grid_rows (grid (paintCell w index erase)) = grid_rows (grid w)
  /\ grid_cols (grid (paintCell w index erase)) = grid_cols (grid w)
  /\ length (store (paintCell w index erase)) = length (store w)
  /\ (forall r, r <> grid_values (grid w) ->
        deref (store (paintCell w index erase)) r = deref (store w) r)
  /\ (deref (store (paintCell w index erase)) (grid_values (grid w)) = values
      \/ exists v, values !! index = Some v
           /\ deref (store (paintCell w index erase)) (grid_values (grid w))
              = <[index := fmin one (fmax zero (v ⊕ delta))]> values).
Proof.
  intros Hg. cbv zeta. unfold paintCell.
  destruct (deref (store w) (grid_values (grid w)) !! index) as [v|] eqn:Hv.
  - unfold idx. rewrite Hv.
    destruct (eqb _ v).
    + repeat (split; [reflexivity|]). left. reflexivity.
    + simpl. split; [reflexivity|]. split; [reflexivity|]. split; [reflexivity|].
      split; [apply length_insert|]. split.
      * intros r Hr. apply deref_insert_ne. congruence.
      * right. exists v. split; [reflexivity|]. apply deref_insert_eq. exact Hg.
  - simpl. repeat (split; [reflexivity|]). left. reflexivity.
Qed.

Lemma step_ok (rows cols : nat) (s : Session xq) (ev : event xq) :
  grid_ok rows cols s -> grid_ok rows cols (step s ev).
Proof.
  intros (Hg & Hh & Hlen & Hunit). unfold grid_ok, grid_array in *.
  assert (Hpaint : forall index erase,
    grid_ok rows cols {| world := paintCell (world s) index erase; handed := handed s |}).
  { intros index erase.
    destruct (paintCell_array (world s) index erase Hg)
      as (Hgv & _ & _ & Hl & Hother & Hsame).
    unfold grid_ok, grid_array. simpl. rewrite Hgv, Hl.
    split; [exact Hg|]. split; [exact Hh|].
    destruct Hsame as [->|(v & Hv & ->)]; [done|].
    split; [rewrite length_insert; exact Hlen|].
    apply Forall_insert; [exact Hunit|].
    apply clamp_in_unit, in_unit_add_finite; [|destruct erase; reflexivity].
    rewrite Forall_forall in Hunit. apply Hunit.
    eapply list_elem_of_lookup_2. exact Hv. }
  destruct ev as [index|index| | | |buffer index v]; simpl.
  - apply Hpaint.
  - apply Hpaint.
  - unfold clear. simpl. rewrite length_insert.
    split; [exact Hg|]. split; [exact Hh|].
    rewrite deref_insert_eq by exact Hg.
    split; [rewrite length_replicate; exact Hlen|].
    apply Forall_replicate. simpl. split; discriminate.
  - simpl. done.
  - unfold getPixels, alloc. simpl. rewrite length_app. simpl.
    split; [lia|]. split.
    + intros r Hr. apply in_app_iff in Hr as [Hr|[<-|[]]].
      * destruct (Hh r Hr). split; [assumption|lia].
      * split; lia.
    + unfold deref in *. rewrite lookup_app_l by exact Hg. done.
  - destruct (handed s !! buffer) as [r|] eqn:Hr; [|done]. simpl.
    destruct (Hh r) as [Hne Hlt].
    { apply list_elem_of_In. eapply list_elem_of_lookup_2. exact Hr. }
    rewrite length_insert. split; [exact Hg|]. split.
    + intros r' Hr'. apply Hh. exact Hr'.
    + rewrite deref_insert_ne by exact Hne. done.
Qed.

Lemma session_new_ok (rows cols : nat) : grid_ok rows cols (session_new rows cols).
Proof.
  unfold grid_ok, grid_array, session_new, DrawingGrid_new, alloc, Float32Array_new.
  simpl. split; [lia|]. split; [intros r []|].
  split; [apply length_replicate|].
  apply Forall_replicate. simpl. split; discriminate.
Qed.

Lemma run_ok (rows cols : nat) (evs : list (event xq)) (s : Session xq) :
  grid_ok rows cols s -> grid_ok rows cols (run evs s).
Proof.
  revert s. induction evs as [|ev evs IH]; intros s Hs; [exact Hs|].
  simpl. apply IH, step_ok, Hs.
Qed.

Lemma paintCell_same (w1 w2 : World xq) (index : nat) (erase : bool) :
  grid w1 = grid w2 ->
  (grid_values (grid w1) < length (store w1))%nat ->
  (grid_values (grid w2) < length (store w2))%nat ->
  length (store w1) = length (store w2) ->
  deref (store w1) (grid_values (grid w1)) = deref (store w2) (grid_values (grid w2)) ->
  grid (paintCell w1 index erase) = grid (paintCell w2 index erase)
  /\ length (store (paintCell w1 index erase)) = length (store (paintCell w2 index erase))
  /\ deref (store (paintCell w1 index erase)) (grid_values (grid w1))
     = deref (store (paintCell w2 index erase)) (grid_values (grid w2)).
Proof.
  intros Hgrid Hg1 Hg2 Hlen Harr.
  destruct w1 as [st1 g1], w2 as [st2 g2]. simpl in *. subst g2.
  unfold paintCell. simpl. rewrite Harr.
  destruct (deref st2 (grid_values g1) !! index) as [v|]; [|simpl; done].
  match goal with |- context [if ?b then _ else _] => destruct b end; [simpl; done|].
  simpl. rewrite !length_insert, !deref_insert_eq by assumption. done.
Qed.

Lemma step_same (rows cols : nat) (s1 s2 : Session xq) (ev : event xq) :
  grid_ok rows cols s1 -> grid_ok rows cols s2 -> same_grid s1 s2 ->
  is_grid_event ev = true -> same_grid (step s1 ev) (step s2 ev).
Proof.
  intros (Hg1 & _) (Hg2 & _) (Hgrid & Hhanded & Hlen & Harr) Hev.
  unfold same_grid, grid_array in *.
  assert (Hpaint : forall index erase,
    same_grid {| world := paintCell (world s1) index erase; handed := handed s1 |}
              {| world := paintCell (world s2) index erase; handed := handed s2 |}).
  { intros index erase.
    destruct (paintCell_same (world s1) (world s2) index erase Hgrid Hg1 Hg2 Hlen Harr)
      as (Hgr & Hl & Ha).
    destruct (paintCell_array (world s1) index erase Hg1) as (Hv1 & _).
    destruct (paintCell_array (world s2) index erase Hg2) as (Hv2 & _).
    unfold same_grid, grid_array. simpl. rewrite Hv1, Hv2.
    split; [exact Hgr|]. split; [exact Hhanded|]. split; [exact Hl|exact Ha]. }
  destruct ev as [index|index| | | |buffer index v]; simpl; [apply Hpaint..| | | |done].
  - unfold clear. simpl. rewrite !length_insert, !deref_insert_eq by assumption.
    rewrite Harr. done.
  - rewrite Hgrid in Harr |- *. done.
  - unfold getPixels, alloc. simpl. rewrite !length_app, Hlen, Hhanded, Harr. simpl.
    split; [exact Hgrid|]. split; [reflexivity|]. split; [reflexivity|].
    unfold deref in *. rewrite !lookup_app_l by assumption. exact Harr.
Qed.

(** A write of the caller into a buffer it was handed is not seen by
    the grid. *)
Lemma caller_write_same (rows cols : nat) (s1 s2 : Session xq) (buffer index : nat) (v : xq) :
  grid_ok rows cols s1 -> same_grid s1 s2 ->
  same_grid (step s1 (CallerWrite buffer index v)) s2.
Proof.
  intros (Hg1 & Hh & _) (Hgrid & Hhanded & Hlen & Harr).
  unfold same_grid, grid_array in *. simpl.
  destruct (handed s1 !! buffer) as [r|] eqn:Hr; [|done]. simpl.
  destruct (Hh r) as [Hne _].
  { apply list_elem_of_In. eapply list_elem_of_lookup_2. exact Hr. }
  rewrite length_insert, deref_insert_ne by exact Hne. done.
Qed.

Lemma run_same (rows cols : nat) (evs : list (event xq)) (s1 s2 : Session xq) :
  grid_ok rows cols s1 -> grid_ok rows cols s2 -> same_grid s1 s2 ->
  same_grid (run evs s1) (run (List.filter is_grid_event evs) s2).
Proof.
  revert s1 s2. induction evs as [|ev evs IH]; intros s1 s2 H1 H2 Hsame; [exact Hsame|].
  simpl. destruct (is_grid_event ev) eqn:Hev.
  - simpl. apply IH; [apply step_ok; exact H1|apply step_ok; exact H2|].
    eapply step_same; eassumption.
  - destruct ev; try discriminate.
    apply IH; [apply step_ok; exact H1|exact H2|].
    eapply caller_write_same; eassumption.
Qed.

(** C10.  From the all-zero buffer, after any sequence of draws,
    erasures, clears, frames, [getPixels] calls and writes of callers
    into the buffers they were handed, the pixel buffer of the grid has
    its [rows * cols] cells and every value in it lies in [0, 1]; the
    grid is in the state it would be in without the callers' writes; and
    [getPixels] returns a new buffer, distinct from the grid's, that
    holds a copy of the pixels, and leaves every existing buffer as it
    is. *)
Theorem grid_values_in_unit (rows cols : nat) (evs : list (event xq)) :
  let s := run evs (session_new rows cols) in
  length (grid_array s) = (rows * cols)%nat
  /\ Forall in_unit (grid_array s)
  /\ grid_view s
     = grid_view (run (List.filter is_grid_event evs) (session_new rows cols))
  /\ (let '(w, r) := getPixels (world s) in
      r = length (store (world s))
      /\ r <> grid_values (grid (world s))
      /\ deref (store w) r = grid_array s
      /\ grid w = grid (world s)
      /\ forall r', (r' < length (store (world s)))%nat ->
           deref (store w) r' = deref (store (world s)) r').
Proof.
  cbv zeta.
  pose proof (run_ok rows cols evs _ (session_new_ok rows cols)) as (Hg & Hh & Hlen & Hunit).
  split; [exact Hlen|]. split; [exact Hunit|]. split.
  - destruct (run_same rows cols evs (session_new rows cols) (session_new rows cols)
                (session_new_ok rows cols) (session_new_ok rows cols))
      as (Hgrid & _ & _ & Harr); [done|].
    unfold grid_view. rewrite Hgrid, Harr. reflexivity.
  - unfold getPixels, alloc. simpl.
    split; [reflexivity|]. split; [lia|]. split.
    + unfold deref at 1. rewrite lookup_app_r, Nat.sub_diag by lia. simpl.
      unfold Float32Array_from. simpl. apply map_id.
    + split; [reflexivity|]. intros r' Hr'. unfold deref.
      rewrite lookup_app_l by exact Hr'. reflexivity.
Qed.

End GridProofs.

(** ** The code on concrete inputs *)

Example forward_demo :
  forward demo_net demo_pixels
  = Ok {| normalizedInput := [Fin 1%Q; Fin 1%Q];
          activations := [[Fin 1%Q; Fin 1%Q]; [Fin 0%Q; Fin 7%Q]; [Fin (-1)%Q]];
          preActivations := [[Fin 0%Q; Fin 7%Q]; [Fin (-1)%Q]] |}.
Proof. vm_compute. reflexivity. Qed.

(** A pixel vector shorter than the rows: the sums are NaN, and ReLU
    turns them into 0. *)
Example forward_short_input :
  (r ← forward demo_net [lit 1]; Ok (preActivations r !! 0%nat, activations r !! 1%nat))
  = Ok (Some [NaN; NaN], Some [Fin 0%Q; Fin 0%Q]).
Proof. vm_compute. reflexivity. Qed.

(** A layer with a bias and no row: [forward] throws. *)
Example forward_missing_row :
  forward {| normalization := {| mean := zero; std := one |};
             architecture := [0%nat; 1%nat];
             layers := [ {| name := "dense_0"; activation := "relu";
                            weights := []; biases := [lit 0 : xq] |} ] |} []
  = Throw (TypeError "Cannot read properties of undefined (reading 'length')").
Proof. vm_compute. reflexivity. Qed.

Example selector_demo :
  selected (findImportantConnections 2 selector_layer)
  = [ {| sourceIndex := 1; targetIndex := 0; weight := Fin (-2)%Q |};
      {| sourceIndex := 3; targetIndex := 0; weight := Fin 2%Q |};
      {| sourceIndex := 1; targetIndex := 1; weight := Fin 3%Q |} ].
Proof. vm_compute. reflexivity. Qed.

Example layout_demo :
  hidden_positions (lit (1 # 2) : xq) zero 3
  = [ {| vx := Fin 0%Q; vy := Fin (1 # 4); vz := Fin (-1 # 4) |};
      {| vx := Fin 0%Q; vy := Fin (1 # 4); vz := Fin (1 # 4) |};
      {| vx := Fin 0%Q; vy := Fin (-1 # 4); vz := Fin (-1 # 4) |} ].
Proof. vm_compute. reflexivity. Qed.

(** Draw twice, erase twice: 0.55, 1, 0.55, 0.1. *)
Example paint_demo :
  grid_array (run [Draw 0; Draw 0; Erase 0; Erase 0] (session_new 1 2))
  = [Fin (1 # 10); Fin 0%Q].
Proof. vm_compute. reflexivity. Qed.

(** * Further properties of the code *)

(** ** MLPNetwork: the derived architecture *)

Section ArchitectureProofs.
Context {num : Type} `{!Arith num}.

Lemma foldl_push {A B : Type} (f : A -> B) (l : list A) (acc : list B) :
  foldl (fun acc x => acc ++ [f x]) acc l = acc ++ map f l.
Proof.
  revert acc. induction l as [|x l IH]; intros acc; simpl.
  - rewrite app_nil_r. reflexivity.
  - rewrite IH, <- app_assoc. reflexivity.
Qed.

Lemma computeArchitecture_spec (first : LayerDef num) (ls : list (LayerDef num)) :
  computeArchitecture (first :: ls)
  = match def_weights first !! 0%nat with Some row => length row | None => 0%nat end
    :: map (fun layer => length (def_biases layer)) (first :: ls).
Proof.
  unfold computeArchitecture.
  rewrite (foldl_push (fun layer : LayerDef num => length (def_biases layer))).
  reflexivity.
Qed.

(** X1.  Without an [architecture] array in the definition, the
    constructor derives one: the length of the first weight row of the
    first layer (0 when it has no row), then the number of biases of
    each layer; so it has one entry more than there are layers and entry
    [i + 1] is the output width of layer [i].  An [architecture] array in
    the definition is taken as it is, whatever the layers are. *)
Theorem derived_architecture (definition : NetworkDef num) (ls : list (LayerDef num)) :
  def_layers definition = Some ls -> ls <> [] ->
  exists net,
    MLPNetwork_new definition = Ok net
    /\ (forall a, def_architecture definition = Some a -> architecture net = a)
    /\ (def_architecture definition = None ->
        length (architecture net) = S (length (layers net))
        /\ architecture net !! 0%nat
           = Some (match ls !! 0%nat with
                   | Some first =>
                       match def_weights first !! 0%nat with
                       | Some row => length row
                       | None => 0%nat
                       end
                   | None => 0%nat
                   end)
        /\ forall i layer, layers net !! i = Some layer ->
             architecture net !! S i = Some (length (biases layer))).
Proof.
  intros Hls Hne. destruct ls as [|first rest]; [done|].
  eexists. split; [unfold MLPNetwork_new; rewrite Hls; reflexivity|].
  cbn [architecture layers].
  split; [intros a ->; reflexivity|].
  intros Hnone. rewrite Hnone, computeArchitecture_spec.
  split; [cbn [length]; rewrite length_imap, length_map; reflexivity|].
  split; [reflexivity|].
  intros i layer Hi. change ((?x :: ?l) !! S i) with (l !! i).
  rewrite list_lookup_imap in Hi.
  destruct ((first :: rest) !! i) as [ld|] eqn:Hld; simpl in Hi; [|done].
  injection Hi as <-. rewrite list_lookup_fmap, Hld. simpl.
  unfold Float32Array_from. rewrite length_map. reflexivity.
Qed.

End ArchitectureProofs.

(** The derived architecture of the demo network. *)
Lemma derived_architecture_witness :
  def_layers demo_def = Some demo_layers
  /\ demo_layers <> []
  /\ exists net, MLPNetwork_new demo_def = Ok net
                 /\ length (architecture net) = S (length (layers net)).
Proof.
  split; [reflexivity|]. split; [discriminate|].
  destruct (derived_architecture demo_def demo_layers eq_refl ltac:(discriminate))
    as (net & Hnet & _ & Hnone).
  exists net. split; [exact Hnet|]. apply Hnone. reflexivity.
Defined.

(** ** MLPNetwork.forward: when it throws *)

(** X2.  [forward] returns exactly when every layer has a weight row
    for each of its biases, whatever the pixels are; otherwise it throws
    a TypeError, at the first neuron without a row. *)
Theorem forward_returns_iff {num : Type} `{!Arith num} (net : MLPNetwork num)
    (pixels : list num) :
  (one_row_per_neuron net <-> exists r, forward net pixels = Ok r)
  /\ (~ one_row_per_neuron net <-> exists msg, forward net pixels = Throw (TypeError msg)).
Proof.
  assert (Hdec : one_row_per_neuron net
                 \/ Exists (fun layer : Layer num =>
                              (length (weights layer) < length (biases layer))%nat)
                      (layers net)).
  { unfold one_row_per_neuron.
    destruct (Forall_Exists_dec
                (fun layer : Layer num => (length (biases layer) <= length (weights layer))%nat)
                (fun layer : Layer num => (length (weights layer) < length (biases layer))%nat)
                (fun layer => le_lt_dec _ _) (layers net)); [left|right]; assumption. }
  assert (Hthrow : Exists (fun layer : Layer num =>
                             (length (weights layer) < length (biases layer))%nat)
                     (layers net) ->
                   exists msg, forward net pixels = Throw (TypeError msg)).
  { intros Hex. unfold forward.
    destruct (forward_fold_throws (layers net)
                ([normalize (normalization net) pixels], [],
                 normalize (normalization net) pixels) Hex) as [msg ->].
    exists msg. reflexivity. }
  split; split.
  - intros Hrows. eexists. apply forward_spec. exact Hrows.
  - intros [r Hr]. eapply forward_Ok_rows. exact Hr.
  - intros Hnot. destruct Hdec as [Hrows|Hex]; [done|]. apply Hthrow, Hex.
  - intros [msg Hmsg] Hrows. rewrite (forward_spec net pixels Hrows) in Hmsg. discriminate.
Qed.

(** ** Order facts of the extended rationals, continued *)

Lemma xq_leb_trans (x y z : xq) : leb x y = true -> leb y z = true -> leb x z = true.
Proof.
  destruct x as [a| | |], y as [b| | |], z as [c| | |]; simpl; unfold ext_leb; simpl;
    try done.
  intros Hab Hbc.
  assert (Hle1 : (a <= b)%Q) by (apply Qle_alt; destruct (Qcompare a b); done).
  assert (Hle2 : (b <= c)%Q) by (apply Qle_alt; destruct (Qcompare b c); done).
  pose proof (proj1 (Qle_alt a c) (Qle_trans _ _ _ Hle1 Hle2)) as Hle.
  destruct (Qcompare a c); congruence.
Qed.

Lemma xq_not_gtb_leb (x y : xq) :
  x <> NaN -> y <> NaN -> gtb x y = false -> leb x y = true.
Proof.
  destruct x as [a| | |], y as [b| | |]; simpl; unfold ext_leb, ext_gtb; simpl; try done.
  destruct (Qcompare a b); done.
Qed.

Lemma xq_gtb_leb (x y : xq) : gtb x y = true -> leb y x = true.
Proof.
  destruct x as [a| | |], y as [b| | |]; simpl; unfold ext_leb, ext_gtb; simpl; try done.
  rewrite <- (Qcompare_antisym a b).
  destruct (Qcompare a b); done.
Qed.

Lemma xq_gtb_geb (x y : xq) : gtb x y = true -> geb x y = true.
Proof.
  simpl. unfold ext_gtb, ext_geb. destruct (ext_cmp x y) as [[]|]; done.
Qed.

Lemma xq_leb_refl (x : xq) : x <> NaN -> leb x x = true.
Proof.
  destruct x as [a| | |]; simpl; unfold ext_leb; simpl; try done.
  intros _. rewrite (proj1 (Qeq_alt a a) (Qeq_refl a)). reflexivity.
Qed.

Lemma xq_geb_zero_zero : geb (zero : xq) zero = true.
Proof. reflexivity. Qed.

Lemma xq_abs_nonneg (x : xq) : x <> NaN -> abs x <> NaN /\ leb zero (abs x) = true.
Proof.
  destruct x as [a| | |]; simpl; try done. intros _. split; [done|].
  unfold ext_leb, ksgn, k0. simpl. change (Qred 0) with 0%Q.
  destruct (Qcompare a 0) eqn:Hc.
  - apply Qeq_alt in Hc. rewrite <- Hc.
    rewrite (proj1 (Qeq_alt a a) (Qeq_refl a)). reflexivity.
  - apply Qlt_alt in Hc. rewrite Qred_correct.
    assert (Hpos : (0 < - a)%Q).
    { apply Qlt_minus_iff in Hc. rewrite Qplus_0_l in Hc. exact Hc. }
    rewrite (proj1 (Qlt_alt 0 (- a)) Hpos). reflexivity.
  - rewrite <- (Qcompare_antisym a 0), Hc. reflexivity.
Qed.

(** ** MLPNetwork.forward: ReLU and mismatched widths *)

Lemma xq_relu_nonneg (v : xq) : geb (relu v) zero = true.
Proof.
  unfold relu. destruct (gtb v zero) eqn:Hv; [apply xq_gtb_geb; exact Hv|reflexivity].
Qed.

(** X3.  Whatever the input, every component of the activation vector
    of a ReLU layer is [>= 0]: it is not negative and not NaN, even when
    the pre-activation is. *)
Theorem relu_activations_nonnegative (net : MLPNetwork xq) (pixels : list xq)
    (r : ForwardResult xq) (i : nat) (layer : Layer xq) (activated : list xq) :
  forward net pixels = Ok r ->
  layers net !! i = Some layer ->
  activation layer = "relu" ->
  activations r !! S i = Some activated ->
  length activated = length (biases layer)
  /\ forall v, In v activated -> geb v zero = true.
Proof.
  intros Hr Hlayer Hrelu Hact.
  pose proof (forward_Ok_rows net pixels r Hr) as Hrows.
  rewrite (forward_spec net pixels Hrows) in Hr. injection Hr as <-. simpl in Hact.
  destruct (run_layers_lookup _ (normalized_input (normalization net) pixels) i layer Hlayer)
    as (c & _ & _ & Hactv).
  rewrite Hactv in Hact. injection Hact as <-.
  unfold activation_of, is_relu. rewrite Hrelu. simpl.
  pose proof (Forall_lookup_1 _ _ _ _ Hrows Hlayer) as Hrow. simpl in Hrow.
  split; [rewrite length_map; apply dense_length; exact Hrow|].
  intros v Hv. apply in_map_iff in Hv as (x & <- & _). apply xq_relu_nonneg.
Qed.

Lemma relu_activations_nonnegative_witness :
  forward demo_net demo_pixels
  = Ok {| normalizedInput := [Fin 1%Q; Fin 1%Q];
          activations := [[Fin 1%Q; Fin 1%Q]; [Fin 0%Q; Fin 7%Q]; [Fin (-1)%Q]];
          preActivations := [[Fin 0%Q; Fin 7%Q]; [Fin (-1)%Q]] |}
  /\ forall v, In v [Fin 0%Q; Fin 7%Q : xq] -> geb v zero = true.
Proof.
  assert (Hr : forward demo_net demo_pixels
    = Ok {| normalizedInput := [Fin 1%Q; Fin 1%Q];
            activations := [[Fin 1%Q; Fin 1%Q]; [Fin 0%Q; Fin 7%Q]; [Fin (-1)%Q]];
            preActivations := [[Fin 0%Q; Fin 7%Q]; [Fin (-1)%Q]] |})
    by (vm_compute; reflexivity).
  split; [exact Hr|].
  destruct (relu_activations_nonnegative demo_net demo_pixels _ 0%nat
              {| name := "dense_0"; activation := "relu";
                 weights := [[Fin 1%Q; Fin (-2)%Q]; [Fin 3%Q; Fin 4%Q]];
                 biases := [Fin 1%Q; Fin 0%Q] |}
              [Fin 0%Q; Fin 7%Q] Hr eq_refl eq_refl eq_refl) as [_ Hall].
  exact Hall.
Defined.

Lemma weighted_sum_prefix {num : Type} `{!Arith num} (b : num) (row c c' : list num) :
  take (length row) c' = take (length row) c ->
  weighted_sum b row c' = weighted_sum b row c.
Proof.
  intros Htake. unfold weighted_sum. f_equal. apply imap_ext. intros k w Hk.
  apply lookup_lt_Some in Hk. unfold idx.
  rewrite <- (lookup_take_lt c' _ _ Hk), <- (lookup_take_lt c _ _ Hk), Htake.
  reflexivity.
Qed.

Lemma xq_sum_nan (l : list xq) : foldl add (NaN : xq) l = NaN.
Proof. induction l as [|x l IH]; [reflexivity|]. simpl. exact IH. Qed.

Lemma xq_add_nan (x : xq) : x ⊕ NaN = NaN.
Proof. destruct x; reflexivity. Qed.

Lemma xq_mul_nan (x : xq) : x ⊗ NaN = NaN.
Proof. destruct x; reflexivity. Qed.

Lemma weighted_sum_short_input (b : xq) (row c : list xq) :
  (length c < length row)%nat -> weighted_sum b row c = NaN.
Proof.
  intros Hlen. unfold weighted_sum.
  rewrite <- (take_drop (length c) row), imap_app, foldl_app.
  destruct (drop (length c) row) as [|w rest] eqn:Hdrop.
  { apply (f_equal length) in Hdrop. rewrite length_drop in Hdrop. simpl in Hdrop. lia. }
  rewrite imap_cons. cbn [foldl].
  rewrite length_take, Nat.min_l, Nat.add_0_r by lia.
  assert (Hidx : idx c (length c) = NaN).
  { unfold idx. rewrite lookup_ge_None_2 by lia. reflexivity. }
  rewrite Hidx, xq_mul_nan, xq_add_nan. apply xq_sum_nan.
Qed.

(** X4.  What a weight row of the wrong length does in a layer with a
    row for each neuron: neuron [j] reads the first [row.length] inputs
    only, so inputs beyond the length of its row are ignored; and when
    its row is longer than the input vector, its pre-activation is
    NaN. *)
Theorem row_length_mismatch (layer : Layer xq) (current : list xq) (j : nat)
    (row : list xq) :
  (length (biases layer) <= length (weights layer))%nat ->
  weights layer !! j = Some row ->
  (j < length (biases layer))%nat ->
  exists linear,
    linear_layer layer current = Ok linear
    /\ ((length current < length row)%nat -> linear !! j = Some NaN)
    /\ forall current', take (length row) current' = take (length row) current ->
         exists linear', linear_layer layer current' = Ok linear'
                         /\ linear' !! j = linear !! j.
Proof.
  intros Hrows Hrow Hj.
  destruct (lookup_lt_is_Some_2 (biases layer) j Hj) as [b Hb].
  exists (dense layer current). split; [apply linear_layer_spec; exact Hrows|].
  assert (Hlookup : forall c, dense layer c !! j = Some (weighted_sum b row c)).
  { intros c. unfold dense. rewrite lookup_zip_with, Hb. simpl. rewrite Hrow. reflexivity. }
  split.
  - intros Hshort. rewrite Hlookup, weighted_sum_short_input by exact Hshort. reflexivity.
  - intros current' Htake. exists (dense layer current').
    split; [apply linear_layer_spec; exact Hrows|].
    rewrite !Hlookup, (weighted_sum_prefix b row current current' Htake). reflexivity.
Qed.

(** The layer of the mismatched definition, on two inputs. *)
Lemma row_length_mismatch_witness :
  (length (biases long_row_layer) <= length (weights long_row_layer))%nat
  /\ weights long_row_layer !! 0%nat = Some [lit 1; lit 2; lit 3]
  /\ (0 < length (biases long_row_layer))%nat
  /\ exists linear, linear_layer long_row_layer [lit 1; lit 1] = Ok linear
                    /\ linear !! 0%nat = Some NaN.
Proof.
  assert (H1 : (length (biases long_row_layer) <= length (weights long_row_layer))%nat)
    by (simpl; lia).
  assert (H3 : (0 < length (biases long_row_layer))%nat) by (simpl; lia).
  split; [exact H1|]. split; [reflexivity|]. split; [exact H3|].
  destruct (row_length_mismatch long_row_layer [lit 1; lit 1] 0%nat [lit 1; lit 2; lit 3]
              H1 eq_refl H3)
    as (linear & Hl & Hnan & _).
  exists linear. split; [exact Hl|]. apply Hnan. simpl. lia.
Defined.

(** ** maxAbsValue and the selector's maxAbsWeight *)

(** A loop over the indices of an array that reads each element once
    is a fold over the array. *)
Lemma for_loop_foldl {num : Type} `{!Arith num} {S : Type} (g : num -> S -> S)
    (l : list num) (s : S) :
  for_loop (length l) (fun i s => g (idx l i) s) s = foldl (fun s x => g x s) s l.
Proof.
  induction l as [|x l IH] using rev_ind; [reflexivity|].
  rewrite length_app. simpl. rewrite Nat.add_1_r, for_loop_S, foldl_app. simpl.
  unfold idx at 1. rewrite lookup_app_r, Nat.sub_diag by lia. simpl. f_equal.
  rewrite <- IH. apply for_loop_ext. intros i s' Hi. unfold idx.
  rewrite lookup_app_l by lia. reflexivity.
Qed.

Lemma xq_zero_not_nan : (zero : xq) <> NaN.
Proof. unfold zero. simpl. discriminate. Qed.

(** The running maximum of the magnitudes of the values that pass a
    test, on the extended rationals. *)
Lemma xq_running_max (P : xq -> bool) (l : list xq) (m0 : xq) :
  m0 <> NaN ->
  let m := foldl (fun m v => if P v then (if gtb (abs v) m then abs v else m) else m)
             m0 l in
  m <> NaN
  /\ leb m0 m = true
  /\ (forall v, In v l -> P v = true -> v <> NaN -> leb (abs v) m = true)
  /\ (m = m0 \/ exists v, In v l /\ P v = true /\ v <> NaN /\ m = abs v).
Proof.
  cbv zeta. revert m0. induction l as [|x l IH]; intros m0 Hm0.
  - simpl. split; [exact Hm0|]. split; [apply xq_leb_refl; exact Hm0|].
    split; [intros v []|]. left. reflexivity.
  - cbn [foldl].
    set (m1 := if P x then (if gtb (abs x) m0 then abs x else m0) else m0).
    assert (Hm1 : m1 <> NaN /\ leb m0 m1 = true
                  /\ (P x = true -> x <> NaN -> leb (abs x) m1 = true)
                  /\ (m1 = m0 \/ (P x = true /\ x <> NaN /\ m1 = abs x))).
    { unfold m1. destruct (P x); [|repeat split; try done; [apply xq_leb_refl; exact Hm0|
                                    left; reflexivity]].
      destruct (gtb (abs x) m0) eqn:Hgt.
      - assert (Hx : x <> NaN) by (intros ->; destruct m0; vm_compute in Hgt; discriminate).
        destruct (xq_abs_nonneg x Hx) as [Habs _].
        split; [exact Habs|]. split; [apply xq_gtb_leb; exact Hgt|].
        split; [intros _ _; apply xq_leb_refl; exact Habs|]. right. done.
      - split; [exact Hm0|]. split; [apply xq_leb_refl; exact Hm0|].
        split; [|left; reflexivity].
        intros _ Hx. destruct (xq_abs_nonneg x Hx) as [Habs _].
        apply xq_not_gtb_leb; assumption. }
    destruct Hm1 as (Hn1 & Hle1 & Hx1 & Hatt1).
    destruct (IH m1 Hn1) as (Hn & Hle & Hall & Hatt).
    split; [exact Hn|]. split; [eapply xq_leb_trans; eassumption|]. split.
    + intros v [<-|Hv] HP Hv'.
      * eapply xq_leb_trans; [apply Hx1; assumption|exact Hle].
      * apply Hall; assumption.
    + destruct Hatt as [->|(v & Hv & HP & Hv' & ->)].
      * destruct Hatt1 as [->|(HP & Hx & ->)]; [left; reflexivity|].
        right. exists x. split; [left; reflexivity|]. done.
      * right. exists v. split; [right; exact Hv|]. done.
Qed.

(** X5.  [maxAbsValue] returns a number that is not NaN and not
    negative; it is at least the magnitude of every value that is not
    NaN, and it is either 0 or the magnitude of one of the values.  NaN
    entries are passed over, and an empty array gives 0. *)
Theorem maxAbsValue_is_largest_magnitude (values : list xq) :
  let m := maxAbsValue values in
  m <> NaN
  /\ leb zero m = true
  /\ (forall v, In v values -> v <> NaN -> leb (abs v) m = true)
  /\ (m = zero \/ exists v, In v values /\ v <> NaN /\ m = abs v).
Proof.
  cbv zeta. unfold maxAbsValue.
  rewrite (for_loop_foldl (fun x max => if gtb (abs x) max then abs x else max)).
  destruct (xq_running_max (fun _ => true) values zero xq_zero_not_nan)
    as (Hn & Hle & Hall & Hatt).
  split; [exact Hn|]. split; [exact Hle|]. split.
  - intros v Hv Hnan. apply Hall; done.
  - destruct Hatt as [Hz|(v & Hv & _ & Hnan & Hm)]; [left; exact Hz|].
    right. exists v. done.
Qed.

Section MaxAbsWeightProofs.
Context {num : Type} `{!Arith num}.

Lemma findImportantConnections_max (limit : nat) (layer : Layer num) :
  sel_maxAbsWeight (findImportantConnections limit layer)
  = foldl running_max zero (weights layer).
Proof.
  unfold findImportantConnections.
  set (ws := weights layer). clearbody ws.
  pose (body := fun (rows : list (list num)) (target : nat)
                     (st : list (Connection num) * num) =>
    let '(selected, maxAbsWeight) := st in
    let row := match rows !! target with Some r => r | None => [] end in
    let '(candidates, maxAbsWeight) := row_candidates target row maxAbsWeight in
    (take_top limit candidates selected, maxAbsWeight)).
  assert (Hloop : snd (for_loop (length ws) (body ws) ([], zero))
                  = foldl running_max zero ws).
  { induction ws as [|row ws IH] using rev_ind; [reflexivity|].
    rewrite length_app. simpl. rewrite Nat.add_1_r, for_loop_S.
    rewrite (for_loop_ext _ (body (ws ++ [row])) (body ws)).
    2:{ intros i [sel mx] Hi. unfold body. rewrite lookup_app_l by lia. reflexivity. }
    destruct (for_loop (length ws) (body ws) ([], zero)) as [sel mx]. simpl in IH.
    unfold body at 1. rewrite lookup_app_r, Nat.sub_diag by lia. simpl.
    rewrite row_candidates_spec, foldl_app, IH. reflexivity. }
  change (sel_maxAbsWeight
            (let '(selected, maxAbsWeight) := for_loop (length ws) (body ws) ([], zero) in
             {| selected := selected; sel_maxAbsWeight := maxAbsWeight |})
          = foldl running_max zero ws).
  destruct (for_loop (length ws) (body ws) ([], zero)) as [sel mx]. exact Hloop.
Qed.

End MaxAbsWeightProofs.

(** X6.  The [maxAbsWeight] of a selection is finite and not negative;
    it is at least the magnitude of every finite weight of the layer,
    returned or not, and it is either 0 or the magnitude of a finite
    weight of the layer; it is the same for every limit. *)
Theorem maxAbsWeight_is_largest_magnitude (limit : nat) (layer : Layer xq) :
  let m := sel_maxAbsWeight (findImportantConnections limit layer) in
  isFinite m = true
  /\ leb zero m = true
  /\ (forall row w, In row (weights layer) -> In w row -> isFinite w = true ->
        leb (abs w) m = true)
  /\ (m = zero \/ exists row w, In row (weights layer) /\ In w row
                               /\ isFinite w = true /\ m = abs w)
  /\ forall limit', sel_maxAbsWeight (findImportantConnections limit' layer) = m.
Proof.
  cbv zeta. rewrite findImportantConnections_max.
  assert (Hgen : forall (rows : list (list xq)) (m0 : xq),
    isFinite m0 = true ->
    let m := foldl running_max m0 rows in
    isFinite m = true /\ leb m0 m = true
    /\ (forall row w, In row rows -> In w row -> isFinite w = true -> leb (abs w) m = true)
    /\ (m = m0 \/ exists row w, In row rows /\ In w row /\ isFinite w = true /\ m = abs w)).
  { intros rows. induction rows as [|row rows IH]; intros m0 Hm0; cbv zeta.
    - simpl. split; [exact Hm0|]. split; [apply xq_leb_refl; intros ->; discriminate|].
      split; [intros row w []|]. left. reflexivity.
    - cbn [foldl].
      assert (Hm0' : m0 <> NaN) by (intros ->; discriminate).
      destruct (xq_running_max isFinite row m0 Hm0') as (Hn1 & Hle1 & Hall1 & Hatt1).
      fold (running_max m0 row) in Hn1, Hle1, Hall1, Hatt1.
      assert (Hfin1 : isFinite (running_max m0 row) = true).
      { destruct Hatt1 as [->|(v & _ & Hf & _ & ->)]; [exact Hm0|].
        destruct v; done. }
      destruct (IH (running_max m0 row) Hfin1) as (Hfin & Hle & Hall & Hatt).
      split; [exact Hfin|]. split; [eapply xq_leb_trans; eassumption|]. split.
      + intros r w [<-|Hr] Hw Hf.
        * eapply xq_leb_trans; [|exact Hle].
          apply Hall1; [exact Hw|exact Hf|intros ->; discriminate].
        * eapply Hall; eassumption.
      + destruct Hatt as [->|(r & w & Hr & Hw & Hf & ->)].
        * destruct Hatt1 as [->|(v & Hv & Hf & _ & ->)]; [left; reflexivity|].
          right. exists row, v. split; [left; reflexivity|]. done.
        * right. exists r, w. split; [right; exact Hr|]. done. }
  assert (Hz : isFinite (zero : xq) = true) by reflexivity.
  destruct (Hgen (weights layer) zero Hz) as (Hfin & Hle & Hall & Hatt).
  split; [exact Hfin|]. split; [exact Hle|]. split; [exact Hall|].
  split; [exact Hatt|]. intros limit'. apply findImportantConnections_max.
Qed.

(** ** NetworkVisualizer.update: when it throws *)

Lemma for_loopM_throws {S : Type} (n : nat) (body : nat -> S -> result S) (s : S)
    (e0 : exn) (L : nat) :
  (L < n)%nat ->
  (forall s, body L s = Throw e0) ->
  (forall i s, (i < L)%nat -> (exists s', body i s = Ok s') \/ body i s = Throw e0) ->
  for_loopM n body s = Throw e0.
Proof.
  intros HL Hthrow Hbefore. unfold for_loopM.
  assert (Hsplit : seq 0 n = seq 0 L ++ L :: seq (Datatypes.S L) (n - Datatypes.S L)).
  { replace n with (L + Datatypes.S (n - Datatypes.S L))%nat at 1 by lia.
    rewrite seq_app. reflexivity. }
  rewrite Hsplit, foldl_app. cbn [foldl].
  assert (Hpre : forall k, (k <= L)%nat ->
            (exists s1, foldl (fun r i => s0 ← r; body i s0) (Ok s) (seq 0 k) = Ok s1)
            \/ foldl (fun r i => s0 ← r; body i s0) (Ok s) (seq 0 k) = Throw e0).
  { intros k. induction k as [|k IH]; intros Hk.
    - left. exists s. reflexivity.
    - rewrite seq_S, foldl_app. simpl.
      destruct (IH ltac:(lia)) as [[s1 ->]| ->]; [|right; reflexivity].
      simpl. destruct (Hbefore k s1 ltac:(lia)) as [[s' ->]| ->];
        [left; eexists; reflexivity|right; reflexivity]. }
  specialize (Hpre L ltac:(lia)).
  destruct Hpre as [[s1 ->]| ->]; simpl.
  - rewrite Hthrow. apply foldl_Throw.
  - apply foldl_Throw.
Qed.

(** X7.  [update] returns exactly when every layer after the first that
    has display values also has actual activations.  When some such layer
    has none, it throws a TypeError (raised by [maxAbsValue] on the
    missing vector); the input layer needs no actual activations. *)
Theorem update_returns_iff {num : Type} `{!Arith num} (this : NetworkVisualizer num)
    (display actual : list (list num)) :
  (activations_present this display actual
   <-> exists this', update this display actual = Ok this')
  /\ forall L, L <> 0%nat -> (L < length (layerMeshes this))%nat ->
       is_Some (display !! L) -> actual !! L = None ->
       exists msg, update this display actual = Throw (TypeError msg).
Proof.
  assert (Hthrow : forall L, L <> 0%nat -> (L < length (layerMeshes this))%nat ->
            is_Some (display !! L) -> actual !! L = None ->
            exists msg, update this display actual = Throw (TypeError msg)).
  { intros L HL0 HL [values Hvalues] Hnone.
    exists "Cannot read properties of undefined (reading 'length')".
    unfold update. rewrite forEachM_for_loopM.
    rewrite (for_loopM_throws _ _ _
               (TypeError "Cannot read properties of undefined (reading 'length')") L HL).
    - reflexivity.
    - intros s. destruct (lookup_lt_is_Some_2 _ _ HL) as [layer ->].
      rewrite Hvalues. unfold node_scale.
      destruct (Nat.eqb_spec L 0) as [->|_]; [done|]. rewrite Hnone. reflexivity.
    - intros i s Hi. destruct (layerMeshes this !! i) as [layer|]; [|left; eauto].
      destruct (display !! i) as [vals|]; [|left; eauto].
      unfold node_scale. destruct (i =? 0)%nat.
      + simpl. destruct (applyNodeColors _ _ _ _). left. eauto.
      + destruct (actual !! i); [|right; reflexivity].
        simpl. destruct (applyNodeColors _ _ _ _). left. eauto. }
  split; [|exact Hthrow]. split.
  - intros Hpresent. destruct (update_spec this display actual Hpresent) as (this' & Hrun & _).
    exists this'. exact Hrun.
  - intros [this' Hrun] L HL0 HL Hdisp.
    destruct (actual !! L) as [a|] eqn:Ha; [eauto|].
    destruct (Hthrow L HL0 HL Hdisp Ha) as [msg Hmsg]. rewrite Hmsg in Hrun. discriminate.
Qed.

(** ** softmax with the exponential of the reals *)

Lemma Rsum_ge_term (xs : list R) (x : R) :
  (forall y, In y xs -> (0 <= y)%R) -> In x xs -> (x <= Rsum xs)%R.
Proof.
  induction xs as [|y xs IH]; intros Hpos Hx; [destruct Hx|]. simpl.
  pose proof (Hpos y ltac:(left; reflexivity)) as Hy.
  pose proof (Rsum_nonneg xs ltac:(intros z Hz; apply Hpos; right; exact Hz)) as Hs.
  destruct Hx as [->|Hx]; [lra|].
  pose proof (IH ltac:(intros z Hz; apply Hpos; right; exact Hz) Hx). lra.
Qed.

(** X8.  For an exponential that is never negative, does not decrease
    and is 1 at 0 (an exponential that underflows to 0 is one), and a
    non-empty vector of finite logits: the exponentiated terms sum to at
    least 1, so the zero-sum branch is never taken; every entry of the
    result is a number in [0, 1]; the order of the logits is kept; and
    the entry of a largest logit is above 0 and a largest entry. *)
Theorem softmax_of_finite_logits (e : R -> R) (rs : list R) :
  (forall x, (0 <= e x)%R) ->
  (forall x y, (x <= y)%R -> (e x <= e y)%R) ->
  e 0%R = 1%R ->
  rs <> [] ->
  exists m ps,
    In m rs /\ (forall r, In r rs -> (r <= m)%R)
    /\ (1 <= Rsum (map (fun r => e (r - m)%R) rs))%R
    /\ softmax (exp_of e) (map Fin rs) = map Fin ps
    /\ length ps = length rs
    /\ (forall p, In p ps -> (0 <= p <= 1)%R)
    /\ (forall i j ri rj pi pj,
          rs !! i = Some ri -> rs !! j = Some rj ->
          ps !! i = Some pi -> ps !! j = Some pj ->
          (ri <= rj)%R -> (pi <= pj)%R)
    /\ forall i pi, rs !! i = Some m -> ps !! i = Some pi ->
         (0 < pi)%R /\ forall p, In p ps -> (p <= pi)%R.
Proof.
  intros Hnonneg Hmono Hzero Hne.
  destruct (softmax_finite e rs Hne) as (m & Hin & Hall & Hsoft).
  set (exps := map (fun r => e (r - m)%R) rs) in *.
  assert (Hpos : forall x, In x exps -> (0 <= x)%R).
  { intros x Hx. apply in_map_iff in Hx as (r & <- & _). apply Hnonneg. }
  assert (HS1 : (1 <= Rsum exps)%R).
  { rewrite <- Hzero. replace 0%R with (m - m)%R by lra.
    apply Rsum_ge_term; [exact Hpos|]. apply in_map_iff. exists m. done. }
  assert (HS : (0 < Rsum exps)%R) by lra.
  assert (Hle1 : forall r, In r rs -> (0 <= e (r - m) / Rsum exps <= 1)%R).
  { intros r Hr.
    assert (Hterm : (e (r - m) <= Rsum exps)%R).
    { apply Rsum_ge_term; [exact Hpos|]. apply in_map_iff. exists r. done. }
    pose proof (Hnonneg (r - m)%R) as He. split.
    - unfold Rdiv. apply Rmult_le_pos; [exact He|]. left. apply Rinv_0_lt_compat. exact HS.
    - apply (Rmult_le_reg_r (Rsum exps)); [exact HS|].
      unfold Rdiv. rewrite Rmult_assoc, Rinv_l by lra. lra. }
  assert (Horder : forall ri rj, (ri <= rj)%R ->
            (e (ri - m) / Rsum exps <= e (rj - m) / Rsum exps)%R).
  { intros ri rj Hle. unfold Rdiv. apply Rmult_le_compat_r.
    - left. apply Rinv_0_lt_compat. exact HS.
    - apply Hmono. lra. }
  exists m, (map (fun r => e (r - m) / Rsum exps)%R rs).
  split; [exact Hin|]. split; [exact Hall|]. split; [exact HS1|].
  split; [|split; [|split; [|split]]].
  - rewrite Hsoft, map_map. apply map_ext. intros r.
    destruct (Req_dec_T (Rsum exps) 0); [lra|reflexivity].
  - apply length_map.
  - intros p Hp. apply in_map_iff in Hp as (r & <- & Hr). apply Hle1. exact Hr.
  - intros i j ri rj pi pj Hi Hj Hpi Hpj Hle.
    rewrite list_lookup_fmap, Hi in Hpi. rewrite list_lookup_fmap, Hj in Hpj.
    injection Hpi as <-. injection Hpj as <-. apply Horder. exact Hle.
  - intros i pi Hi Hpi. rewrite list_lookup_fmap, Hi in Hpi. injection Hpi as <-.
    split.
    + replace (m - m)%R with 0%R by lra. rewrite Hzero.
      unfold Rdiv. rewrite Rmult_1_l. apply Rinv_0_lt_compat. exact HS.
    + intros p Hp. apply in_map_iff in Hp as (r & <- & Hr). apply Horder.
      apply Hall. exact Hr.
Qed.

(** The exponential of the reals, on the logits [1, 3]. *)
Lemma softmax_of_finite_logits_witness :
  (forall x, (0 <= exp x)%R)
  /\ (forall x y, (x <= y)%R -> (exp x <= exp y)%R)
  /\ exp 0 = 1%R
  /\ [1%R; 3%R] <> []
  /\ exists ps, softmax (exp_of exp) (map Fin [1%R; 3%R]) = map Fin ps
                /\ length ps = 2%nat.
Proof.
  assert (H1 : forall x, (0 <= exp x)%R) by (intros x; left; apply exp_pos).
  assert (H2 : forall x y, (x <= y)%R -> (exp x <= exp y)%R).
  { intros x y Hxy. destruct (Rle_lt_or_eq_dec _ _ Hxy) as [Hlt|Heq].
    - left. apply exp_increasing. exact Hlt.
    - rewrite Heq. lra. }
  assert (H3 : exp 0 = 1%R) by apply exp_0.
  assert (H4 : [1%R; 3%R] <> []) by discriminate.
  split; [exact H1|]. split; [exact H2|]. split; [exact H3|]. split; [exact H4|].
  destruct (softmax_of_finite_logits exp [1%R; 3%R] H1 H2 H3 H4)
    as (m & ps & _ & _ & _ & Hps & Hlen & _).
  exists ps. split; [exact Hps|exact Hlen].
Defined.

(** ** softmax on logits that are not finite *)

Section ExtNaN.
Context {K : Type} `{!Scalar K}.

Lemma ext_sum_nan (l : list (ext K)) :
  foldl (fun acc value => acc ⊕ value) (NaN : ext K) l = NaN.
Proof. induction l as [|x l IH]; [reflexivity|]. simpl. exact IH. Qed.

Lemma ext_sum_with_nan (l : list (ext K)) (a : ext K) :
  In NaN l -> foldl (fun acc value => acc ⊕ value) a l = NaN.
Proof.
  revert a. induction l as [|x l IH]; intros a Hin; [destruct Hin|].
  cbn [foldl]. destruct Hin as [->|Hin]; [|apply IH; exact Hin].
  replace (a ⊕ NaN) with (NaN : ext K) by (destruct a; reflexivity).
  apply ext_sum_nan.
Qed.

Lemma ext_max_nan (l : list (ext K)) : foldl fmax (NaN : ext K) l = NaN.
Proof. induction l as [|x l IH]; [reflexivity|]. simpl. exact IH. Qed.

Lemma ext_max_with_nan (l : list (ext K)) (a : ext K) :
  In NaN l -> foldl fmax a l = NaN.
Proof.
  revert a. induction l as [|x l IH]; intros a Hin; [destruct Hin|].
  cbn [foldl]. destruct Hin as [->|Hin]; [|apply IH; exact Hin].
  replace (fmax a NaN) with (NaN : ext K) by (destruct a; reflexivity).
  apply ext_max_nan.
Qed.

Lemma ext_max_with_pinf (l : list (ext K)) (a : ext K) :
  ~ In NaN l -> a <> NaN -> (a = PInf \/ In PInf l) -> foldl fmax a l = PInf.
Proof.
  revert a. induction l as [|x l IH]; intros a Hnan Ha Hin.
  - destruct Hin as [->|[]]. reflexivity.
  - cbn [foldl]. assert (Hx : x <> NaN) by (intros ->; apply Hnan; left; reflexivity).
    apply IH.
    + intros Hl. apply Hnan. right. exact Hl.
    + destruct a, x; try done; simpl; unfold ext_max; simpl; destruct (kcmp _ _); done.
    + destruct Hin as [->|[->|Hin]].
      * left. destruct x; done.
      * left. destruct a; done.
      * right. exact Hin.
Qed.

End ExtNaN.

(** X9.  When a logit is NaN or [+Infinity], every entry of the result
    of [softmax] is NaN, whatever the other logits are: nothing is
    caught, and the zero-sum branch does not apply. *)
Theorem softmax_non_finite_logit (e : R -> R) (values : list xr) :
  In NaN values \/ In PInf values ->
  softmax (exp_of e) values = map (fun _ => NaN) values.
Proof.
  intros Hbad. unfold softmax.
  destruct values as [|v0 vs] eqn:Hvs; [destruct Hbad as [[]|[]]|].
  rewrite <- Hvs in *. clear Hvs.
  set (maxVal := foldl fmax (neg_infinity : xr) values).
  assert (Hexps : In NaN (map (fun value : xr => exp_of e (value ⊖ maxVal)) values)).
  { destruct (in_dec (fun x y : xr => ltac:(
        destruct x as [a| | |], y as [b| | |];
        try (right; discriminate); try (left; reflexivity);
        destruct (Req_dec_T a b) as [->|Hne]; [left; reflexivity|right; congruence]))
      NaN values) as [Hnan|Hnan].
    - apply in_map_iff. exists NaN. split; [reflexivity|exact Hnan].
    - destruct Hbad as [Hn|Hp]; [done|].
      assert (Hmax : maxVal = PInf).
      { unfold maxVal. apply ext_max_with_pinf; [exact Hnan|discriminate|right; exact Hp]. }
      apply in_map_iff. exists PInf. rewrite Hmax. split; [reflexivity|exact Hp]. }
  set (exps := map (fun value : xr => exp_of e (value ⊖ maxVal)) values) in *.
  rewrite (ext_sum_with_nan exps zero Hexps).
  unfold exps. rewrite map_map. apply map_ext. intros v.
  destruct (exp_of e (v ⊖ maxVal)); reflexivity.
Qed.

(** The logits [NaN, 2]. *)
Lemma softmax_non_finite_logit_witness :
  (In NaN [NaN; Fin 2%R : xr] \/ In PInf [NaN; Fin 2%R : xr])
  /\ softmax (exp_of exp) [NaN; Fin 2%R] = [NaN; NaN].
Proof.
  assert (Hbad : In NaN [NaN; Fin 2%R : xr] \/ In PInf [NaN; Fin 2%R : xr])
    by (left; left; reflexivity).
  split; [exact Hbad|]. exact (softmax_non_finite_logit exp [NaN; Fin 2%R] Hbad).
Defined.

(** ** PredictionChart.update *)

Section ChartProofs.
Context {num : Type} `{!Arith num}.
Variable toFixed1 : num -> string.

Lemma PredictionChart_update_lookup (rows : list ChartRow) (probabilities : list num) :
  let rows' := PredictionChart_update toFixed1 rows probabilities in
  length rows' = length rows
  /\ forall i entry, rows !! i = Some entry ->
       rows' !! i
       = Some (match probabilities !! i with
               | Some prob =>
                   updated_row toFixed1 (foldl fmax neg_infinity probabilities) entry prob
               | None => entry
               end).
Proof.
  cbv zeta. unfold PredictionChart_update.
  destruct probabilities as [|p0 ps].
  { split; [reflexivity|]. intros i entry Hi. rewrite lookup_nil. exact Hi. }
  cbv beta iota zeta. remember (p0 :: ps) as probabilities eqn:Hps. clear Hps p0 ps.
  set (maxProb := foldl fmax neg_infinity probabilities).
  pose (g := fun (index : nat) (prob : num) (rs : list ChartRow) =>
               match rs !! index with
               | None => rs
               | Some entry => <[index := updated_row toFixed1 maxProb entry prob]> rs
               end).
  match goal with
  | |- context [foldl ?f rows (imap pair probabilities)] =>
      assert (Hfold : foldl f rows (imap pair probabilities)
                = for_loop (length probabilities)
                    (fun i rs => match probabilities !! i with
                                 | Some x => g i x rs
                                 | None => rs
                                 end) rows)
  end.
  { rewrite <- foldl_imap_pair. apply foldl_ext_In. intros rs [i x] _. reflexivity. }
  rewrite Hfold. clear Hfold.
  cut (length (for_loop (length probabilities)
                 (fun i rs => match probabilities !! i with
                              | Some x => g i x rs
                              | None => rs
                              end) rows) = length rows
       /\ forall i entry, rows !! i = Some entry ->
            for_loop (length probabilities)
              (fun i rs => match probabilities !! i with
                           | Some x => g i x rs
                           | None => rs
                           end) rows !! i
            = Some (if (i <? length probabilities)%nat
                    then match probabilities !! i with
                         | Some prob => updated_row toFixed1 maxProb entry prob
                         | None => entry
                         end
                    else entry)).
  { intros [Hlen Hrs]. split; [exact Hlen|]. intros i entry Hi. rewrite (Hrs i entry Hi).
    destruct (Nat.ltb_spec i (length probabilities)) as [Hlt|Hge]; [reflexivity|].
    rewrite (lookup_ge_None_2 probabilities i) by lia. reflexivity. }
  apply (for_loop_ind
    (fun k rs =>
       length rs = length rows
       /\ forall i entry, rows !! i = Some entry ->
            rs !! i = Some (if (i <? k)%nat
                            then match probabilities !! i with
                                 | Some prob => updated_row toFixed1 maxProb entry prob
                                 | None => entry
                                 end
                            else entry))).
  - split; [reflexivity|]. intros i entry Hi. exact Hi.
  - intros k rs Hk [Hlen Hrs].
    destruct (lookup_lt_is_Some_2 probabilities k Hk) as [prob Hprob]. rewrite Hprob.
    unfold g. destruct (rs !! k) as [entry_k|] eqn:Hrk.
    + split; [rewrite length_insert; exact Hlen|].
      intros i entry Hi. destruct (decide (i = k)) as [->|Hne].
      * rewrite list_lookup_insert_eq by (eapply lookup_lt_Some; exact Hrk).
        rewrite (proj2 (Nat.ltb_lt k (S k))) by lia. rewrite Hprob.
        specialize (Hrs k entry Hi). rewrite Nat.ltb_irrefl in Hrs.
        rewrite Hrk in Hrs. injection Hrs as ->. reflexivity.
      * rewrite list_lookup_insert_ne by congruence. rewrite (Hrs i entry Hi).
        destruct (Nat.ltb_spec i k), (Nat.ltb_spec i (S k)); try lia; reflexivity.
    + split; [exact Hlen|]. intros i entry Hi. rewrite (Hrs i entry Hi).
      destruct (decide (i = k)) as [->|Hne].
      * apply lookup_lt_Some in Hi. apply lookup_ge_None_1 in Hrk. lia.
      * destruct (Nat.ltb_spec i k), (Nat.ltb_spec i (S k)); try lia; reflexivity.
Qed.

End ChartProofs.

Lemma xq_fmax_spec (x y : xq) :
  x <> NaN -> y <> NaN ->
  fmax x y <> NaN /\ (fmax x y = x \/ fmax x y = y)
  /\ leb x (fmax x y) = true /\ leb y (fmax x y) = true.
Proof.
  intros Hx Hy.
  assert (Hcases : (fmax x y = y /\ leb x y = true) \/ (fmax x y = x /\ leb y x = true)).
  { destruct x as [a| | |], y as [b| | |]; try done; simpl; unfold ext_max, ext_leb; simpl;
      try (left; done); try (right; done).
    rewrite <- (Qcompare_antisym a b). destruct (Qcompare a b); simpl; [right|left|right]; done. }
  destruct Hcases as [[-> Hle]|[-> Hle]].
  - split; [exact Hy|]. split; [right; reflexivity|]. split; [exact Hle|apply xq_leb_refl, Hy].
  - split; [exact Hx|]. split; [left; reflexivity|]. split; [apply xq_leb_refl, Hx|exact Hle].
Qed.

Lemma xq_max_fold (l : list xq) (a : xq) :
  a <> NaN -> ~ In NaN l ->
  let M := foldl fmax a l in
  M <> NaN /\ (M = a \/ In M l) /\ leb a M = true /\ forall x, In x l -> leb x M = true.
Proof.
  cbv zeta. revert a. induction l as [|x l IH]; intros a Ha Hl.
  - simpl. split; [exact Ha|]. split; [left; reflexivity|].
    split; [apply xq_leb_refl, Ha|intros x []].
  - cbn [foldl].
    assert (Hx : x <> NaN) by (intros ->; apply Hl; left; reflexivity).
    destruct (xq_fmax_spec a x Ha Hx) as (Hn & Hor & Hla & Hlx).
    destruct (IH (fmax a x) Hn ltac:(intros Hin; apply Hl; right; exact Hin))
      as (HM & HMin & HMle & HMall).
    split; [exact HM|]. split; [|split].
    + destruct HMin as [->|Hin]; [|right; right; exact Hin].
      destruct Hor as [->| ->]; [left; reflexivity|right; left; reflexivity].
    + eapply xq_leb_trans; eassumption.
    + intros y [<-|Hy]; [eapply xq_leb_trans; eassumption|apply HMall, Hy].
Qed.

Lemma xq_eqb_leb (x y : xq) : eqb x y = true <-> leb x y = true /\ leb y x = true.
Proof.
  destruct x as [a| | |], y as [b| | |]; simpl; unfold ext_eqb, ext_leb; simpl;
    try (split; [done|intros [? ?]; done]).
  rewrite <- (Qcompare_antisym a b). destruct (Qcompare a b); simpl;
    (split; [done|intros [? ?]; done]).
Qed.

Lemma in_unit_not_nan (x : xq) : in_unit x -> x <> NaN.
Proof. intros Hx ->. exact Hx. Qed.

(** Clamping a value of [0, 1] gives a number equal to it. *)
Lemma xq_clamp_unit (p : xq) : in_unit p -> eqb (fmax zero (fmin one p)) p = true.
Proof.
  destruct p as [a| | |]; try done. intros [H0 H1].
  simpl. unfold ext_min, ext_max, ext_eqb. simpl.
  change (Qred 0) with 0%Q. change (Qred 1) with 1%Q.
  destruct (Qcompare 1 a) eqn:Hc1; simpl.
  - (* a == 1 *)
    apply Qeq_alt in Hc1. rewrite Hc1. rewrite <- Hc1 at 1.
    change (Qcompare 0 1) with Lt. simpl. rewrite <- Hc1.
    reflexivity.
  - apply Qlt_alt in Hc1. exfalso. apply (Qlt_irrefl 1).
    eapply Qlt_le_trans; eassumption.
  - destruct (Qcompare 0 a) eqn:Hc0; simpl.
    + rewrite Hc0. reflexivity.
    + rewrite (proj1 (Qeq_alt a a) (Qeq_refl a)). reflexivity.
    + apply Qgt_alt in Hc0. exfalso. apply (Qlt_irrefl a).
      eapply Qlt_le_trans; eassumption.
Qed.

Lemma xq_clamp_any (x : xq) : x <> NaN -> in_unit (fmax zero (fmin one x)).
Proof.
  destruct x as [a| | |]; try done; intros _.
  simpl. unfold ext_min, ext_max. simpl.
  change (Qred 0) with 0%Q. change (Qred 1) with 1%Q.
  destruct (Qcompare 1 a) eqn:H1; simpl.
  - split; discriminate.
  - split; discriminate.
  - destruct (Qcompare 0 a) eqn:H0; simpl.
    + split; [apply Qle_refl|discriminate].
    + apply Qlt_alt in H0. apply Qgt_alt in H1.
      split; apply Qlt_le_weak; assumption.
    + split; [apply Qle_refl|discriminate].
Qed.

Lemma in_unit_leb_one (c : xq) : in_unit c -> leb c one = true.
Proof.
  destruct c as [a| | |]; try done. intros [_ H1]. apply xq_leb_Fin.
  change (Qred 1) with 1%Q. exact H1.
Qed.

Lemma xq_gtb_not_leb (x y : xq) : gtb x y = true -> leb x y = false.
Proof.
  simpl. unfold ext_gtb, ext_leb. destruct (ext_cmp x y) as [[]|]; done.
Qed.

Lemma xq_max_not_nan (l : list xq) (a : xq) :
  foldl fmax a l <> NaN -> a <> NaN /\ ~ In NaN l.
Proof.
  intros HM. split.
  - intros ->. apply HM. apply (ext_max_nan (K:=Q)).
  - intros Hin. apply HM. apply (ext_max_with_nan (K:=Q)). exact Hin.
Qed.

(** X10.  For probabilities in [0, 1]: [update] keeps the number of
    rows and their labels, leaves the rows beyond the probabilities as
    they are, and gives the class "highest" to exactly the rows whose
    probability is the largest; when there are probabilities, and a row
    for each, some row is highlighted. *)
Theorem chart_highlights_largest (toFixed1 : xq -> string) (rows : list ChartRow)
    (probabilities : list xq) :
  Forall in_unit probabilities ->
  let rows' := PredictionChart_update toFixed1 rows probabilities in
  length rows' = length rows
  /\ (forall i entry, rows !! i = Some entry -> probabilities !! i = None ->
        rows' !! i = Some entry)
  /\ (forall i entry p, rows !! i = Some entry -> probabilities !! i = Some p ->
        exists entry',
          rows' !! i = Some entry'
          /\ row_label entry' = row_label entry
          /\ (highest entry' = true <-> forall q, In q probabilities -> leb q p = true))
  /\ (probabilities <> [] -> (length probabilities <= length rows)%nat ->
        exists i entry', rows' !! i = Some entry' /\ highest entry' = true).
Proof.
  intros Hunit. cbv zeta.
  destruct (PredictionChart_update_lookup toFixed1 rows probabilities) as [Hlen Hrows].
  set (M := foldl fmax (neg_infinity : xq) probabilities) in *.
  assert (Hnonan : ~ In NaN probabilities).
  { intros Hin. rewrite Forall_forall in Hunit.
    apply (Hunit NaN). apply list_elem_of_In. exact Hin. }
  destruct (xq_max_fold probabilities NInf ltac:(discriminate) Hnonan)
    as (HM & HMin & _ & HMall).
  fold M in HM, HMin, HMall.
  assert (HMin' : probabilities <> [] -> In M probabilities).
  { intros Hne. destruct HMin as [HMinf|Hin]; [|exact Hin]. exfalso.
    destruct probabilities as [|p ps]; [done|].
    specialize (HMall p ltac:(left; reflexivity)). rewrite HMinf in HMall.
    assert (Hp : in_unit p) by (inversion Hunit; assumption).
    destruct p; done. }
  assert (Hhigh : forall p, In p probabilities ->
            eqb (fmax zero (fmin one p)) M = true
            <-> forall q, In q probabilities -> leb q p = true).
  { intros p Hp.
    assert (Hpu : in_unit p).
    { rewrite Forall_forall in Hunit. apply Hunit, list_elem_of_In, Hp. }
    destruct (proj1 (xq_eqb_leb _ _) (xq_clamp_unit p Hpu)) as [Hcp Hpc].
    rewrite xq_eqb_leb. split.
    - intros [_ HMc] q Hq.
      eapply xq_leb_trans; [apply HMall, Hq|]. eapply xq_leb_trans; eassumption.
    - intros Hall. split.
      + eapply xq_leb_trans; [exact Hcp|apply HMall, Hp].
      + eapply xq_leb_trans; [|exact Hpc]. apply Hall, HMin'.
        intros ->. destruct Hp. }
  split; [exact Hlen|]. split; [|split].
  - intros i entry Hi Hnone. rewrite (Hrows i entry Hi), Hnone. reflexivity.
  - intros i entry p Hi Hp. eexists. rewrite (Hrows i entry Hi), Hp.
    split; [reflexivity|]. split; [reflexivity|].
    apply Hhigh. apply list_elem_of_In. eapply list_elem_of_lookup_2. exact Hp.
  - intros Hne Hle. pose proof (HMin' Hne) as HinM.
    apply list_elem_of_In, list_elem_of_lookup in HinM as [i Hi].
    destruct (lookup_lt_is_Some_2 rows i) as [entry Hentry].
    { apply lookup_lt_Some in Hi. lia. }
    exists i. eexists. rewrite (Hrows i entry Hentry), Hi.
    split; [reflexivity|]. simpl. apply Hhigh.
    + apply list_elem_of_In. eapply list_elem_of_lookup_2. exact Hi.
    + exact HMall.
Qed.

(** X11.  When a probability is NaN, or larger than 1, [update] removes
    the class "highest" from every row it writes: no bar is
    highlighted. *)
Theorem chart_no_highlight (toFixed1 : xq -> string) (rows : list ChartRow)
    (probabilities : list xq) :
  In NaN probabilities \/ (exists p, In p probabilities /\ gtb p one = true) ->
  forall i entry',
    (i < length probabilities)%nat ->
    PredictionChart_update toFixed1 rows probabilities !! i = Some entry' ->
    highest entry' = false.
Proof.
  intros Hbad i entry' Hi Hentry'.
  destruct (PredictionChart_update_lookup toFixed1 rows probabilities) as [Hlen Hrows].
  destruct (lookup_lt_is_Some_2 rows i) as [entry Hentry].
  { rewrite <- Hlen. eapply lookup_lt_Some. exact Hentry'. }
  destruct (lookup_lt_is_Some_2 probabilities i Hi) as [q Hq].
  rewrite (Hrows i entry Hentry), Hq in Hentry'. injection Hentry' as <-. simpl.
  set (M := foldl fmax (neg_infinity : xq) probabilities).
  destruct (eqb (fmax zero (fmin one q)) M) eqn:Heq; [|exact Heq]. exfalso.
  apply xq_eqb_leb in Heq as [HcM HMc].
  assert (HM : M <> NaN) by (intros HM; rewrite HM in HcM; destruct (fmax zero (fmin one q)); done).
  destruct (xq_max_not_nan probabilities NInf HM) as [_ Hnonan].
  destruct Hbad as [Hnan|(p & Hp & Hgt)]; [done|].
  destruct (xq_max_fold probabilities NInf ltac:(discriminate) Hnonan) as (_ & _ & _ & Hall).
  fold M in Hall.
  assert (Hq' : q <> NaN).
  { intros ->. apply Hnonan. apply list_elem_of_In. eapply list_elem_of_lookup_2. exact Hq. }
  pose proof (in_unit_leb_one _ (xq_clamp_any q Hq')) as Hc1.
  pose proof (xq_leb_trans _ _ _ (Hall p Hp) (xq_leb_trans _ _ _ HMc Hc1)) as Hp1.
  rewrite (xq_gtb_not_leb _ _ Hgt) in Hp1. discriminate.
Qed.

Example toFixed1_demo :
  map toFixed1_q [lit (1 # 2) ⊗ lit 100; lit (1 # 3) ⊗ lit 100; lit (-4 # 100); NaN]
  = ["50.0"; "33.3"; "-0.0"; "NaN"].
Proof. vm_compute. reflexivity. Qed.

Example chart_demo :
  map (fun row => (value_text row, highest row))
    (take 3 (PredictionChart_update toFixed1_q PredictionChart_build
               [lit (1 # 4); lit (3 # 4)]))
  = [("25.0%", false); ("75.0%", true); ("0.0%", false)].
Proof. vm_compute. reflexivity. Qed.

(** The chart on the probabilities [0.25, 0.75]. *)
Lemma chart_highlights_largest_witness :
  Forall in_unit [lit (1 # 4); lit (3 # 4) : xq]
  /\ length (PredictionChart_update toFixed1_q PredictionChart_build
               [lit (1 # 4); lit (3 # 4)])
     = length PredictionChart_build.
Proof.
  assert (Hunit : Forall in_unit [lit (1 # 4); lit (3 # 4) : xq]).
  { repeat constructor; discriminate. }
  split; [exact Hunit|].
  destruct (chart_highlights_largest toFixed1_q PredictionChart_build _ Hunit) as [Hlen _].
  exact Hlen.
Defined.

(** The chart on the probabilities [NaN, NaN]. *)
Lemma chart_no_highlight_witness :
  (In NaN [NaN; NaN : xq] \/ exists p, In p [NaN; NaN : xq] /\ gtb p one = true)
  /\ forall i entry',
      (i < 2)%nat ->
      PredictionChart_update toFixed1_q PredictionChart_build [NaN; NaN] !! i = Some entry' ->
      highest entry' = false.
Proof.
  assert (Hbad : In NaN [NaN; NaN : xq]
                 \/ exists p, In p [NaN; NaN : xq] /\ gtb p one = true)
    by (left; left; reflexivity).
  split; [exact Hbad|].
  exact (chart_no_highlight toFixed1_q PredictionChart_build [NaN; NaN] Hbad).
Defined.

(** ** DrawingGrid: pointer handlers and change notifications *)

Lemma paintCell_pending {num : Type} `{!Arith num} (w : World num) (index : nat)
    (erase : bool) :
  pendingChange (grid (paintCell w index erase)) = pendingChange (grid w)
  \/ pendingChange (grid (paintCell w index erase)) = true.
Proof.
  unfold paintCell.
  destruct (deref (store w) (grid_values (grid w)) !! index) as [v|];
    [|right; reflexivity].
  match goal with |- context [if ?b then _ else _] => destruct b end;
    [left|right]; reflexivity.
Qed.

Lemma ui_step_ok (rows cols : nat) (ui : GridUI xq) (ev : ui_event) :
  ui_ok rows cols ui ->
  ui_ok rows cols (ui_step ui ev)
  /\ (notified (ui_step ui ev) <= notified ui + frames_and_clears [ev])%nat.
Proof.
  intros [Hfr Hok].
  assert (Hpaint : forall (u : GridUI xq) index erase,
            ui_world u = ui_world ui -> framesRequested u = framesRequested ui ->
            ui_ok rows cols (ui_paintCell u index erase)
            /\ notified (ui_paintCell u index erase) = notified u).
  { intros u index erase Hw Hf. split; [|reflexivity]. unfold ui_ok, ui_paintCell. simpl.
    rewrite Hw, Hf. split.
    - destruct (paintCell_pending (ui_world ui) index erase) as [Hp|Hp]; rewrite Hp.
      + rewrite Hfr. destruct (pendingChange (grid (ui_world ui))); reflexivity.
      + rewrite Hfr. destruct (pendingChange (grid (ui_world ui))); reflexivity.
    - destruct erase.
      + exact (step_ok rows cols {| world := ui_world ui; handed := [] |} (Erase index) Hok).
      + exact (step_ok rows cols {| world := ui_world ui; handed := [] |} (Draw index) Hok). }
  destruct ev as [button buttons cell|cell| | | |]; cbn [ui_step].
  - unfold handlePointerDown, applyPointer. destruct cell as [index|].
    + destruct (Hpaint
        {| ui_world := ui_world ui; isDrawing := true;
           erasing := (button =? 2)%nat || (buttons =? 2)%nat;
           hasHandler := hasHandler ui; framesRequested := framesRequested ui;
           notified := notified ui |} index ((button =? 2)%nat || (buttons =? 2)%nat)
        eq_refl eq_refl) as [H1 _].
      split; [exact H1|]. simpl. lia.
    + split; [split; assumption|]. simpl. lia.
  - unfold handlePointerMove, applyPointer.
    destruct (isDrawing ui); [|split; [split; assumption|lia]].
    destruct cell as [index|]; [|split; [split; assumption|lia]].
    destruct (Hpaint ui index (erasing ui) eq_refl eq_refl) as [H1 _].
    split; [exact H1|]. simpl. lia.
  - split; [split; assumption|]. simpl. lia.
  - unfold animationFrame. destruct (pendingChange (grid (ui_world ui))) eqn:Hp;
      rewrite Hfr; simpl.
    + split; [|destruct (hasHandler ui); unfold frames_and_clears; simpl; lia].
      split; [reflexivity|]. exact (step_ok rows cols _ Frame Hok).
    + rewrite for_loop_0. split; [|lia]. split; [simpl; rewrite Hp; reflexivity|]. exact Hok.
  - split; [split; assumption|]. simpl. lia.
  - split; [|unfold ui_clear, frames_and_clears; simpl; destruct (hasHandler ui); lia].
    unfold ui_ok, ui_clear. simpl. split; [exact Hfr|].
    exact (step_ok rows cols _ Clear Hok).
Qed.

Lemma frames_and_clears_cons (ev : ui_event) (evs : list ui_event) :
  frames_and_clears (ev :: evs) = (frames_and_clears [ev] + frames_and_clears evs)%nat.
Proof. unfold frames_and_clears. destruct ev; simpl; lia. Qed.

Lemma ui_run_ok (rows cols : nat) (evs : list ui_event) (ui : GridUI xq) :
  ui_ok rows cols ui ->
  ui_ok rows cols (ui_run evs ui)
  /\ (notified (ui_run evs ui) <= notified ui + frames_and_clears evs)%nat.
Proof.
  revert ui. induction evs as [|ev evs IH]; intros ui Hok.
  - split; [exact Hok|]. unfold frames_and_clears. simpl. lia.
  - destruct (ui_step_ok rows cols ui ev Hok) as [H1 H2].
    destruct (IH _ H1) as [H3 H4].
    change (ui_run (ev :: evs) ui) with (ui_run evs (ui_step ui ev)).
    split; [exact H3|]. rewrite frames_and_clears_cons. lia.
Qed.

Lemma GridUI_new_ok (rows cols : nat) : ui_ok rows cols (GridUI_new rows cols).
Proof. split; [reflexivity|]. exact (session_new_ok rows cols). Qed.

(** X12.  At every moment of a grid that started empty, whatever the
    pointer events, animation frames, handler installations and clears
    were: one frame callback waits exactly when [pendingChange] is set,
    and none otherwise; the change handler has run at most once per
    animation frame and clear; and the pixel buffer has its [rows * cols]
    cells, each in [0, 1]. *)
Theorem change_notifications_bounded (rows cols : nat) (evs : list ui_event) :
  let ui := ui_run evs (GridUI_new rows cols) in
  framesRequested ui = (if pendingChange (grid (ui_world ui)) then 1 else 0)%nat
  /\ (notified ui <= frames_and_clears evs)%nat
  /\ length (ui_pixels ui) = (rows * cols)%nat
  /\ Forall in_unit (ui_pixels ui).
Proof.
  cbv zeta.
  destruct (ui_run_ok rows cols evs _ (GridUI_new_ok rows cols))
    as [[Hfr (_ & _ & Hlen & Hunit)] Hn].
  split; [exact Hfr|]. split; [exact Hn|]. split; [exact Hlen|exact Hunit].
Qed.

Lemma pointer_step_quiet {num : Type} `{!Arith num} (ui : GridUI num) (ev : ui_event) :
  is_pointer_event ev = true ->
  notified (ui_step ui ev) = notified ui /\ hasHandler (ui_step ui ev) = hasHandler ui.
Proof.
  destruct ev as [button buttons cell|cell| | | |]; try discriminate; intros _.
  - destruct cell; split; reflexivity.
  - cbn [ui_step]. unfold handlePointerMove. destruct (isDrawing ui); [|split; reflexivity].
    destruct cell; split; reflexivity.
  - split; reflexivity.
Qed.

Lemma pointer_run_quiet {num : Type} `{!Arith num} (evs : list ui_event) (ui : GridUI num) :
  Forall (fun ev => is_pointer_event ev = true) evs ->
  notified (ui_run evs ui) = notified ui /\ hasHandler (ui_run evs ui) = hasHandler ui.
Proof.
  revert ui. induction evs as [|ev evs IH]; intros ui Hevs; [split; reflexivity|].
  inversion Hevs as [|? ? Hev Hrest]; subst.
  change (ui_run (ev :: evs) ui) with (ui_run evs (ui_step ui ev)).
  destruct (IH (ui_step ui ev) Hrest) as [H1 H2].
  destruct (pointer_step_quiet ui ev Hev) as [H3 H4].
  split; congruence.
Qed.

(** X13.  The change handler is called once per animation frame however
    many cells were painted: after any pointer events the handler has not
    run yet; the next animation frame runs it once when a handler is
    installed and a cell changed since the last frame, and not at all
    otherwise; and it resets [pendingChange], leaves no callback waiting
    and does not touch the pixels. *)
Theorem one_notification_per_frame (rows cols : nat) (ui : GridUI xq)
    (evs : list ui_event) :
  ui_ok rows cols ui ->
  Forall (fun ev => is_pointer_event ev = true) evs ->
  let painted := ui_run evs ui in
  let shown := animationFrame painted in
  notified painted = notified ui
  /\ notified shown
     = (notified ui
        + if hasHandler ui && pendingChange (grid (ui_world painted)) then 1 else 0)%nat
  /\ pendingChange (grid (ui_world shown)) = false
  /\ framesRequested shown = 0%nat
  /\ ui_pixels shown = ui_pixels painted.
Proof.
  intros Hok Hevs. cbv zeta.
  destruct (pointer_run_quiet evs ui Hevs) as [Hn Hh].
  destruct (ui_run_ok rows cols evs ui Hok) as [[Hfr _] _].
  split; [exact Hn|].
  unfold animationFrame. rewrite Hfr.
  destruct (pendingChange (grid (ui_world (ui_run evs ui)))) eqn:Hp.
  - rewrite for_loop_S, for_loop_0. cbn [notified frameCallback ui_world hasHandler].
    rewrite Hh, Hn. split; [destruct (hasHandler ui); simpl; lia|].
    split; [reflexivity|]. split; reflexivity.
  - rewrite for_loop_0. cbn [notified ui_world]. rewrite Hn, Hp.
    split; [rewrite andb_false_r; lia|]. split; [reflexivity|]. split; reflexivity.
Qed.

(** A press on the first cell, two moves and a release, on a grid of one
    row and two columns with a handler. *)
Lemma one_notification_per_frame_witness :
  ui_ok 1 2 (setChangeHandler (GridUI_new 1 2))
  /\ Forall (fun ev => is_pointer_event ev = true)
       [PointerDown 0 1 (Some 0%nat); PointerMove (Some 1%nat);
        PointerMove (Some 0%nat); PointerUp]
  /\ notified (animationFrame
                 (ui_run [PointerDown 0 1 (Some 0%nat); PointerMove (Some 1%nat);
                          PointerMove (Some 0%nat); PointerUp]
                    (setChangeHandler (GridUI_new 1 2) : GridUI xq))) = 1%nat.
Proof.
  assert (Hok : ui_ok 1 2 (setChangeHandler (GridUI_new 1 2) : GridUI xq)).
  { split; [reflexivity|]. exact (session_new_ok 1 2). }
  assert (Hevs : Forall (fun ev => is_pointer_event ev = true)
                   [PointerDown 0 1 (Some 0%nat); PointerMove (Some 1%nat);
                    PointerMove (Some 0%nat); PointerUp])
    by (repeat constructor).
  split; [exact Hok|]. split; [exact Hevs|].
  destruct (one_notification_per_frame 1 2 _ _ Hok Hevs) as (_ & H & _).
  rewrite H. reflexivity.
Defined.

(** X14.  While no button is held ([isDrawing] is false, as at the start
    and after every [pointerup]) pointer moves do nothing: the grid, its
    flags and the waiting callbacks stay as they are. *)
Theorem moves_without_press_ignored {num : Type} `{!Arith num} (ui : GridUI num)
    (evs : list ui_event) :
  isDrawing ui = false ->
  Forall (fun ev => is_pointer_move ev = true) evs ->
  ui_run evs ui = ui.
Proof.
  intros Hd Hevs. induction Hevs as [|ev evs Hev _ IH]; [reflexivity|].
  change (ui_run (ev :: evs) ui) with (ui_run evs (ui_step ui ev)).
  destruct ev; try discriminate. cbn [ui_step]. unfold handlePointerMove.
  rewrite Hd. exact IH.
Qed.

(** Moves over both cells after a press and a release. *)
Lemma moves_without_press_ignored_witness :
  isDrawing (ui_run [PointerDown 0 1 (Some 0%nat); PointerUp] (GridUI_new 1 2 : GridUI xq))
  = false
  /\ Forall (fun ev => is_pointer_move ev = true)
       [PointerMove (Some 0%nat); PointerMove (Some 1%nat)]
  /\ ui_run [PointerMove (Some 0%nat); PointerMove (Some 1%nat)]
       (ui_run [PointerDown 0 1 (Some 0%nat); PointerUp] (GridUI_new 1 2 : GridUI xq))
     = ui_run [PointerDown 0 1 (Some 0%nat); PointerUp] (GridUI_new 1 2).
Proof.
  assert (Hd : isDrawing (ui_run [PointerDown 0 1 (Some 0%nat); PointerUp]
                            (GridUI_new 1 2 : GridUI xq)) = false) by reflexivity.
  assert (Hevs : Forall (fun ev => is_pointer_move ev = true)
                   [PointerMove (Some 0%nat); PointerMove (Some 1%nat)])
    by (repeat constructor).
  split; [exact Hd|]. split; [exact Hevs|].
  exact (moves_without_press_ignored _ _ Hd Hevs).
Defined.

(** ** initApp: updateNetwork and the reset button *)

Section AppProofs.
Context {num : Type} `{!Arith num}.
Variable exp : num -> num.
Variable toFixed1 : num -> string.

Lemma forward_rows_or_throws (net : MLPNetwork num) (pixels : list num) :
  one_row_per_neuron net \/ exists msg, forward net pixels = Throw (TypeError msg).
Proof.
  unfold one_row_per_neuron.
  destruct (Forall_Exists_dec
              (fun layer : Layer num => (length (biases layer) <= length (weights layer))%nat)
              (fun layer : Layer num => (length (weights layer) < length (biases layer))%nat)
              (fun layer => le_lt_dec _ _) (layers net)) as [Hall|Hex]; [left; exact Hall|].
  right. unfold forward.
  destruct (forward_fold_throws (layers net)
              ([normalize (normalization net) pixels], [],
               normalize (normalization net) pixels) Hex) as [msg ->].
  exists msg. reflexivity.
Qed.

Lemma deref_alloc (st : list (list num)) (arr : list num) :
  deref (st ++ [arr]) (length st) = arr.
Proof. unfold deref. rewrite lookup_app_r, Nat.sub_diag by lia. reflexivity. Qed.

Lemma deref_alloc_old (st : list (list num)) (arr : list num) (r : nat) :
  (r < length st)%nat -> deref (st ++ [arr]) r = deref st r.
Proof. intros Hr. unfold deref. rewrite lookup_app_l by exact Hr. reflexivity. Qed.

Lemma display_present (this : NetworkVisualizer num) (raw input : list num)
    (outs : list (list num)) :
  activations_present this (raw :: outs) (input :: outs).
Proof. intros L HL0 _ Hd. destruct L; [done|]. exact Hd. Qed.

(** The logits [updateNetwork] hands to [softmax]. *)
Lemma updateNetwork_spec (app : App num) :
  one_row_per_neuron (app_mlp app) ->
  let raw := Float32Array_from (ui_pixels (app_grid app)) in
  let input := normalized_input (normalization (app_mlp app)) raw in
  let outs := run_layers (layers (app_mlp app)) input in
  exists vis,
    update (app_vis app) (raw :: fst outs) (input :: fst outs) = Ok vis
    /\ updateNetwork exp toFixed1 app
       = Ok {| app_grid :=
                 set_ui_world (app_grid app) (fst (getPixels (ui_world (app_grid app))));
               app_mlp := app_mlp app;
               app_vis := vis;
               app_chart :=
                 PredictionChart_update toFixed1 (app_chart app)
                   (softmax exp (match last (snd outs) with
                                 | Some logits => logits
                                 | None => Float32Array_new 0
                                 end));
               app_updates := S (app_updates app) |}.
Proof.
  intros Hrows. cbv zeta.
  set (raw := Float32Array_from (ui_pixels (app_grid app))).
  set (input := normalized_input (normalization (app_mlp app)) raw).
  set (outs := run_layers (layers (app_mlp app)) input).
  destruct (update_spec (app_vis app) (raw :: fst outs) (input :: fst outs)
              (display_present _ _ _ _)) as (vis & Hvis & _).
  exists vis. split; [exact Hvis|].
  unfold updateNetwork, getPixels, alloc. cbv beta iota zeta. cbn [store fst].
  rewrite deref_alloc. fold (ui_pixels (app_grid app)). fold raw.
  rewrite (forward_spec (app_mlp app) raw Hrows). cbv zeta. fold input. fold outs.
  cbn [mbind result_bind activations preActivations drop].
  rewrite drop_0, Hvis. reflexivity.
Qed.

Lemma getPixels_keeps_grid (ui : GridUI num) :
  (grid_values (grid (ui_world ui)) < length (store (ui_world ui)))%nat ->
  let ui' := set_ui_world ui (fst (getPixels (ui_world ui))) in
  ui_pixels ui' = ui_pixels ui
  /\ grid (ui_world ui') = grid (ui_world ui)
  /\ (grid_values (grid (ui_world ui')) < length (store (ui_world ui')))%nat.
Proof.
  intros Hg. cbv zeta. unfold ui_pixels, set_ui_world, getPixels, alloc. simpl.
  split; [apply deref_alloc_old; exact Hg|]. split; [reflexivity|].
  rewrite length_app. simpl. lia.
Qed.

Lemma chart_update_idem (rows : list ChartRow) (probabilities : list num) :
  PredictionChart_update toFixed1 (PredictionChart_update toFixed1 rows probabilities)
    probabilities
  = PredictionChart_update toFixed1 rows probabilities.
Proof.
  destruct (PredictionChart_update_lookup toFixed1 rows probabilities) as [Hlen Hrows].
  destruct (PredictionChart_update_lookup toFixed1
              (PredictionChart_update toFixed1 rows probabilities) probabilities)
    as [Hlen' Hrows'].
  apply list_eq. intros i.
  destruct (rows !! i) as [entry|] eqn:Hi.
  - rewrite (Hrows' i _ (Hrows i entry Hi)), (Hrows i entry Hi).
    destruct (probabilities !! i); reflexivity.
  - apply lookup_ge_None in Hi.
    rewrite (proj2 (lookup_ge_None _ i)) by lia.
    rewrite (proj2 (lookup_ge_None _ i)) by lia. reflexivity.
Qed.

(** X15.  [updateNetwork] returns exactly when every layer of the
    network has a weight row for each of its biases, and throws a
    TypeError otherwise: [visualizer.update] never throws in it, because
    the display activations are built with an entry for each of the
    actual ones. *)
Theorem updateNetwork_returns_iff (app : App num) :
  (one_row_per_neuron (app_mlp app)
   <-> exists app', updateNetwork exp toFixed1 app = Ok app')
  /\ (~ one_row_per_neuron (app_mlp app)
      <-> exists msg, updateNetwork exp toFixed1 app = Throw (TypeError msg)).
Proof.
  assert (Hthrow : one_row_per_neuron (app_mlp app)
                   \/ exists msg, updateNetwork exp toFixed1 app = Throw (TypeError msg)).
  { destruct (forward_rows_or_throws (app_mlp app)
                (Float32Array_from (ui_pixels (app_grid app)))) as [Hrows|[msg Hmsg]];
      [left; exact Hrows|right].
    exists msg. unfold updateNetwork, getPixels, alloc. cbv beta iota zeta. cbn [store fst].
    rewrite deref_alloc. fold (ui_pixels (app_grid app)). rewrite Hmsg. reflexivity. }
  assert (Hok : one_row_per_neuron (app_mlp app) ->
            exists app', updateNetwork exp toFixed1 app = Ok app').
  { intros Hrows. destruct (updateNetwork_spec app Hrows) as (vis & _ & Hrun).
    eexists. exact Hrun. }
  split; split.
  - exact Hok.
  - intros [app' Hrun]. destruct Hthrow as [Hrows|[msg Hmsg]]; [exact Hrows|congruence].
  - intros Hnot. destruct Hthrow as [Hrows|Hmsg]; [done|exact Hmsg].
  - intros [msg Hmsg] Hrows. destruct (Hok Hrows) as [app' Hrun]. congruence.
Qed.

(** X16.  A run of [updateNetwork] on a network with a row for every
    neuron leaves the drawing and the flags of the grid as they are and
    keeps the network and the number of rows of the chart; it colours the
    neurons of the input layer from the raw pixels, with scale 1, whatever
    the normalisation of the network is, and touches nothing but the
    colours of that mesh; and with a network without layers the chart
    stays as it is. *)
Theorem updateNetwork_effect (app : App num) :
  (grid_values (grid (ui_world (app_grid app)))
   < length (store (ui_world (app_grid app))))%nat ->
  one_row_per_neuron (app_mlp app) ->
  exists app',
    updateNetwork exp toFixed1 app = Ok app'
    /\ ui_pixels (app_grid app') = ui_pixels (app_grid app)
    /\ grid (ui_world (app_grid app')) = grid (ui_world (app_grid app))
    /\ isDrawing (app_grid app') = isDrawing (app_grid app)
    /\ framesRequested (app_grid app') = framesRequested (app_grid app)
    /\ notified (app_grid app') = notified (app_grid app)
    /\ app_mlp app' = app_mlp app
    /\ app_updates app' = S (app_updates app)
    /\ length (app_chart app') = length (app_chart app)
    /\ (forall layer, layerMeshes (app_vis app) !! 0%nat = Some layer ->
        exists layer',
          layerMeshes (app_vis app') !! 0%nat = Some layer'
          /\ same_buffers (mesh layer) (mesh layer')
          /\ forall i v, Float32Array_from (ui_pixels (app_grid app)) !! i = Some v ->
               has_color (mesh layer') i (neuron_color v one))
    /\ (layers (app_mlp app) = [] -> app_chart app' = app_chart app).
Proof.
  intros Hg Hrows.
  pose proof (updateNetwork_spec app Hrows) as Hspec. cbv zeta in Hspec.
  set (raw := Float32Array_from (ui_pixels (app_grid app))) in *.
  set (input := normalized_input (normalization (app_mlp app)) raw) in *.
  set (outs := run_layers (layers (app_mlp app)) input) in *.
  destruct Hspec as (vis & Hvis & Hrun).
  destruct (update_spec (app_vis app) (raw :: fst outs) (input :: fst outs)
              (display_present _ _ _ _)) as (vis' & Hvis' & _ & _ & _ & _ & Hlayers & _).
  assert (vis' = vis) as -> by congruence.
  destruct (getPixels_keeps_grid (app_grid app) Hg) as (Hpix & Hgrid & _).
  eexists. split; [exact Hrun|]. cbn [app_grid app_mlp app_vis app_chart app_updates].
  split; [exact Hpix|]. split; [exact Hgrid|].
  split; [reflexivity|]. split; [reflexivity|]. split; [reflexivity|].
  split; [reflexivity|]. split; [reflexivity|].
  split; [apply PredictionChart_update_lookup|]. split.
  - intros layer Hlayer. destruct (Hlayers 0%nat layer Hlayer) as (layer' & Hl' & Hrec).
    exists layer'. split; [exact Hl'|].
    destruct Hrec as (_ & Hsame & _ & Hcol). split; [exact Hsame|].
    destruct (Hcol raw eq_refl) as (_ & scale & Hscale & Hcolors).
    injection Hscale as <-. exact Hcolors.
  - intros Hnil. subst outs. rewrite Hnil. reflexivity.
Qed.

(** X17.  A click on the reset button, on a network with a row for every
    neuron, returns with every pixel 0; [updateNetwork] has run twice
    when a change handler is installed (once from [clear], once from the
    click handler itself) and once otherwise; and the chart is the one
    that a single update for the empty drawing gives. *)
Theorem resetClick_effect (app : App num) :
  (grid_values (grid (ui_world (app_grid app)))
   < length (store (ui_world (app_grid app))))%nat ->
  one_row_per_neuron (app_mlp app) ->
  let n := length (ui_pixels (app_grid app)) in
  exists app' r,
    resetClick exp toFixed1 app = Ok app'
    /\ ui_pixels (app_grid app') = replicate n zero
    /\ app_updates app'
       = (app_updates app + if hasHandler (app_grid app) then 2 else 1)%nat
    /\ notified (app_grid app')
       = (notified (app_grid app) + if hasHandler (app_grid app) then 1 else 0)%nat
    /\ forward (app_mlp app) (Float32Array_from (replicate n zero)) = Ok r
    /\ app_chart app'
       = PredictionChart_update toFixed1 (app_chart app)
           (softmax exp (match last (preActivations r) with
                         | Some logits => logits
                         | None => Float32Array_new 0
                         end)).
Proof.
  intros Hg Hrows. cbv zeta.
  set (n := length (ui_pixels (app_grid app))).
  set (g := ui_clear (app_grid app)).
  assert (Hgpix : ui_pixels g = replicate n zero).
  { unfold g, ui_pixels, ui_clear, clear. simpl. unfold deref at 1.
    rewrite list_lookup_insert_eq by exact Hg. reflexivity. }
  assert (Hgg : (grid_values (grid (ui_world g)) < length (store (ui_world g)))%nat).
  { unfold g, ui_clear, clear. simpl. rewrite length_insert. exact Hg. }
  set (raw := Float32Array_from (replicate n zero)).
  pose (app1 := set_app_grid app g).
  pose proof (updateNetwork_spec app1 Hrows) as Hspec1. cbv zeta in Hspec1.
  change (app_grid app1) with g in Hspec1.
  change (app_mlp app1) with (app_mlp app) in Hspec1.
  change (app_chart app1) with (app_chart app) in Hspec1.
  change (app_updates app1) with (app_updates app) in Hspec1.
  rewrite Hgpix in Hspec1. fold raw in Hspec1.
  set (input := normalized_input (normalization (app_mlp app)) raw) in *.
  set (outs := run_layers (layers (app_mlp app)) input) in *.
  set (probabilities := softmax exp (match last (snd outs) with
                                     | Some logits => logits
                                     | None => Float32Array_new 0
                                     end)) in *.
  destruct Hspec1 as (vis1 & _ & Hrun1).
  destruct (getPixels_keeps_grid g Hgg) as (Hpix2 & _ & Hgg2).
  destruct (getPixels_keeps_grid _ Hgg2) as (Hpix3 & _ & _).
  match type of Hrun1 with _ = Ok ?a => set (app2 := a) in * end.
  pose proof (updateNetwork_spec app2 Hrows) as Hspec2. cbv zeta in Hspec2.
  cbn [app2 app_grid app_mlp app_chart app_updates] in Hspec2.
  rewrite Hpix2, Hgpix in Hspec2. fold raw input outs probabilities in Hspec2.
  destruct Hspec2 as (vis2 & _ & Hrun2).
  assert (Hforward : forward (app_mlp app) raw
                     = Ok {| normalizedInput := input;
                             activations := input :: fst outs;
                             preActivations := snd outs |})
    by exact (forward_spec (app_mlp app) raw Hrows).
  unfold resetClick. cbv zeta. fold g. fold app1.
  assert (Hhg : hasHandler g = hasHandler (app_grid app)) by reflexivity.
  assert (Hng : notified g
                = if hasHandler (app_grid app) then S (notified (app_grid app))
                  else notified (app_grid app)) by reflexivity.
  rewrite Hhg. destruct (hasHandler (app_grid app)).
  - rewrite Hrun1. cbn [mbind result_bind]. rewrite Hrun2.
    eexists. eexists. split; [reflexivity|].
    cbn [app_grid app_updates app_chart app2].
    split; [rewrite <- Hgpix, <- Hpix2; exact Hpix3|].
    split; [lia|]. split; [cbn [set_ui_world notified]; rewrite Hng; lia|].
    split; [exact Hforward|]. cbn [preActivations]. fold probabilities.
    apply chart_update_idem.
  - cbn [mbind result_bind]. rewrite Hrun1.
    eexists. eexists. split; [reflexivity|].
    cbn [app_grid app_updates app_chart app2].
    split; [rewrite <- Hgpix; exact Hpix2|].
    split; [lia|]. split; [cbn [set_ui_world notified]; rewrite Hng; lia|].
    split; [exact Hforward|]. reflexivity.
Qed.

End AppProofs.

(** A run of [updateNetwork] on the demo application. *)
Lemma updateNetwork_effect_witness :
  (grid_values (grid (ui_world (app_grid demo_app)))
   < length (store (ui_world (app_grid demo_app))))%nat
  /\ one_row_per_neuron (app_mlp demo_app)
  /\ exists app',
       updateNetwork (fun _ => one) toFixed1_q demo_app = Ok app'
       /\ app_updates app' = 1%nat
       /\ ui_pixels (app_grid app') = [zero; zero].
Proof.
  assert (Hg : (grid_values (grid (ui_world (app_grid demo_app)))
                < length (store (ui_world (app_grid demo_app))))%nat)
    by (simpl; lia).
  assert (Hrows : one_row_per_neuron (app_mlp demo_app)).
  { unfold one_row_per_neuron. repeat constructor. }
  split; [exact Hg|]. split; [exact Hrows|].
  destruct (updateNetwork_effect (fun _ => one) toFixed1_q demo_app Hg Hrows)
    as (app' & Hrun & Hpix & _ & _ & _ & _ & _ & Hupd & _).
  exists app'. split; [exact Hrun|]. split; [exact Hupd|]. rewrite Hpix. reflexivity.
Defined.

(** A click on reset in the demo application, whose handler is installed. *)
Lemma resetClick_effect_witness :
  (grid_values (grid (ui_world (app_grid demo_app)))
   < length (store (ui_world (app_grid demo_app))))%nat
  /\ one_row_per_neuron (app_mlp demo_app)
  /\ exists app',
       resetClick (fun _ => one) toFixed1_q demo_app = Ok app'
       /\ app_updates app' = 2%nat
       /\ notified (app_grid app') = 1%nat.
Proof.
  assert (Hg : (grid_values (grid (ui_world (app_grid demo_app)))
                < length (store (ui_world (app_grid demo_app))))%nat)
    by (simpl; lia).
  assert (Hrows : one_row_per_neuron (app_mlp demo_app)).
  { unfold one_row_per_neuron. repeat constructor. }
  split; [exact Hg|]. split; [exact Hrows|].
  destruct (resetClick_effect (fun _ => one) toFixed1_q demo_app Hg Hrows)
    as (app' & r & Hrun & _ & Hupd & Hn & _).
  exists app'. split; [exact Hrun|]. split; [exact Hupd|exact Hn].
Defined.

(** ** computeLayerPositions: the grid of a layer *)

Lemma ceil_sqrt_covers (n : nat) : (n <= ceil_sqrt n * ceil_sqrt n)%nat.
Proof.
  unfold ceil_sqrt. pose proof (Nat.sqrt_spec n ltac:(lia)) as Hs.
  destruct (Nat.eqb_spec (Nat.sqrt n * Nat.sqrt n) n) as [Heq|Hne]; [lia|].
  simpl in *. lia.
Qed.

Lemma ceil_div_le (n c : nat) : (n <= c * c)%nat -> (ceil_div n c <= c)%nat.
Proof.
  intros Hn. unfold ceil_div.
  destruct (Nat.eq_dec c 0) as [->|Hc]; [simpl in *; replace n with 0%nat by lia; reflexivity|].
  pose proof (Nat.div_mod_eq n c) as Hdm.
  pose proof (Nat.mod_upper_bound n c Hc) as Hmod.
  destruct (Nat.eqb_spec (n mod c) 0) as [Hz|Hnz]; nia.
Qed.

Section LayoutGrid.
Context {num : Type} `{!Arith num}.

(** One row of the input grid, started at a multiple of [cols]. *)
Lemma input_row_positions (n cols r : nat) (mk : nat -> nat -> Vector3 num) :
  (0 < cols)%nat -> (r * cols < n)%nat ->
  for_loop cols
    (fun col '(positions, filled) =>
       if (filled <? n)%nat then (positions ++ [mk r col], S filled)
       else (positions, filled))
    (map (fun index => mk (index / cols) (index mod cols))%nat (seq 0 (r * cols)),
     (r * cols)%nat)
  = (map (fun index => mk (index / cols) (index mod cols))%nat
       (seq 0 (Nat.min n (r * cols + cols))),
     Nat.min n (r * cols + cols)).
Proof.
  intros Hcols Hr.
  pose (pos := fun index => mk (index / cols)%nat (index mod cols)%nat).
  pose (body := fun (col : nat) (st : list (Vector3 num) * nat) =>
                  let '(positions, filled) := st in
                  if (filled <? n)%nat then (positions ++ [mk r col], S filled)
                  else (positions, filled)).
  change (for_loop cols body (map pos (seq 0 (r * cols)), (r * cols)%nat)
          = (map pos (seq 0 (Nat.min n (r * cols + cols))), Nat.min n (r * cols + cols))).
  cut (forall c, (c <= cols)%nat ->
         for_loop c body (map pos (seq 0 (r * cols)), (r * cols)%nat)
         = (map pos (seq 0 (Nat.min n (r * cols + c))), Nat.min n (r * cols + c))).
  { intros Hcut. apply Hcut. lia. }
  induction c as [|c IH]; intros Hc.
  - rewrite for_loop_0, Nat.add_0_r, Nat.min_r by lia. reflexivity.
  - rewrite for_loop_S, IH by lia. unfold body.
    destruct (Nat.ltb_spec (Nat.min n (r * cols + c)) n) as [Hlt|Hge].
    + rewrite (Nat.min_r n (r * cols + c)) by lia.
      rewrite (Nat.min_r n (r * cols + S c)) by lia.
      replace (r * cols + S c)%nat with (S (r * cols + c)) by lia.
      rewrite seq_S, map_app. simpl. unfold pos at 3.
      rewrite Nat.div_add_l, Nat.div_small, Nat.add_0_r by lia.
      rewrite Nat.add_comm, Nat.Div0.mod_add, Nat.mod_small by lia.
      rewrite (Nat.add_comm c). reflexivity.
    + rewrite (Nat.min_l n (r * cols + c)) by lia.
      rewrite (Nat.min_l n (r * cols + S c)) by lia. reflexivity.
Qed.

Lemma input_rows_positions (n rows cols : nat) (mk : nat -> nat -> Vector3 num) :
  (0 < cols)%nat -> (n <= rows * cols)%nat ->
  fst (for_loop rows
         (fun row st =>
            if (snd st <? n)%nat then
              for_loop cols
                (fun col '(positions, filled) =>
                   if (filled <? n)%nat then (positions ++ [mk row col], S filled)
                   else (positions, filled))
                st
            else st)
         ([], 0%nat))
  = map (fun index => mk (index / cols) (index mod cols))%nat (seq 0 n).
Proof.
  intros Hcols Hn.
  pose (pos := fun index => mk (index / cols)%nat (index mod cols)%nat).
  match goal with
  | |- fst (for_loop rows ?body ?init) = _ =>
      cut (forall r, (r <= rows)%nat ->
             for_loop r body init
             = (map pos (seq 0 (Nat.min n (r * cols))), Nat.min n (r * cols)))
  end.
  { intros Hcut. rewrite (Hcut rows) by lia. simpl. rewrite Nat.min_l by lia. reflexivity. }
  induction r as [|r IH]; intros Hr.
  - rewrite for_loop_0. simpl. rewrite Nat.min_r by lia. reflexivity.
  - rewrite for_loop_S, IH by lia. cbn [snd].
    destruct (Nat.ltb_spec (Nat.min n (r * cols)) n) as [Hlt|Hge].
    + rewrite (Nat.min_r n (r * cols)) by lia. unfold pos.
      rewrite (input_row_positions n cols r mk Hcols) by lia.
      replace (S r * cols)%nat with (r * cols + cols)%nat by lia. reflexivity.
    + rewrite (Nat.min_l n (r * cols)) by lia.
      rewrite (Nat.min_l n (S r * cols)) by lia. reflexivity.
Qed.

Lemma computeLayerPositions_grid (this : NetworkVisualizer num) (layerIndex n : nat)
    (layerX : num) :
  let spacing := if (layerIndex =? 0)%nat then inputSpacing (options this)
                 else hiddenSpacing (options this) in
  let cols := ceil_sqrt n in
  let rows := ceil_div n cols in
  computeLayerPositions this layerIndex n layerX
  = map (fun index =>
           grid_position spacing ((of_nat rows ⊖ one) ⊗ spacing)
             ((of_nat cols ⊖ one) ⊗ spacing) layerX (index / cols) (index mod cols))
      (seq 0 n).
Proof.
  cbv zeta.
  assert (Hcover : (n <= ceil_div n (ceil_sqrt n) * ceil_sqrt n)%nat).
  { destruct n as [|n]; [lia|]. apply ceil_div_covers, ceil_sqrt_pos. lia. }
  unfold computeLayerPositions. destruct (layerIndex =? 0)%nat.
  - unfold input_positions.
    destruct (Nat.eqb_spec n (28 * 28)) as [->|Hne].
    + change (ceil_sqrt (28 * 28)) with 28%nat.
      change (ceil_div (28 * 28) 28) with 28%nat.
      cbv beta iota zeta. cbn [count_num].
      apply (input_rows_positions (28 * 28) 28 28
               (fun row col =>
                  grid_position (inputSpacing (options this))
                    ((of_nat 28 ⊖ one) ⊗ inputSpacing (options this))
                    ((of_nat 28 ⊖ one) ⊗ inputSpacing (options this)) layerX row col));
        lia.
    + destruct (Nat.eqb_spec (ceil_sqrt n) 0) as [Hz|Hnz].
      * assert (n = 0)%nat as ->.
        { destruct n as [|n]; [reflexivity|].
          pose proof (ceil_sqrt_pos (S n) ltac:(lia)). lia. }
        reflexivity.
      * cbv beta iota zeta. cbn [count_num].
        apply (input_rows_positions n (ceil_div n (ceil_sqrt n)) (ceil_sqrt n)
                 (fun row col =>
                    grid_position (inputSpacing (options this))
                      ((of_nat (ceil_div n (ceil_sqrt n)) ⊖ one) ⊗ inputSpacing (options this))
                      ((of_nat (ceil_sqrt n) ⊖ one) ⊗ inputSpacing (options this))
                      layerX row col)); [lia|exact Hcover].
  - unfold hidden_positions. cbv zeta.
    destruct n as [|n]; [reflexivity|].
    pose proof (ceil_sqrt_pos (S n) ltac:(lia)) as Hpos.
    rewrite (Nat.max_r 1 (ceil_sqrt (S n))) by lia.
    rewrite (push_loop
      (fun index =>
         grid_position (hiddenSpacing (options this))
           ((of_nat (ceil_div (S n) (ceil_sqrt (S n))) ⊖ one) ⊗ hiddenSpacing (options this))
           ((of_nat (ceil_sqrt (S n)) ⊖ one) ⊗ hiddenSpacing (options this)) layerX
           (index / ceil_sqrt (S n)) (index mod ceil_sqrt (S n)))).
    reflexivity.
Qed.

(** X18.  Both branches of [computeLayerPositions] lay the neurons of a
    layer out in the same way: neuron [index] is at row [index / cols]
    and column [index % cols] of a grid of [cols = ceil(sqrt(n))] columns
    and [rows = ceil(n / cols)] rows, centred on the axis of the layer,
    with the spacing of the input layer or of the hidden layers.  The
    special case for [28 * 28] neurons and the [Math.max(1, .)] of the
    hidden layers change nothing; the grid has room for every neuron and
    is never taller than wide. *)
Theorem layout_row_major (this : NetworkVisualizer num) (layerIndex n : nat)
    (layerX : num) :
  let spacing := if (layerIndex =? 0)%nat then inputSpacing (options this)
                 else hiddenSpacing (options this) in
  let cols := ceil_sqrt n in
  let rows := ceil_div n cols in
  computeLayerPositions this layerIndex n layerX
  = map (fun index =>
           grid_position spacing ((of_nat rows ⊖ one) ⊗ spacing)
             ((of_nat cols ⊖ one) ⊗ spacing) layerX (index / cols) (index mod cols))
      (seq 0 n)
  /\ (n <= rows * cols)%nat
  /\ (rows <= cols)%nat.
Proof.
  cbv zeta. split; [apply computeLayerPositions_grid|]. split.
  - destruct n as [|n]; [lia|]. apply ceil_div_covers, ceil_sqrt_pos. lia.
  - apply ceil_div_le, ceil_sqrt_covers.
Qed.

End LayoutGrid.

(** A coordinate of the grid on the extended rationals: rows (or
    columns) with the same coordinate are the same when the spacing is
    not 0. *)
Lemma row_coordinate_inj (h s : Q) (a b : nat) :
  ~ (s == 0)%Q ->
  Qred (h + Qred (- Qred (Qred (inject_Z (Z.of_nat a)) * s)))
  = Qred (h + Qred (- Qred (Qred (inject_Z (Z.of_nat b)) * s))) ->
  a = b.
Proof.
  intros Hs Heq.
  apply Qred_eq_iff in Heq. rewrite !Qred_correct in Heq.
  apply Qplus_inj_l in Heq.
  assert (Hm : (inject_Z (Z.of_nat a) * s == inject_Z (Z.of_nat b) * s)%Q).
  { rewrite <- (Qopp_involutive (inject_Z (Z.of_nat a) * s)), Heq, Qopp_involutive.
    reflexivity. }
  apply Qmult_inj_r in Hm; [|exact Hs].
  unfold Qeq in Hm. simpl in Hm. lia.
Qed.

Lemma column_coordinate_inj (h s : Q) (a b : nat) :
  ~ (s == 0)%Q ->
  Qred (h + Qred (Qred (inject_Z (Z.of_nat a)) * s))
  = Qred (h + Qred (Qred (inject_Z (Z.of_nat b)) * s)) ->
  a = b.
Proof.
  intros Hs Heq.
  apply Qred_eq_iff in Heq. rewrite !Qred_correct in Heq.
  apply Qplus_inj_l in Heq.
  apply Qmult_inj_r in Heq; [|exact Hs].
  unfold Qeq in Heq. simpl in Heq. lia.
Qed.

(** X19.  With a spacing that is a number other than 0, no two neurons
    of a layer are at the same place, and all of them are in the plane
    [x = layerX]. *)
Theorem layer_positions_distinct (this : NetworkVisualizer xq) (layerIndex n : nat)
    (layerX : xq) (s : Q) :
  (if (layerIndex =? 0)%nat then inputSpacing (options this)
   else hiddenSpacing (options this)) = Fin s ->
  ~ (s == 0)%Q ->
  NoDup (computeLayerPositions this layerIndex n layerX)
  /\ Forall (fun p => vx p = layerX) (computeLayerPositions this layerIndex n layerX).
Proof.
  intros Hspacing Hs.
  pose proof (computeLayerPositions_grid this layerIndex n layerX) as Hgrid.
  cbv zeta in Hgrid. rewrite Hspacing in Hgrid. rewrite Hgrid. clear Hgrid.
  set (cols := ceil_sqrt n).
  set (rows := ceil_div n cols).
  assert (Hcols : (0 < n -> 0 < cols)%nat) by apply ceil_sqrt_pos.
  split.
  - match goal with
    | |- NoDup (map ?f (seq 0 n)) => change (NoDup (f <$> seq 0 n))
    end.
    apply NoDup_fmap_2_strong; [|apply NoDup_seq].
    intros i j Hi Hj Heq.
    apply elem_of_seq in Hi, Hj.
    unfold grid_position in Heq. injection Heq as Hy Hz.
    assert (Hrow : (i / cols = j / cols)%nat)
      by exact (row_coordinate_inj _ s _ _ Hs Hy).
    assert (Hcol : (i mod cols = j mod cols)%nat)
      by exact (column_coordinate_inj _ s _ _ Hs Hz).
    rewrite (Nat.div_mod_eq i cols), (Nat.div_mod_eq j cols), Hrow, Hcol. reflexivity.
  - apply Forall_forall. intros p Hp. apply list_elem_of_In in Hp.
    apply in_map_iff in Hp as (i & <- & _). reflexivity.
Qed.

(** The input layer of the demo scene with three neurons. *)
Lemma layer_positions_distinct_witness :
  (if (0 =? 0)%nat then inputSpacing (options demo_vis)
   else hiddenSpacing (options demo_vis)) = Fin (8 # 25)
  /\ ~ (8 # 25 == 0)%Q
  /\ NoDup (computeLayerPositions demo_vis 0 3 zero).
Proof.
  assert (H1 : (if (0 =? 0)%nat then inputSpacing (options demo_vis)
                else hiddenSpacing (options demo_vis)) = Fin (8 # 25))
    by reflexivity.
  assert (H2 : ~ (8 # 25 == 0)%Q) by discriminate.
  split; [exact H1|]. split; [exact H2|].
  exact (proj1 (layer_positions_distinct demo_vis 0 3 zero (8 # 25) H1 H2)).
Defined.

(** ** NetworkVisualizer: the construction of the scene *)

Section SceneProofs.
Context {num : Type} `{!Arith num}.
Variable node_matrix : Vector3 num -> list num.
Variable connection_matrix : Vector3 num -> Vector3 num -> list num.

Lemma matrix_stores_length (index : nat) (matrix arr : list num) :
  length (for_loop 16 (fun k a => <[(index * 16 + k)%nat := fround (idx matrix k)]> a) arr)
  = length arr.
Proof.
  apply (for_loop_ind (fun _ a => length a = length arr)); [reflexivity|].
  intros i a _ Ha. rewrite length_insert. exact Ha.
Qed.

Lemma built_upto_step (m0 m : InstancedMesh num) (k : nat) (c : Color num)
    (matrix : list num) :
  built_upto m0 k c m ->
  built_upto m0 (S k) c (setColorAt (setMatrixAt m k matrix) k c).
Proof.
  intros (Hg & Hm & Hc & Hlm & Hlc & Hnm & Hnc & Hcol).
  destruct (setColorAt_spec (setMatrixAt m k matrix) k c)
    as ((Sg & Sm & Sc & Smat & Slen) & Sdirty & Sk & Sbelow).
  unfold built_upto.
  split; [rewrite Sg; exact Hg|]. split; [rewrite Sm; exact Hm|].
  split; [rewrite Sc; exact Hc|].
  split; [rewrite Smat; simpl; rewrite matrix_stores_length; exact Hlm|].
  split; [rewrite Slen; exact Hlc|].
  split; [rewrite Smat; exact Hnm|]. split; [rewrite Sdirty; exact Hnc|].
  intros j Hj. destruct (Nat.eq_dec j k) as [->|Hne]; [exact Sk|].
  apply Sbelow; [lia|]. apply Hcol. lia.
Qed.

Lemma built_upto_fresh (geometry' material' n : nat) (c : Color num)
    (m : InstancedMesh num) :
  built_upto (InstancedMesh_new geometry' material' n) n c m ->
  fresh_mesh (mark_updated m) n c
  /\ geometry (mark_updated m) = geometry' /\ material (mark_updated m) = material'.
Proof.
  intros (Hg & Hm & Hc & Hlm & Hlc & _ & _ & Hcol).
  unfold fresh_mesh, mark_updated, has_color in *. simpl in *.
  unfold Float32Array_new in *. rewrite length_replicate in Hlm, Hlc.
  repeat split; try assumption.
Qed.

Lemma build_layer_spec (this : NetworkVisualizer num) (geometry' material' : nat)
    (startX : num) (layerIndex neuronCount : nat) :
  let layer := fst (build_layer node_matrix this geometry' material' startX layerIndex
                      neuronCount) in
  positions layer
  = computeLayerPositions this layerIndex neuronCount
      (startX ⊕ of_nat layerIndex ⊗ layerSpacing (options this))
  /\ fresh_mesh (mesh layer) neuronCount (setRGB (8 # 100) (1 # 10) (18 # 100))
  /\ geometry (mesh layer) = geometry' /\ material (mesh layer) = material'.
Proof.
  cbv zeta. unfold build_layer.
  set (layerX := startX ⊕ of_nat layerIndex ⊗ layerSpacing (options this)).
  set (positions' := computeLayerPositions this layerIndex neuronCount layerX).
  set (base := setRGB (8 # 100) (1 # 10) (18 # 100)).
  set (m0 := InstancedMesh_new geometry' material' neuronCount).
  assert (Hlen : length positions' = neuronCount).
  { unfold positions', computeLayerPositions.
    destruct (layerIndex =? 0)%nat;
      [apply input_positions_length|apply hidden_positions_length]. }
  pose (g := fun (instanceIndex : nat) (position : Vector3 num)
                 (st : InstancedMesh num * Color num) =>
               (setColorAt (setMatrixAt (fst st) instanceIndex (node_matrix position))
                  instanceIndex base, base)).
  match goal with
  | |- context [foldl ?f (m0, tempColor this) (imap pair positions')] =>
      assert (Hfold : foldl f (m0, tempColor this) (imap pair positions')
                = for_loop (length positions')
                    (fun i st => match positions' !! i with
                                 | Some x => g i x st
                                 | None => st
                                 end) (m0, tempColor this))
  end.
  { rewrite <- foldl_imap_pair. apply foldl_ext_In. intros [m t] [i x] _. reflexivity. }
  rewrite Hfold. clear Hfold.
  assert (Hloop : built_upto m0 (length positions') base
                    (fst (for_loop (length positions')
                            (fun i st => match positions' !! i with
                                         | Some x => g i x st
                                         | None => st
                                         end) (m0, tempColor this)))).
  { apply (for_loop_ind (fun k st => built_upto m0 k base (fst st))).
    - unfold built_upto. simpl. repeat split; try reflexivity. intros j Hj. lia.
    - intros i st Hi Hst. destruct (lookup_lt_is_Some_2 positions' i Hi) as [x Hx].
      rewrite Hx. unfold g. cbn [fst]. apply built_upto_step. exact Hst. }
  destruct (for_loop (length positions') _ (m0, tempColor this)) as [m tc].
  rewrite Hlen in Hloop. cbn [fst mesh positions] in *.
  split; [reflexivity|]. apply built_upto_fresh. exact Hloop.
Qed.

Lemma buildLayers_spec (this : NetworkVisualizer num) (next : nat) :
  layerMeshes this = [] ->
  let this' := fst (buildLayers node_matrix this next) in
  let startX :=
    neg ((of_nat (length (architecture (mlp this))) ⊖ one) ⊗ layerSpacing (options this))
    ⊘ lit 2 in
  mlp this' = mlp this /\ options this' = options this
  /\ connectionGroups this' = connectionGroups this
  /\ snd (buildLayers node_matrix this next)
     = (next + 2 + length (architecture (mlp this)))%nat
  /\ length (layerMeshes this') = length (architecture (mlp this))
  /\ forall L n, architecture (mlp this) !! L = Some n ->
       exists layer,
         layerMeshes this' !! L = Some layer
         /\ positions layer
            = computeLayerPositions this L n
                (startX ⊕ of_nat L ⊗ layerSpacing (options this))
         /\ fresh_mesh (mesh layer) n (setRGB (8 # 100) (1 # 10) (18 # 100))
         /\ geometry (mesh layer) = next
         /\ material (mesh layer) = (next + 2 + L)%nat.
Proof.
  intros Hempty. cbv zeta. unfold buildLayers.
  set (arch := architecture (mlp this)).
  set (startX := neg ((of_nat (length arch) ⊖ one) ⊗ layerSpacing (options this)) ⊘ lit 2).
  set (base := setRGB (8 # 100) (1 # 10) (18 # 100)).
  pose (g := fun (layerIndex neuronCount : nat) (st : NetworkVisualizer num * nat) =>
               let built := build_layer node_matrix (fst st) next (snd st) startX
                              layerIndex neuronCount in
               (push_layer (fst st) (fst built) (snd built), S (snd st))).
  match goal with
  | |- context [foldl ?f (this, S (S next)) (imap pair arch)] =>
      assert (Hfold : foldl f (this, S (S next)) (imap pair arch)
                = for_loop (length arch)
                    (fun i st => match arch !! i with
                                 | Some x => g i x st
                                 | None => st
                                 end) (this, S (S next)))
  end.
  { rewrite <- foldl_imap_pair. apply foldl_ext_In. intros [t nx] [i x] _.
    unfold g. cbn [fst snd]. destruct (build_layer _ _ _ _ _ _ _). reflexivity. }
  rewrite Hfold. clear Hfold.
  pose (P := fun (k : nat) (st : NetworkVisualizer num * nat) =>
               mlp (fst st) = mlp this /\ options (fst st) = options this
               /\ connectionGroups (fst st) = connectionGroups this
               /\ snd st = (next + 2 + k)%nat
               /\ length (layerMeshes (fst st)) = k
               /\ forall L n, (L < k)%nat -> arch !! L = Some n ->
                    exists layer,
                      layerMeshes (fst st) !! L = Some layer
                      /\ positions layer
                         = computeLayerPositions this L n
                             (startX ⊕ of_nat L ⊗ layerSpacing (options this))
                      /\ fresh_mesh (mesh layer) n base
                      /\ geometry (mesh layer) = next
                      /\ material (mesh layer) = (next + 2 + L)%nat).
  assert (HP : P (length arch)
                 (for_loop (length arch)
                    (fun i st => match arch !! i with
                                 | Some x => g i x st
                                 | None => st
                                 end) (this, S (S next)))).
  { apply (for_loop_ind P).
    - unfold P. simpl. rewrite Hempty. repeat split; try reflexivity; try lia.
    - intros k [t nx] Hk (Hmlp & Hopt & Hgr & Hnx & Hlen & Hlayers).
      destruct (lookup_lt_is_Some_2 arch k Hk) as [n Hn]. rewrite Hn.
      cbn [fst snd] in *. unfold g, P. cbn [fst snd push_layer mlp options
        connectionGroups layerMeshes].
      destruct (build_layer_spec t next nx startX k n) as (Hpos & Hfresh & Hgeo & Hmat).
      split; [exact Hmlp|]. split; [exact Hopt|]. split; [exact Hgr|].
      split; [lia|]. split; [rewrite length_app; simpl; lia|].
      intros L n' HL HL'. destruct (Nat.eq_dec L k) as [->|Hne].
      + rewrite Hn in HL'. injection HL' as <-.
        eexists. split; [rewrite lookup_app_r, Hlen, Nat.sub_diag by lia; reflexivity|].
        split; [|split; [exact Hfresh|split; [exact Hgeo|lia]]].
        rewrite Hpos. unfold computeLayerPositions. rewrite Hopt. reflexivity.
      + destruct (Hlayers L n' ltac:(lia) HL') as (layer & Hl & Hrest).
        exists layer. split; [|exact Hrest].
        rewrite lookup_app_l by lia. exact Hl. }
  destruct HP as (Hmlp & Hopt & Hgr & Hnx & Hlen & Hlayers).
  split; [exact Hmlp|]. split; [exact Hopt|]. split; [exact Hgr|].
  split; [exact Hnx|]. split; [exact Hlen|].
  intros L n HL. apply Hlayers; [|exact HL]. apply lookup_lt_Some in HL. exact HL.
Qed.

Lemma for_loopM_S {S : Type} (n : nat) (body : nat -> S -> result S) (s : S) :
  for_loopM (Datatypes.S n) body s = for_loopM n body s ≫= body n.
Proof. unfold for_loopM. rewrite seq_S, foldl_app. reflexivity. Qed.

(** What a loop that returned has done. *)
Lemma for_loopM_inv {S : Type} (P : nat -> S -> Prop) (n : nat)
    (body : nat -> S -> result S) (s s' : S) :
  P 0%nat s ->
  (forall i si si', (i < n)%nat -> P i si -> body i si = Ok si' -> P (Datatypes.S i) si') ->
  for_loopM n body s = Ok s' ->
  P n s' /\ forall i, (i < n)%nat -> exists si si', P i si /\ body i si = Ok si'.
Proof.
  intros H0 Hstep. revert s'. induction n as [|n IH]; intros s' Hrun.
  - injection Hrun as <-. split; [exact H0|]. intros i Hi. lia.
  - rewrite for_loopM_S in Hrun.
    destruct (for_loopM n body s) as [s1|e] eqn:H1; [|discriminate].
    cbn in Hrun.
    destruct (IH ltac:(intros i si si' Hi; apply Hstep; lia) s1 eq_refl) as [HP Hall].
    split; [apply (Hstep n s1); [lia|exact HP|exact Hrun]|].
    intros i Hi. destruct (Nat.eq_dec i n) as [->|Hne].
    + exists s1, s'. split; [exact HP|exact Hrun].
    + apply Hall. lia.
Qed.

(** A loop whose body throws TypeErrors only throws TypeErrors only. *)
Lemma for_loopM_TypeError {S : Type} (n : nat) (body : nat -> S -> result S) (s : S)
    (e : exn) :
  (forall i si e, (i < n)%nat -> body i si = Throw e -> exists msg, e = TypeError msg) ->
  for_loopM n body s = Throw e -> exists msg, e = TypeError msg.
Proof.
  intros Hbody. induction n as [|n IH]; intros Hrun; [discriminate|].
  rewrite for_loopM_S in Hrun.
  destruct (for_loopM n body s) as [s1|e1] eqn:H1.
  - cbn in Hrun. apply (Hbody n s1); [lia|exact Hrun].
  - cbn in Hrun. injection Hrun as <-. apply IH; [|reflexivity].
    intros i si e' Hi. apply Hbody. lia.
Qed.

Lemma connection_instance_cases (this : NetworkVisualizer num) (layerIndex : nat)
    (connection : Connection num) (instanceIndex : nat)
    (st : InstancedMesh num * Color num) :
  (positions_present this layerIndex connection
   /\ exists matrix,
        connection_instance connection_matrix this layerIndex connection instanceIndex st
        = Ok (setColorAt (setMatrixAt (fst st) instanceIndex matrix) instanceIndex
                (setRGB (1 # 10) (12 # 100) (18 # 100)),
              setRGB (1 # 10) (12 # 100) (18 # 100)))
  \/ (~ positions_present this layerIndex connection
      /\ exists msg,
           connection_instance connection_matrix this layerIndex connection instanceIndex st
           = Throw (TypeError msg)).
Proof.
  unfold connection_instance, positions_present.
  destruct (layerMeshes this !! layerIndex) as [sm|] eqn:Hsm.
  2: { right. split; [intros (? & ? & ? & _); discriminate|eexists; reflexivity]. }
  destruct (layerMeshes this !! S layerIndex) as [tm|] eqn:Htm.
  2: { right. split; [intros (? & ? & _ & ? & _); discriminate|eexists; reflexivity]. }
  destruct (positions tm !! targetIndex connection) as [tp|] eqn:Htp.
  2: { right. split; [|eexists; reflexivity].
       intros (? & tm' & _ & Ht & _ & [x Hx]). injection Ht as <-. congruence. }
  destruct (positions sm !! sourceIndex connection) as [sp|] eqn:Hsp.
  2: { right. split; [|eexists; reflexivity].
       intros (sm' & ? & Hs & _ & [x Hx] & _). injection Hs as <-. congruence. }
  left. split; [|eexists; reflexivity].
  exists sm, tm. rewrite Hsp, Htp. repeat split; eexists; reflexivity.
Qed.

Lemma for_loopM_Throw_inv {S : Type} (P : nat -> S -> Prop) (n : nat)
    (body : nat -> S -> result S) (s : S) (e : exn) :
  P 0%nat s ->
  (forall i si si', (i < n)%nat -> P i si -> body i si = Ok si' -> P (Datatypes.S i) si') ->
  for_loopM n body s = Throw e ->
  exists i si, (i < n)%nat /\ P i si /\ body i si = Throw e.
Proof.
  intros H0 Hstep. induction n as [|n IH]; intros Hrun; [discriminate|].
  rewrite for_loopM_S in Hrun.
  destruct (for_loopM n body s) as [s1|e1] eqn:H1.
  - cbn in Hrun. exists n, s1. split; [lia|]. split; [|exact Hrun].
    apply (for_loopM_inv P n body s s1 H0); [|exact H1].
    intros i si si' Hi. apply Hstep. lia.
  - cbn in Hrun. injection Hrun as <-.
    destruct (IH ltac:(intros i si si' Hi; apply Hstep; lia) eq_refl)
      as (i & si & Hi & HP & Hb).
    exists i, si. split; [lia|]. split; [exact HP|exact Hb].
Qed.

(** The instances of one group. *)
Lemma group_instances (this : NetworkVisualizer num) (layerIndex : nat)
    (sel : list (Connection num)) (m0 : InstancedMesh num) (tc : Color num) :
  match forEachM sel (connection_instance connection_matrix this layerIndex) (m0, tc) with
  | Ok st =>
      (forall c, In c sel -> positions_present this layerIndex c)
      /\ built_upto m0 (length sel) (setRGB (1 # 10) (12 # 100) (18 # 100)) (fst st)
  | Throw e =>
      (exists msg, e = TypeError msg)
      /\ exists c, In c sel /\ ~ positions_present this layerIndex c
  end.
Proof.
  rewrite forEachM_for_loopM.
  set (base := setRGB (1 # 10) (12 # 100) (18 # 100)).
  set (body := fun i (s : InstancedMesh num * Color num) =>
                 match sel !! i with
                 | Some x => connection_instance connection_matrix this layerIndex x i s
                 | None => Ok s
                 end).
  destruct (for_loopM (length sel) body (m0, tc)) as [st|e] eqn:Hrun.
  - destruct (for_loopM_inv (fun k st => built_upto m0 k base (fst st))
                (length sel) body (m0, tc) st) as [HP Hall].
    + unfold built_upto. simpl. repeat split; try reflexivity. intros j Hj. lia.
    + intros i si si' Hi Hsi Hb. unfold body in Hb.
      destruct (lookup_lt_is_Some_2 sel i Hi) as [c Hc]. rewrite Hc in Hb.
      destruct (connection_instance_cases this layerIndex c i si)
        as [[_ [matrix Hm]]|[_ [msg Hm]]]; [|congruence].
      rewrite Hm in Hb. injection Hb as <-. cbn [fst].
      apply built_upto_step. exact Hsi.
    + exact Hrun.
    + split; [|exact HP]. intros c Hc.
      apply list_elem_of_In, list_elem_of_lookup in Hc as [i Hi].
      destruct (Hall i (lookup_lt_Some _ _ _ Hi)) as (si & si' & _ & Hb).
      unfold body in Hb. rewrite Hi in Hb.
      destruct (connection_instance_cases this layerIndex c i si)
        as [[Hp _]|[_ [msg Hm]]]; [exact Hp|congruence].
  - split.
    + apply (for_loopM_TypeError (length sel) body (m0, tc) e); [|exact Hrun].
      intros i si e' Hi Hb. unfold body in Hb.
      destruct (sel !! i) as [c|]; [|discriminate].
      destruct (connection_instance_cases this layerIndex c i si)
        as [[_ [matrix Hm]]|[_ [msg Hm]]]; [congruence|].
      exists msg. congruence.
    + destruct (for_loopM_Throw_inv (fun _ _ => True) _ _ _ _ I
                  ltac:(intros; exact I) Hrun) as (i & si & Hi & _ & Hb).
      unfold body in Hb. destruct (sel !! i) as [c|] eqn:Hc; [|discriminate].
      exists c. split; [apply list_elem_of_In, list_elem_of_lookup; exists i; exact Hc|].
      destruct (connection_instance_cases this layerIndex c i si)
        as [[_ [matrix Hm]]|[Hn _]]; [congruence|exact Hn].
Qed.

Lemma positions_present_layers (this this' : NetworkVisualizer num) (layerIndex : nat)
    (connection : Connection num) :
  layerMeshes this' = layerMeshes this ->
  positions_present this' layerIndex connection
  <-> positions_present this layerIndex connection.
Proof. intros Hl. unfold positions_present. rewrite Hl. reflexivity. Qed.

Lemma filter_seq_S (f : nat -> bool) (k : nat) :
  List.filter f (seq 0 (S k)) = List.filter f (seq 0 k) ++ (if f k then [k] else []).
Proof. rewrite seq_S, List.filter_app. simpl. destruct (f k); reflexivity. Qed.

(** One layer of [buildConnections]. *)
Lemma buildConnections_step (this : NetworkVisualizer num) (next k : nat)
    (layer : Layer num) (st : NetworkVisualizer num * nat) :
  layers (mlp this) !! k = Some layer ->
  groups_upto this next k st ->
  let sel := findImportantConnections (maxConnectionsPerNeuron (options (fst st))) layer in
  match
    match selected sel with
    | [] => Ok st
    | _ =>
        r ← forEachM (selected sel) (connection_instance connection_matrix (fst st) k)
              (InstancedMesh_new next (snd st) (length (selected sel)), tempColor (fst st));
        Ok (push_group (fst st)
              {| group_mesh := mark_updated (fst r);
                 connections := selected sel;
                 sourceLayer := k;
                 maxAbsWeight := sel_maxAbsWeight sel |}
              (snd r),
            S (snd st))
    end
  with
  | Ok st' => groups_upto this next (S k) st'
  | Throw e =>
      (exists msg, e = TypeError msg)
      /\ exists c, In c (selected (findImportantConnections
                                    (maxConnectionsPerNeuron (options this)) layer))
                   /\ ~ positions_present this k c
  end.
Proof.
  intros Hlayer (Hmlp & Hopt & Hlm & Hpres & gs & Hgs & Hsrc & Hbuilt & Hhandles & Hnx).
  cbv zeta. rewrite Hopt.
  set (limit := maxConnectionsPerNeuron (options this)) in *.
  set (sel := findImportantConnections limit layer).
  assert (Hhas : has_connections (mlp this) limit k
                 = match selected sel with [] => false | _ => true end).
  { unfold has_connections. rewrite Hlayer. reflexivity. }
  destruct (selected sel) as [|c0 cs] eqn:Hsel.
  - unfold groups_upto. fold limit.
    split; [exact Hmlp|]. split; [exact Hopt|]. split; [exact Hlm|]. split.
    + intros L layer' c HL HL' Hc. destruct (Nat.eq_dec L k) as [->|Hne].
      * rewrite Hlayer in HL'. injection HL' as <-. fold sel in Hc. rewrite Hsel in Hc.
        destruct Hc.
      * apply (Hpres L layer' c); [lia|exact HL'|exact Hc].
    + exists gs. split; [exact Hgs|]. split; [|split; [exact Hbuilt|split; assumption]].
      rewrite filter_seq_S, Hhas, app_nil_r. exact Hsrc.
  - rewrite <- Hsel.
    pose proof (group_instances (fst st) k (selected sel)
                  (InstancedMesh_new next (snd st) (length (selected sel)))
                  (tempColor (fst st))) as Hgroup.
    destruct (forEachM (selected sel) _ _) as [r|e].
    + destruct Hgroup as [Hall Hupto]. cbn [mbind result_bind].
      destruct (built_upto_fresh _ _ _ _ _ Hupto) as (Hfresh & Hgeo & Hmat).
      unfold groups_upto. fold limit. cbn [fst snd push_group mlp options layerMeshes
        connectionGroups].
      split; [exact Hmlp|]. split; [exact Hopt|]. split; [exact Hlm|]. split.
      * intros L layer' c HL HL' Hc. destruct (Nat.eq_dec L k) as [->|Hne].
        -- rewrite Hlayer in HL'. injection HL' as <-.
           apply (positions_present_layers this (fst st) k c Hlm). apply Hall. exact Hc.
        -- apply (Hpres L layer' c); [lia|exact HL'|exact Hc].
      * eexists (gs ++ [_]). split; [rewrite Hgs, app_assoc; reflexivity|].
        split; [rewrite map_app, filter_seq_S, Hhas, Hsel, Hsrc; reflexivity|].
        split.
        -- apply Forall_app. split; [exact Hbuilt|]. constructor; [|constructor].
           exists layer. cbn [sourceLayer connections maxAbsWeight group_mesh].
           split; [exact Hlayer|]. split; [reflexivity|].
           split; [rewrite Hsel; discriminate|]. split; [reflexivity|exact Hfresh].
        -- split.
           ++ intros j g Hj. apply lookup_app_Some in Hj.
              destruct Hj as [Hin|[Hge Hlast]]; [apply Hhandles; exact Hin|].
              destruct (j - length gs)%nat as [|d] eqn:Hd; [|destruct d; discriminate].
              injection Hlast as <-. cbn [group_mesh].
              split; [exact Hgeo|]. rewrite Hmat, Hnx. lia.
           ++ rewrite length_app. simpl. lia.
    + destruct Hgroup as [Hty (c & Hc & Hnot)]. cbn [mbind result_bind].
      split; [exact Hty|]. exists c. split; [exact Hc|].
      intros Hp. apply Hnot. apply (positions_present_layers this (fst st) k c Hlm).
      exact Hp.
Qed.

Lemma buildConnections_cases (this : NetworkVisualizer num) (next : nat) :
  match buildConnections connection_matrix this next with
  | Ok res => groups_upto this next (length (layers (mlp this))) res
  | Throw e =>
      (exists msg, e = TypeError msg)
      /\ exists L layer c,
           layers (mlp this) !! L = Some layer
           /\ In c (selected (findImportantConnections
                                (maxConnectionsPerNeuron (options this)) layer))
           /\ ~ positions_present this L c
  end.
Proof.
  unfold buildConnections. rewrite forEachM_for_loopM.
  match goal with
  | |- match for_loopM _ ?b _ with _ => _ end => set (body := b)
  end.
  assert (H0 : groups_upto this next 0 (this, S (S next))).
  { unfold groups_upto. cbn [fst snd]. repeat split; try reflexivity.
    - intros L layer c HL. lia.
    - exists []. rewrite app_nil_r. repeat split; try reflexivity; try (simpl; lia).
      + constructor.
      + rewrite lookup_nil in H. discriminate.
      + rewrite lookup_nil in H. discriminate. }
  assert (Hstep : forall i si,
            (i < length (layers (mlp this)))%nat -> groups_upto this next i si ->
            match body i si with
            | Ok si' => groups_upto this next (S i) si'
            | Throw e =>
                (exists msg, e = TypeError msg)
                /\ exists L layer c,
                     layers (mlp this) !! L = Some layer
                     /\ In c (selected (findImportantConnections
                                          (maxConnectionsPerNeuron (options this)) layer))
                     /\ ~ positions_present this L c
            end).
  { intros i [t nx] Hi HP.
    destruct (lookup_lt_is_Some_2 (layers (mlp this)) i Hi) as [layer Hlayer].
    pose proof (buildConnections_step this next i layer (t, nx) Hlayer HP) as Hs.
    cbv zeta in Hs. cbn [fst snd] in Hs.
    unfold body. rewrite Hlayer.
    match type of Hs with
    | match ?X with _ => _ end =>
        match goal with
        | |- match ?Y with _ => _ end => change Y with X
        end
    end.
    destruct (match selected _ with [] => _ | _ => _ end) as [si'|e]; [exact Hs|].
    destruct Hs as [Hty (c & Hc & Hn)]. split; [exact Hty|].
    exists i, layer, c. done. }
  destruct (for_loopM (length (layers (mlp this))) body (this, S (S next)))
    as [res|e] eqn:Hrun.
  - refine (proj1 (for_loopM_inv (groups_upto this next) (length (layers (mlp this)))
                     body (this, S (S next)) res H0 _ Hrun)).
    intros i si si' Hi HP Hb. specialize (Hstep i si Hi HP). rewrite Hb in Hstep.
    exact Hstep.
  - destruct (for_loopM_Throw_inv (groups_upto this next) (length (layers (mlp this)))
                body (this, S (S next)) e H0)
      as (i & si & Hi & HP & Hb); [|exact Hrun|].
    + intros i si si' Hi HP Hb. specialize (Hstep i si Hi HP). rewrite Hb in Hstep.
      exact Hstep.
    + specialize (Hstep i si Hi HP). rewrite Hb in Hstep. exact Hstep.
Qed.

Lemma computeLayerPositions_length (this : NetworkVisualizer num)
    (layerIndex neuronCount : nat) (layerX : num) :
  length (computeLayerPositions this layerIndex neuronCount layerX) = neuronCount.
Proof.
  unfold computeLayerPositions.
  destruct (layerIndex =? 0)%nat;
    [apply input_positions_length|apply hidden_positions_length].
Qed.

(** After [buildLayers], the positions that [buildConnections] reads
    are there exactly for the neurons of the architecture. *)
Lemma built_positions_present (this : NetworkVisualizer num) (next L : nat)
    (c : Connection num) :
  layerMeshes this = [] ->
  positions_present (fst (buildLayers node_matrix this next)) L c
  <-> endpoints_in_range (architecture (mlp this)) L c.
Proof.
  intros Hempty.
  destruct (buildLayers_spec this next Hempty) as (_ & _ & _ & _ & Hlen & Hlayers).
  assert (Hpos : forall K layer,
            layerMeshes (fst (buildLayers node_matrix this next)) !! K = Some layer ->
            exists n, architecture (mlp this) !! K = Some n
                      /\ length (positions layer) = n).
  { intros K layer HK.
    assert (HKlt : (K < length (architecture (mlp this)))%nat)
      by (rewrite <- Hlen; apply lookup_lt_Some in HK; exact HK).
    destruct (lookup_lt_is_Some_2 _ K HKlt) as [n Hn].
    destruct (Hlayers K n Hn) as (layer' & Hl' & Hp' & _).
    rewrite HK in Hl'. injection Hl' as <-.
    exists n. split; [exact Hn|]. rewrite Hp'. apply computeLayerPositions_length. }
  unfold positions_present, endpoints_in_range. split.
  - intros (sm & tm & Hsm & Htm & Hs & Ht).
    destruct (Hpos L sm Hsm) as (ns & Hns & Hls).
    destruct (Hpos (S L) tm Htm) as (nt & Hnt & Hlt).
    exists ns, nt. split; [exact Hns|]. split; [exact Hnt|].
    apply lookup_lt_is_Some_1 in Hs, Ht. lia.
  - intros (ns & nt & Hns & Hnt & Hs & Ht).
    destruct (Hlayers L ns Hns) as (sm & Hsm & Hps & _).
    destruct (Hlayers (S L) nt Hnt) as (tm & Htm & Hpt & _).
    exists sm, tm. split; [exact Hsm|]. split; [exact Htm|].
    split; apply lookup_lt_is_Some_2.
    + rewrite Hps, computeLayerPositions_length. exact Hs.
    + rewrite Hpt, computeLayerPositions_length. exact Ht.
Qed.

(** The two outcomes of the constructor. *)
Lemma NetworkVisualizer_new_cases (mlp' : MLPNetwork num) (options' : Options num)
    (next : nat) :
  let this := {| mlp := mlp'; options := options'; layerMeshes := [];
                 connectionGroups := []; tempColor := setRGB 1 1 1 |} in
  let built := buildLayers node_matrix this next in
  match NetworkVisualizer_new node_matrix connection_matrix mlp' options' next with
  | Ok res =>
      scene_buildable mlp' (maxConnectionsPerNeuron options')
      /\ groups_upto (fst built) (snd built) (length (layers mlp')) res
  | Throw e =>
      (exists msg, e = TypeError msg)
      /\ ~ scene_buildable mlp' (maxConnectionsPerNeuron options')
  end.
Proof.
  cbv zeta. unfold NetworkVisualizer_new.
  set (this := {| mlp := mlp'; options := options'; layerMeshes := [];
                  connectionGroups := []; tempColor := setRGB 1 1 1 |}).
  destruct (buildLayers_spec this next eq_refl) as (Hmlp & Hopt & _).
  pose proof (buildConnections_cases (fst (buildLayers node_matrix this next))
                (snd (buildLayers node_matrix this next))) as Hcases.
  destruct (buildLayers node_matrix this next) as [this1 next1] eqn:Hbuilt.
  cbn [fst snd] in *. rewrite Hmlp, Hopt in Hcases. cbn [mlp options this] in Hcases.
  destruct (buildConnections connection_matrix this1 next1) as [res|e].
  - split; [|exact Hcases].
    destruct Hcases as (_ & _ & _ & Hpres & _).
    intros L layer c HL Hc.
    apply (built_positions_present this next L c eq_refl). rewrite Hbuilt.
    apply (Hpres L layer c);
      [apply lookup_lt_Some in HL; exact HL|rewrite Hmlp; exact HL|].
    rewrite Hopt. exact Hc.
  - destruct Hcases as [Hty (L & layer & c & HL & Hc & Hnot)].
    split; [exact Hty|]. intros Hbuildable. apply Hnot.
    pose proof (proj2 (built_positions_present this next L c eq_refl)
                  (Hbuildable L layer c HL Hc)) as Hp.
    rewrite Hbuilt in Hp. exact Hp.
Qed.

(** Where a selected connection comes from. *)
Lemma selected_endpoints (limit : nat) (layer : Layer num) (c : Connection num) :
  In c (selected (findImportantConnections limit layer)) ->
  exists row, weights layer !! targetIndex c = Some row
              /\ (sourceIndex c < length row)%nat.
Proof.
  rewrite findImportantConnections_spec. intros Hc.
  apply in_concat in Hc as (l & Hl & Hc).
  apply list_elem_of_In, elem_of_lookup_imap_1 in Hl as (t & row & -> & Hrow).
  unfold selected_for in Hc. apply in_map_iff in Hc as (cand & <- & Hcand).
  apply list_elem_of_In, elem_of_take in Hcand as (i & Hi & _).
  assert (Hin : In cand (Array_sort by_magnitude_desc (finite_candidates t row))).
  { apply list_elem_of_In, list_elem_of_lookup. exists i. exact Hi. }
  apply Array_sort_In in Hin. unfold finite_candidates in Hin.
  apply filter_In in Hin as [Hin _].
  apply list_elem_of_In, elem_of_lookup_imap_1 in Hin as (source & w & -> & Hw).
  simpl. exists row. split; [exact Hrow|]. apply lookup_lt_Some in Hw. exact Hw.
Qed.

(** A row with a finite weight gives its target a connection, when the
    limit is not 0. *)
Lemma finite_row_selected (limit : nat) (layer : Layer num) (t : nat) (row : list num)
    (w : num) :
  (0 < limit)%nat -> weights layer !! t = Some row -> In w row -> isFinite w = true ->
  exists c, In c (selected (findImportantConnections limit layer)) /\ targetIndex c = t.
Proof.
  intros Hlimit Hrow Hw Hfin.
  pose proof (edges_of_spec limit layer t row Hrow) as Hedges.
  apply list_elem_of_In, list_elem_of_lookup in Hw as [source Hsource].
  assert (Hcand : In (candidate_at t source w) (finite_candidates t row)).
  { unfold finite_candidates. apply filter_In. split; [|exact Hfin].
    apply list_elem_of_In. apply (elem_of_lookup_imap_2 (candidate_at t)). exact Hsource. }
  assert (Hlen : (0 < length (Array_sort by_magnitude_desc (finite_candidates t row)))%nat).
  { rewrite Array_sort_length. destruct (finite_candidates t row); [destruct Hcand|].
    simpl. lia. }
  destruct (Array_sort by_magnitude_desc (finite_candidates t row)) as [|c0 rest] eqn:Hs;
    [simpl in Hlen; lia|].
  assert (Hin : In (to_connection c0) (selected_for limit t row)).
  { unfold selected_for. rewrite Hs. destruct limit; [lia|]. left. reflexivity. }
  rewrite <- Hedges in Hin. unfold edges_of in Hin. apply filter_In in Hin as [Hin Ht].
  exists (to_connection c0). split; [exact Hin|]. apply Nat.eqb_eq. exact Ht.
Qed.

(** X20.  The constructor of the visualiser returns exactly when every
    connection that the selector returns joins two neurons of the
    architecture; otherwise it throws a TypeError, raised when
    [buildConnections] reads the position of a neuron that the
    architecture does not have. *)
Theorem scene_construction_returns_iff (mlp' : MLPNetwork num) (options' : Options num)
    (next : nat) :
  (scene_buildable mlp' (maxConnectionsPerNeuron options')
   <-> exists res,
         NetworkVisualizer_new node_matrix connection_matrix mlp' options' next = Ok res)
  /\ (~ scene_buildable mlp' (maxConnectionsPerNeuron options')
      <-> exists msg,
            NetworkVisualizer_new node_matrix connection_matrix mlp' options' next
            = Throw (TypeError msg)).
Proof.
  pose proof (NetworkVisualizer_new_cases mlp' options' next) as Hcases.
  cbv zeta in Hcases.
  destruct (NetworkVisualizer_new node_matrix connection_matrix mlp' options' next)
    as [res|e].
  - destruct Hcases as [Hb _]. split; split.
    + intros _. exists res. reflexivity.
    + intros _. exact Hb.
    + intros Hn. done.
    + intros [msg Hmsg]. discriminate.
  - destruct Hcases as [[msg ->] Hn]. split; split.
    + intros Hb. done.
    + intros [res Hres]. discriminate.
    + intros _. exists msg. reflexivity.
    + intros _. exact Hn.
Qed.

Lemma NetworkVisualizer_new_layers (mlp' : MLPNetwork num) (options' : Options num)
    (next : nat) (res : NetworkVisualizer num * nat) :
  NetworkVisualizer_new node_matrix connection_matrix mlp' options' next = Ok res ->
  let vis := fst res in
  let startX :=
    neg ((of_nat (length (architecture mlp')) ⊖ one) ⊗ layerSpacing options') ⊘ lit 2 in
  mlp vis = mlp' /\ options vis = options'
  /\ length (layerMeshes vis) = length (architecture mlp')
  /\ forall L n, architecture mlp' !! L = Some n ->
       exists layer,
         layerMeshes vis !! L = Some layer
         /\ positions layer
            = computeLayerPositions vis L n (startX ⊕ of_nat L ⊗ layerSpacing options')
         /\ fresh_mesh (mesh layer) n (setRGB (8 # 100) (1 # 10) (18 # 100))
         /\ geometry (mesh layer) = next
         /\ material (mesh layer) = (next + 2 + L)%nat.
Proof.
  intros Hrun. cbv zeta.
  pose proof (NetworkVisualizer_new_cases mlp' options' next) as Hcases.
  cbv zeta in Hcases. rewrite Hrun in Hcases.
  destruct Hcases as [_ (Hmlp & Hopt & Hlm & _)].
  set (this := {| mlp := mlp'; options := options'; layerMeshes := [];
                  connectionGroups := []; tempColor := setRGB 1 1 1 |}) in *.
  destruct (buildLayers_spec this next eq_refl) as (Hmlp1 & Hopt1 & _ & _ & Hlen & Hlayers).
  rewrite Hmlp1 in Hmlp. rewrite Hopt1 in Hopt. cbn [mlp options this] in *.
  split; [exact Hmlp|]. split; [exact Hopt|]. rewrite Hlm.
  split; [exact Hlen|].
  intros L n HL. destruct (Hlayers L n HL) as (layer & Hl & Hp & Hrest).
  exists layer. split; [exact Hl|]. split; [|exact Hrest].
  rewrite Hp. unfold computeLayerPositions. rewrite Hopt. reflexivity.
Qed.

(** X21.  The layers of a constructed scene: one mesh for each entry of
    the architecture, with as many instances as the entry says, a
    position, a matrix and a colour for each of them, every instance in
    the base colour and both attributes marked for upload; layer [L] is
    placed at [startX + L * layerSpacing], so that the layers are centred
    on the origin; the meshes share one geometry and each has a material
    of its own. *)
Theorem constructed_layers (mlp' : MLPNetwork num) (options' : Options num)
    (next : nat) (res : NetworkVisualizer num * nat) :
  NetworkVisualizer_new node_matrix connection_matrix mlp' options' next = Ok res ->
  let vis := fst res in
  let startX :=
    neg ((of_nat (length (architecture mlp')) ⊖ one) ⊗ layerSpacing options') ⊘ lit 2 in
  mlp vis = mlp' /\ options vis = options'
  /\ length (layerMeshes vis) = length (architecture mlp')
  /\ forall L n, architecture mlp' !! L = Some n ->
       exists layer,
         layerMeshes vis !! L = Some layer
         /\ positions layer
            = computeLayerPositions vis L n (startX ⊕ of_nat L ⊗ layerSpacing options')
         /\ fresh_mesh (mesh layer) n (setRGB (8 # 100) (1 # 10) (18 # 100))
         /\ geometry (mesh layer) = next
         /\ material (mesh layer) = (next + 2 + L)%nat.
Proof. exact (NetworkVisualizer_new_layers mlp' options' next res). Qed.

Lemma NetworkVisualizer_new_groups (mlp' : MLPNetwork num) (options' : Options num)
    (next : nat) (res : NetworkVisualizer num * nat) :
  NetworkVisualizer_new node_matrix connection_matrix mlp' options' next = Ok res ->
  let groups := connectionGroups (fst res) in
  let limit := maxConnectionsPerNeuron options' in
  let first := (next + 2 + length (architecture mlp'))%nat in
  map sourceLayer groups
  = List.filter (has_connections mlp' limit) (seq 0 (length (layers mlp')))
  /\ Forall (group_built mlp' limit) groups
  /\ (forall group c, In group groups -> In c (connections group) ->
        endpoints_in_range (architecture mlp') (sourceLayer group) c)
  /\ (forall j group, groups !! j = Some group ->
        geometry (group_mesh group) = first
        /\ material (group_mesh group) = (first + 2 + j)%nat)
  /\ snd res = (first + 2 + length groups)%nat.
Proof.
  intros Hrun. cbv zeta.
  pose proof (NetworkVisualizer_new_cases mlp' options' next) as Hcases.
  cbv zeta in Hcases. rewrite Hrun in Hcases.
  destruct Hcases as [Hbuildable (_ & _ & _ & _ & gs & Hgs & Hsrc & Hbuilt & Hhandles & Hnx)].
  set (this := {| mlp := mlp'; options := options'; layerMeshes := [];
                  connectionGroups := []; tempColor := setRGB 1 1 1 |}) in *.
  destruct (buildLayers_spec this next eq_refl) as (Hmlp1 & Hopt1 & Hgr1 & Hnext1 & _).
  rewrite Hmlp1, Hopt1 in Hsrc, Hbuilt. rewrite Hgr1 in Hgs. rewrite Hnext1 in Hhandles, Hnx.
  cbn [mlp options connectionGroups this app] in *. rewrite Hgs.
  split; [exact Hsrc|]. split; [exact Hbuilt|]. split; [|split; [exact Hhandles|exact Hnx]].
  intros group c Hgroup Hc.
  rewrite Forall_forall in Hbuilt.
  destruct (Hbuilt group (proj2 (list_elem_of_In _ _) Hgroup))
    as (layer & Hlayer & Hconn & _).
  rewrite Hconn in Hc. exact (Hbuildable _ layer c Hlayer Hc).
Qed.

(** X22.  The connection groups of a constructed scene: one group for
    each layer for which the selector returns a connection, in the order
    of the layers, and none for the others; a group holds the selection
    of its layer and its [maxAbsWeight], and its mesh has an instance,
    in the base colour, for each connection; every connection joins two
    neurons of the architecture; the meshes share one geometry and each
    has a material of its own. *)
Theorem constructed_groups (mlp' : MLPNetwork num) (options' : Options num)
    (next : nat) (res : NetworkVisualizer num * nat) :
  NetworkVisualizer_new node_matrix connection_matrix mlp' options' next = Ok res ->
  let groups := connectionGroups (fst res) in
  let limit := maxConnectionsPerNeuron options' in
  let first := (next + 2 + length (architecture mlp'))%nat in
  map sourceLayer groups
  = List.filter (has_connections mlp' limit) (seq 0 (length (layers mlp')))
  /\ Forall (group_built mlp' limit) groups
  /\ (forall group c, In group groups -> In c (connections group) ->
        endpoints_in_range (architecture mlp') (sourceLayer group) c)
  /\ (forall j group, groups !! j = Some group ->
        geometry (group_mesh group) = first
        /\ material (group_mesh group) = (first + 2 + j)%nat)
  /\ snd res = (first + 2 + length groups)%nat.
Proof. exact (NetworkVisualizer_new_groups mlp' options' next res). Qed.

(** X23.  A weight row with a finite weight, for a target that is not a
    neuron of the next layer of the architecture (a layer with more
    weight rows than the architecture has neurons, for one), makes the
    constructor throw a TypeError when the limit is not 0. *)
Theorem extra_weight_row_breaks_scene (mlp' : MLPNetwork num) (options' : Options num)
    (next L : nat) (layer : Layer num) (t : nat) (row : list num) (w : num) :
  layers mlp' !! L = Some layer ->
  weights layer !! t = Some row ->
  In w row -> isFinite w = true ->
  (0 < maxConnectionsPerNeuron options')%nat ->
  (forall targetCount, architecture mlp' !! S L = Some targetCount ->
     (targetCount <= t)%nat) ->
  exists msg,
    NetworkVisualizer_new node_matrix connection_matrix mlp' options' next
    = Throw (TypeError msg).
Proof.
  intros HL Hrow Hw Hfin Hlimit Harch.
  pose proof (NetworkVisualizer_new_cases mlp' options' next) as Hcases.
  cbv zeta in Hcases.
  destruct (NetworkVisualizer_new node_matrix connection_matrix mlp' options' next)
    as [res|e].
  - destruct Hcases as [Hb _].
    destruct (finite_row_selected _ layer t row w Hlimit Hrow Hw Hfin) as (c & Hc & Ht).
    destruct (Hb L layer c HL Hc) as (ns & nt & _ & Hnt & _ & Hlt).
    specialize (Harch nt Hnt). lia.
  - destruct Hcases as [[msg ->] _]. exists msg. reflexivity.
Qed.

(** X24.  For a network whose architecture counts its layers, in which no
    layer has more weight rows than output neurons and no row is longer
    than the layer before is wide, the constructor returns, whatever the
    weights, the options and the limit are. *)
Theorem well_shaped_network_builds (mlp' : MLPNetwork num) (options' : Options num)
    (next : nat) :
  well_shaped mlp' ->
  exists res,
    NetworkVisualizer_new node_matrix connection_matrix mlp' options' next = Ok res.
Proof.
  intros Hshape.
  pose proof (NetworkVisualizer_new_cases mlp' options' next) as Hcases.
  cbv zeta in Hcases.
  destruct (NetworkVisualizer_new node_matrix connection_matrix mlp' options' next)
    as [res|e]; [exists res; reflexivity|].
  destruct Hcases as [_ Hnot]. exfalso. apply Hnot.
  intros L layer c HL Hc.
  destruct (Hshape L layer HL) as (ns & nt & Hns & Hnt & Hrows & Hwidth).
  destruct (selected_endpoints _ layer c Hc) as (row & Hrow & Hsrc).
  exists ns, nt. split; [exact Hns|]. split; [exact Hnt|].
  rewrite Forall_forall in Hwidth.
  pose proof (Hwidth row (proj2 (list_elem_of_lookup _ _) (ex_intro _ _ Hrow))) as Hle.
  apply lookup_lt_Some in Hrow. lia.
Qed.

End SceneProofs.

(** The scene of the demo network. *)
Lemma constructed_layers_witness :
  NetworkVisualizer_new demo_node_matrix demo_connection_matrix demo_net
    (options demo_vis) 0 = Ok demo_scene
  /\ length (layerMeshes (fst demo_scene)) = 3%nat.
Proof.
  assert (Hrun : NetworkVisualizer_new demo_node_matrix demo_connection_matrix demo_net
                   (options demo_vis) 0 = Ok demo_scene)
    by (vm_compute; reflexivity).
  split; [exact Hrun|].
  destruct (constructed_layers demo_node_matrix demo_connection_matrix demo_net
              (options demo_vis) 0 demo_scene Hrun) as (_ & _ & Hlen & _).
  exact Hlen.
Defined.

Lemma constructed_groups_witness :
  NetworkVisualizer_new demo_node_matrix demo_connection_matrix demo_net
    (options demo_vis) 0 = Ok demo_scene
  /\ map sourceLayer (connectionGroups (fst demo_scene)) = [0%nat; 1%nat].
Proof.
  assert (Hrun : NetworkVisualizer_new demo_node_matrix demo_connection_matrix demo_net
                   (options demo_vis) 0 = Ok demo_scene)
    by (vm_compute; reflexivity).
  split; [exact Hrun|].
  destruct (constructed_groups demo_node_matrix demo_connection_matrix demo_net
              (options demo_vis) 0 demo_scene Hrun) as (Hsrc & _).
  rewrite Hsrc. reflexivity.
Defined.

(** The second row of the network with an extra row: [forward] returns
    on this network, the constructor of the scene does not. *)
Lemma extra_weight_row_breaks_scene_witness :
  layers extra_row_net !! 0%nat = Some extra_row_layer
  /\ weights extra_row_layer !! 1%nat = Some [lit 2]
  /\ In (lit 2) [lit 2 : xq]
  /\ isFinite (lit 2 : xq) = true
  /\ (0 < maxConnectionsPerNeuron (options demo_vis))%nat
  /\ (forall targetCount, architecture extra_row_net !! 1%nat = Some targetCount ->
        (targetCount <= 1)%nat)
  /\ (exists r, forward extra_row_net [lit 1] = Ok r)
  /\ exists msg,
       NetworkVisualizer_new demo_node_matrix demo_connection_matrix extra_row_net
         (options demo_vis) 0 = Throw (TypeError msg).
Proof.
  assert (H1 : layers extra_row_net !! 0%nat = Some extra_row_layer) by reflexivity.
  assert (H2 : weights extra_row_layer !! 1%nat = Some [lit 2 : xq]) by reflexivity.
  assert (H3 : In (lit 2) [lit 2 : xq]) by (left; reflexivity).
  assert (H4 : isFinite (lit 2 : xq) = true) by reflexivity.
  assert (H5 : (0 < maxConnectionsPerNeuron (options demo_vis))%nat) by (simpl; lia).
  assert (H6 : forall targetCount,
            architecture extra_row_net !! 1%nat = Some targetCount ->
            (targetCount <= 1)%nat).
  { intros n Hn. injection Hn as <-. lia. }
  split; [exact H1|]. split; [exact H2|]. split; [exact H3|]. split; [exact H4|].
  split; [exact H5|]. split; [exact H6|].
  split; [eexists; vm_compute; reflexivity|].
  exact (extra_weight_row_breaks_scene demo_node_matrix demo_connection_matrix
           extra_row_net (options demo_vis) 0 0 extra_row_layer 1 [lit 2] (lit 2)
           H1 H2 H3 H4 H5 H6).
Defined.

Lemma well_shaped_network_builds_witness :
  well_shaped demo_net
  /\ exists res,
       NetworkVisualizer_new demo_node_matrix demo_connection_matrix demo_net
         (options demo_vis) 0 = Ok res.
Proof.
  assert (Hshape : well_shaped demo_net).
  { intros L layer HL. destruct L as [|[|L]]; [| |discriminate].
    - injection HL as <-. exists 2%nat, 2%nat. simpl. repeat split; try lia.
      repeat constructor.
    - injection HL as <-. exists 2%nat, 1%nat. simpl. repeat split; try lia.
      repeat constructor. }
  split; [exact Hshape|].
  exact (well_shaped_network_builds demo_node_matrix demo_connection_matrix demo_net
           (options demo_vis) 0 Hshape).
Defined.

(** ** DrawingGrid.paintCell: the strength of the brush *)

(** The value that a stroke computes for a cell. *)
Lemma xq_stroke (a d : Q) :
  exists c, fmin one (fmax zero ((Fin a : xq) ⊕ lit d)) = Fin c
            /\ ((a + d <= 0)%Q -> (c == 0)%Q)
            /\ ((1 <= a + d)%Q -> (c == 1)%Q)
            /\ ((0 <= a + d <= 1)%Q -> (c == a + d)%Q).
Proof.
  simpl. unfold ext_min, ext_max. simpl.
  change (Qred 0) with 0%Q. change (Qred 1) with 1%Q.
  set (x := Qred (a + Qred d)).
  assert (Hx : (x == a + d)%Q) by (unfold x; rewrite !Qred_correct; reflexivity).
  clearbody x.
  destruct (Qcompare 0 x) eqn:H0; simpl.
  - pose proof (proj2 (Qeq_alt _ _) H0) as H0'. exists 0%Q. split; [reflexivity|].
    split; [intros; Lqa.lra|]. split; [intros; Lqa.lra|]. intros [? ?]. Lqa.lra.
  - pose proof (proj2 (Qlt_alt _ _) H0) as H0'. destruct (Qcompare 1 x) eqn:H1; simpl.
    + pose proof (proj2 (Qeq_alt _ _) H1) as H1'. exists 1%Q. split; [reflexivity|].
      split; [intros; Lqa.lra|]. split; [intros; Lqa.lra|]. intros [? ?]. Lqa.lra.
    + pose proof (proj2 (Qlt_alt _ _) H1) as H1'. exists 1%Q. split; [reflexivity|].
      split; [intros; Lqa.lra|]. split; [intros; Lqa.lra|]. intros [? ?]. Lqa.lra.
    + pose proof (proj2 (Qgt_alt _ _) H1) as H1'. exists x. split; [reflexivity|].
      split; [intros; Lqa.lra|]. split; [intros; Lqa.lra|]. intros [? ?]. Lqa.lra.
  - pose proof (proj2 (Qgt_alt _ _) H0) as H0'. exists 0%Q. split; [reflexivity|].
    split; [intros; Lqa.lra|]. split; [intros; Lqa.lra|]. intros [? ?]. Lqa.lra.
Qed.

(** One stroke on a cell that holds a number. *)
Lemma paintCell_cell (w : World xq) (index : nat) (erase : bool) (a : Q) :
  (grid_values (grid w) < length (store w))%nat ->
  deref (store w) (grid_values (grid w)) !! index = Some (Fin a) ->
  let d := if erase then (-45 # 100)%Q else (55 # 100)%Q in
  let w' := paintCell w index erase in
  exists b,
    deref (store w') (grid_values (grid w')) !! index = Some (Fin b)
    /\ ((a + d <= 0)%Q -> (b == 0)%Q)
    /\ ((1 <= a + d)%Q -> (b == 1)%Q)
    /\ ((0 <= a + d <= 1)%Q -> (b == a + d)%Q)
    /\ (forall j, j <> index ->
          deref (store w') (grid_values (grid w')) !! j
          = deref (store w) (grid_values (grid w)) !! j)
    /\ (grid_values (grid w') < length (store w'))%nat.
Proof.
  intros Hg Hcell. cbv zeta.
  set (d := if erase then (-45 # 100)%Q else (55 # 100)%Q).
  destruct (xq_stroke a d) as (c & Hc & Hlow & Hhigh & Hmid).
  unfold paintCell. rewrite Hcell. unfold idx. rewrite Hcell.
  assert (Hdelta : (if erase then lit (-45 # 100) else lit (55 # 100) : xq) = lit d)
    by (unfold d; destruct erase; reflexivity).
  rewrite Hdelta, Hc.
  destruct (eqb (Fin c : xq) (Fin a)) eqn:Heq.
  - apply xq_eqb_Fin in Heq. exists a. split; [exact Hcell|].
    split; [intros H; pose proof (Hlow H); Lqa.lra|].
    split; [intros H; pose proof (Hhigh H); Lqa.lra|].
    split; [intros H; pose proof (Hmid H); Lqa.lra|].
    split; [reflexivity|exact Hg].
  - exists c. cbn [store grid grid_values set_pending].
    rewrite deref_insert_eq by exact Hg.
    split; [apply list_lookup_insert_eq; apply lookup_lt_Some in Hcell; exact Hcell|].
    split; [exact Hlow|]. split; [exact Hhigh|]. split; [exact Hmid|].
    split; [|rewrite length_insert; exact Hg].
    intros j Hj. apply list_lookup_insert_ne. congruence.
Qed.

(** X25.  The brush on a cell that holds a value in [0, 1]: a stroke
    changes no other cell, keeps the value in [0, 1], and never lowers it
    when drawing and never raises it when erasing; two strokes of drawing
    fill the cell (value 1) and three strokes of erasing empty it
    (value 0), whatever it held. *)
Theorem brush_strength (w : World xq) (index : nat) (a : Q) :
  (grid_values (grid w) < length (store w))%nat ->
  deref (store w) (grid_values (grid w)) !! index = Some (Fin a) ->
  (0 <= a <= 1)%Q ->
  let pixels := fun w : World xq => deref (store w) (grid_values (grid w)) in
  (forall erase,
     exists b,
       pixels (paintCell w index erase) !! index = Some (Fin b)
       /\ (0 <= b <= 1)%Q
       /\ (if erase then b <= a else a <= b)%Q
       /\ forall j, j <> index -> pixels (paintCell w index erase) !! j = pixels w !! j)
  /\ (exists b,
        pixels (paintCell (paintCell w index false) index false) !! index = Some (Fin b)
        /\ (b == 1)%Q)
  /\ (exists b,
        pixels (paintCell (paintCell (paintCell w index true) index true) index true)
          !! index = Some (Fin b)
        /\ (b == 0)%Q).
Proof.
  intros Hg Hcell Ha. cbv zeta. split; [|split].
  - intros erase.
    destruct (paintCell_cell w index erase a Hg Hcell)
      as (b & Hb & Hlow & Hhigh & Hmid & Hother & _).
    exists b. split; [exact Hb|].
    assert (Hd : ((if erase then (-45 # 100) else (55 # 100)) == (if erase then -(45 # 100) else (55 # 100)))%Q)
      by (destruct erase; reflexivity).
    destruct (Qlt_le_dec (a + (if erase then (-45 # 100) else (55 # 100))) 0) as [H0|H0];
      [|destruct (Qlt_le_dec 1 (a + (if erase then (-45 # 100) else (55 # 100)))) as [H1|H1]].
    + pose proof (Hlow (Qlt_le_weak _ _ H0)) as Hb0.
      split; [Lqa.lra|]. split; [|exact Hother].
      destruct erase; [Lqa.lra|]. exfalso. Lqa.lra.
    + pose proof (Hhigh (Qlt_le_weak _ _ H1)) as Hb1.
      split; [Lqa.lra|]. split; [|exact Hother].
      destruct erase; [exfalso; Lqa.lra|Lqa.lra].
    + pose proof (Hmid (conj H0 H1)) as Hbm.
      split; [Lqa.lra|]. split; [|exact Hother].
      destruct erase; Lqa.lra.
  - destruct (paintCell_cell w index false a Hg Hcell)
      as (b1 & Hb1 & Hlow1 & Hhigh1 & Hmid1 & _ & Hg1).
    destruct (paintCell_cell _ index false b1 Hg1 Hb1)
      as (b2 & Hb2 & _ & Hhigh2 & _).
    exists b2. split; [exact Hb2|]. apply Hhigh2.
    destruct (Qlt_le_dec 1 (a + (55 # 100))) as [H1|H1].
    + pose proof (Hhigh1 (Qlt_le_weak _ _ H1)). Lqa.lra.
    + assert (H0 : (0 <= a + (55 # 100))%Q) by Lqa.lra.
      pose proof (Hmid1 (conj H0 H1)). Lqa.lra.
  - destruct (paintCell_cell w index true a Hg Hcell)
      as (b1 & Hb1 & Hlow1 & _ & Hmid1 & _ & Hg1).
    assert (Hb1le : (0 <= b1 <= 55 # 100)%Q).
    { destruct (Qlt_le_dec (a + (-45 # 100)) 0) as [H0|H0].
      - pose proof (Hlow1 (Qlt_le_weak _ _ H0)). Lqa.lra.
      - assert (H1 : (a + (-45 # 100) <= 1)%Q) by Lqa.lra.
        pose proof (Hmid1 (conj H0 H1)). Lqa.lra. }
    destruct (paintCell_cell _ index true b1 Hg1 Hb1)
      as (b2 & Hb2 & Hlow2 & _ & Hmid2 & _ & Hg2).
    assert (Hb2le : (0 <= b2 <= 10 # 100)%Q).
    { destruct (Qlt_le_dec (b1 + (-45 # 100)) 0) as [H0|H0].
      - pose proof (Hlow2 (Qlt_le_weak _ _ H0)). Lqa.lra.
      - assert (H1 : (b1 + (-45 # 100) <= 1)%Q) by Lqa.lra.
        pose proof (Hmid2 (conj H0 H1)). Lqa.lra. }
    destruct (paintCell_cell _ index true b2 Hg2 Hb2)
      as (b3 & Hb3 & Hlow3 & _).
    exists b3. split; [exact Hb3|]. apply Hlow3. Lqa.lra.
Qed.

(** The first cell of a new grid of one row and two columns. *)
Lemma brush_strength_witness :
  (grid_values (grid (DrawingGrid_new [] 1 2 : World xq))
   < length (store (DrawingGrid_new [] 1 2 : World xq)))%nat
  /\ deref (store (DrawingGrid_new [] 1 2 : World xq))
       (grid_values (grid (DrawingGrid_new [] 1 2 : World xq))) !! 0%nat = Some (Fin 0%Q)
  /\ (0 <= 0 <= 1)%Q
  /\ exists b,
       deref (store (paintCell (paintCell (DrawingGrid_new [] 1 2) 0 false) 0 false))
         (grid_values (grid (paintCell (paintCell (DrawingGrid_new [] 1 2 : World xq)
                                          0 false) 0 false))) !! 0%nat
       = Some (Fin b)
       /\ (b == 1)%Q.
Proof.
  assert (Hg : (grid_values (grid (DrawingGrid_new [] 1 2 : World xq))
                < length (store (DrawingGrid_new [] 1 2 : World xq)))%nat)
    by (simpl; lia).
  assert (Hcell : deref (store (DrawingGrid_new [] 1 2 : World xq))
                    (grid_values (grid (DrawingGrid_new [] 1 2 : World xq))) !! 0%nat
                  = Some (Fin 0%Q)) by reflexivity.
  assert (Ha : (0 <= 0 <= 1)%Q) by (split; discriminate).
  split; [exact Hg|]. split; [exact Hcell|]. split; [exact Ha|].
  exact (proj1 (proj2 (brush_strength _ 0 0 Hg Hcell Ha))).
Defined.

(** ** The first frame: constructor, forward pass and update *)

Section FrameProofs.
Context {num : Type} `{!Arith num}.
Variable node_matrix : Vector3 num -> list num.
Variable connection_matrix : Vector3 num -> Vector3 num -> list num.

(** X26.  On a constructed scene, an update with the output of the
    forward pass (as [updateNetwork] calls it) returns, and no colour is
    lost: every neuron of the architecture that has a display value gets
    the colour of that value, and every connection of every group gets
    the colour of its contribution. *)
Theorem frame_colours_scene (net : MLPNetwork num) (options' : Options num) (next : nat)
    (res : NetworkVisualizer num * nat) (pixels : list num) (r : ForwardResult num) :
  NetworkVisualizer_new node_matrix connection_matrix net options' next = Ok res ->
  forward net pixels = Ok r ->
  let display := pixels :: drop 1 (activations r) in
  exists vis',
    update (fst res) display (activations r) = Ok vis'
    /\ (forall L n values,
          architecture net !! L = Some n -> display !! L = Some values ->
          exists layer' scale,
            layerMeshes vis' !! L = Some layer'
            /\ count (mesh layer') = n
            /\ node_scale L (activations r) = Ok scale
            /\ forall i v comp x,
                 values !! i = Some v -> (i < n)%nat ->
                 color_cells (neuron_color v scale) !! comp = Some x ->
                 attr_array (instanceColor (mesh layer')) !! (i * 3 + comp)%nat = Some x)
    /\ (forall G group sourceValues,
          connectionGroups (fst res) !! G = Some group ->
          activations r !! sourceLayer group = Some sourceValues ->
          exists group',
            connectionGroups vis' !! G = Some group'
            /\ connections group' = connections group
            /\ forall i conn comp x,
                 connections group !! i = Some conn ->
                 color_cells (edge_color sourceValues group conn) !! comp = Some x ->
                 attr_array (instanceColor (group_mesh group')) !! (i * 3 + comp)%nat
                 = Some x).
Proof.
  intros Hnew Hforward. cbv zeta.
  pose proof (forward_Ok_rows net pixels r Hforward) as Hrows.
  pose proof (forward_spec net pixels Hrows) as Hspec. cbv zeta in Hspec.
  rewrite Hforward in Hspec. injection Hspec as ->. cbn [activations drop].
  set (input := normalized_input (normalization net) pixels).
  set (outs := fst (run_layers (layers net) input)).
  destruct (update_spec (fst res) (pixels :: outs) (input :: outs)
              (display_present _ _ _ _))
    as (vis' & Hupdate & _ & _ & _ & _ & Hlayers & Hgroups).
  exists vis'. split; [rewrite drop_0; exact Hupdate|]. rewrite drop_0. split.
  - intros L n values HL Hvalues.
    destruct (NetworkVisualizer_new_layers node_matrix connection_matrix net options' next
                res Hnew) as (_ & _ & _ & Hbuilt).
    destruct (Hbuilt L n HL) as (layer & Hlayer & _ & Hfresh & _).
    destruct Hfresh as (Hcount & _ & Hlen & _).
    destruct (Hlayers L layer Hlayer) as (layer' & Hlayer' & _ & Hsame & _ & Hcol).
    destruct Hsame as (_ & _ & Hc' & _ & Hlen').
    destruct (Hcol values Hvalues) as (_ & scale & Hscale & Hcolors).
    exists layer', scale. split; [exact Hlayer'|]. split; [congruence|].
    split; [exact Hscale|].
    intros i v comp x Hv Hi Hx. apply (Hcolors i v Hv comp x Hx).
    assert (comp < 3)%nat by (apply lookup_lt_Some in Hx; exact Hx).
    rewrite Hlen', Hlen. lia.
  - intros G group sourceValues HG Hsource.
    destruct (NetworkVisualizer_new_groups node_matrix connection_matrix net options' next
                res Hnew) as (_ & Hbuilt & _).
    rewrite Forall_forall in Hbuilt.
    destruct (Hbuilt group (proj2 (list_elem_of_lookup _ _) (ex_intro _ G HG)))
      as (layer & _ & _ & _ & _ & Hfresh).
    destruct Hfresh as (_ & _ & Hlen & _).
    destruct (Hgroups G group HG) as (group' & HG' & Hconn & _ & _ & Hsame & _ & Hcol).
    destruct Hsame as (_ & _ & _ & _ & Hlen').
    destruct (Hcol sourceValues Hsource) as (_ & Hcolors).
    exists group'. split; [exact HG'|]. split; [exact Hconn|].
    intros i conn comp x Hconn_i Hx. apply (Hcolors i conn Hconn_i comp x Hx).
    assert (comp < 3)%nat by (apply lookup_lt_Some in Hx; exact Hx).
    apply lookup_lt_Some in Hconn_i.
    rewrite Hlen', Hlen. lia.
Qed.

End FrameProofs.

(** The first frame of the demo scene. *)
Lemma frame_colours_scene_witness :
  NetworkVisualizer_new demo_node_matrix demo_connection_matrix demo_net
    (options demo_vis) 0 = Ok demo_scene
  /\ exists r,
       forward demo_net demo_pixels = Ok r
       /\ exists vis',
            update (fst demo_scene) (demo_pixels :: drop 1 (activations r)) (activations r)
            = Ok vis'.
Proof.
  assert (Hrun : NetworkVisualizer_new demo_node_matrix demo_connection_matrix demo_net
                   (options demo_vis) 0 = Ok demo_scene)
    by (vm_compute; reflexivity).
  split; [exact Hrun|].
  assert (Hrows : one_row_per_neuron demo_net).
  { unfold one_row_per_neuron. repeat constructor. }
  pose proof (forward_spec demo_net demo_pixels Hrows) as Hforward. cbv zeta in Hforward.
  eexists. split; [exact Hforward|].
  destruct (frame_colours_scene demo_node_matrix demo_connection_matrix demo_net
              (options demo_vis) 0 demo_scene demo_pixels _ Hrun Hforward)
    as (vis' & Hupdate & _).
  exists vis'. exact Hupdate.
Defined.

(** ** initApp *)

Section InitAppProofs.
Context {num : Type} `{!Arith num}.
Variable exp : num -> num.
Variable toFixed1 : num -> string.
Variable node_matrix : Vector3 num -> list num.
Variable connection_matrix : Vector3 num -> Vector3 num -> list num.

(** The two outcomes of [updateNetwork]. *)
Lemma updateNetwork_cases (app : App num) :
  match updateNetwork exp toFixed1 app with
  | Ok app' =>
      one_row_per_neuron (app_mlp app)
      /\ app_grid app'
         = set_ui_world (app_grid app) (fst (getPixels (ui_world (app_grid app))))
      /\ app_mlp app' = app_mlp app
      /\ app_updates app' = S (app_updates app)
      /\ length (app_chart app') = length (app_chart app)
  | Throw e => (exists msg, e = TypeError msg) /\ ~ one_row_per_neuron (app_mlp app)
  end.
Proof.
  destruct (forward_rows_or_throws (app_mlp app)
              (Float32Array_from (ui_pixels (app_grid app)))) as [Hrows|[msg Hmsg]].
  - destruct (updateNetwork_spec exp toFixed1 app Hrows) as (vis & _ & ->).
    cbn [app_grid app_mlp app_updates app_chart].
    split; [exact Hrows|]. repeat split. apply PredictionChart_update_lookup.
  - assert (Hrun : updateNetwork exp toFixed1 app = Throw (TypeError msg)).
    { unfold updateNetwork, getPixels, alloc. cbv beta iota zeta. cbn [store fst].
      rewrite deref_alloc. fold (ui_pixels (app_grid app)). rewrite Hmsg. reflexivity. }
    rewrite Hrun. split; [exists msg; reflexivity|].
    intros Hrows. rewrite (forward_spec _ _ Hrows) in Hmsg. discriminate.
Qed.

(** X27.  The outcomes of [initApp].  It returns exactly when the answer
    has a network with at least one layer, the document has the two
    containers, every connection that the selector returns joins two
    neurons of the architecture, and every layer has a weight row for
    each bias; the application then has an empty grid of 28 by 28 pixels
    with its change handler installed, a chart of ten rows, and one
    update done.  It throws an [Error] exactly when the network, its
    layers or a container is missing, and a [TypeError] exactly when the
    scene cannot be built or a neuron has no weight row. *)
Theorem initApp_outcomes (network : option (NetworkDef num))
    (gridContainer chartContainer : bool) (next : nat) :
  match initApp exp toFixed1 node_matrix connection_matrix network gridContainer
          chartContainer next with
  | Ok app =>
      exists definition net,
        network = Some definition
        /\ MLPNetwork_new definition = Ok net
        /\ gridContainer = true /\ chartContainer = true
        /\ scene_buildable net 20
        /\ one_row_per_neuron net
        /\ app_mlp app = net
        /\ hasHandler (app_grid app) = true
        /\ ui_pixels (app_grid app) = replicate (28 * 28) zero
        /\ length (app_chart app) = 10%nat
        /\ app_updates app = 1%nat
  | Throw (Error msg) =>
      network = None
      \/ (exists definition,
            network = Some definition
            /\ (def_layers definition = None \/ def_layers definition = Some []))
      \/ gridContainer = false
      \/ chartContainer = false
  | Throw (TypeError msg) =>
      exists definition net,
        network = Some definition
        /\ MLPNetwork_new definition = Ok net
        /\ gridContainer = true /\ chartContainer = true
        /\ (~ scene_buildable net 20 \/ ~ one_row_per_neuron net)
  end.
Proof.
  unfold initApp. destruct network as [definition|]; [|left; reflexivity].
  destruct (MLPNetwork_new definition) as [net|e] eqn:Hnet.
  2: { cbn [mbind result_bind]. unfold MLPNetwork_new in Hnet.
       destruct (def_layers definition) as [[|l ls]|] eqn:Hls; [|discriminate|].
       - injection Hnet as <-. right. left. exists definition.
         split; [reflexivity|right; exact Hls].
       - injection Hnet as <-. right. left. exists definition.
         split; [reflexivity|left; exact Hls]. }
  cbn [mbind result_bind].
  destruct gridContainer; [|right; right; left; reflexivity].
  cbn [mbind result_bind].
  destruct chartContainer; [|right; right; right; reflexivity].
  cbn [mbind result_bind].
  pose proof (NetworkVisualizer_new_cases node_matrix connection_matrix net
                CONFIG_options next) as Hscene.
  cbv zeta in Hscene.
  destruct (NetworkVisualizer_new node_matrix connection_matrix net CONFIG_options next)
    as [scene|e].
  2: { cbn [mbind result_bind]. destruct Hscene as [[msg ->] Hnot].
       exists definition, net. split; [reflexivity|]. split; [exact Hnet|].
       split; [reflexivity|]. split; [reflexivity|]. left. exact Hnot. }
  cbn [mbind result_bind]. destruct Hscene as [Hbuildable _].
  match goal with
  | |- match updateNetwork exp toFixed1 ?a with _ => _ end =>
      pose proof (updateNetwork_cases a) as Hupdate; set (app0 := a) in *
  end.
  destruct (updateNetwork exp toFixed1 app0) as [app|e].
  - destruct Hupdate as (Hrows & Hgrid & Hmlp & Hupdates & Hchart).
    exists definition, net.
    split; [reflexivity|]. split; [exact Hnet|]. split; [reflexivity|].
    split; [reflexivity|]. split; [exact Hbuildable|]. split; [exact Hrows|].
    split; [exact Hmlp|]. rewrite Hgrid, Hchart, Hupdates.
    split; [reflexivity|]. split; [|split; reflexivity].
    assert (Hg : (grid_values (grid (ui_world (app_grid app0)))
                  < length (store (ui_world (app_grid app0))))%nat) by (simpl; lia).
    rewrite (proj1 (getPixels_keeps_grid (app_grid app0) Hg)). reflexivity.
  - destruct Hupdate as [[msg ->] Hnot].
    exists definition, net. split; [reflexivity|]. split; [exact Hnet|].
    split; [reflexivity|]. split; [reflexivity|]. right. exact Hnot.
Qed.

End InitAppProofs.

(** ** DrawingGrid: the cells on the page *)

Section GridViewProofs.
Variable toFixed0 : xq -> string.

Lemma updateCellVisual_spec (values : list xq) (cells : list CellVisual) (index : nat) :
  let cells' := updateCellVisual toFixed0 values cells index in
  length cells' = length cells
  /\ (forall j, j <> index -> cells' !! j = cells !! j)
  /\ (index < length cells ->
      exists c', cells' !! index = Some c'
                 /\ active c' = negb (leb (idx values index) zero)
                 /\ (active c' = false ->
                     background c' = Some "rgba(255, 255, 255, 0.05)"))%nat.
Proof.
  cbv zeta. unfold updateCellVisual.
  destruct (cells !! index) as [c|] eqn:Hc.
  - destruct (leb (idx values index) zero) eqn:Hle.
    + split; [apply length_insert|]. split.
      * intros j Hj. apply list_lookup_insert_ne. congruence.
      * intros Hi. eexists. split; [apply list_lookup_insert_eq; exact Hi|].
        split; reflexivity.
    + split; [apply length_insert|]. split.
      * intros j Hj. apply list_lookup_insert_ne. congruence.
      * intros Hi. eexists. split; [apply list_lookup_insert_eq; exact Hi|].
        split; [reflexivity|discriminate].
  - split; [reflexivity|]. split; [reflexivity|].
    intros Hi. apply lookup_ge_None in Hc. lia.
Qed.

Lemma xq_gtb_negb_leb (v : xq) : v <> NaN -> gtb v zero = negb (leb v zero).
Proof.
  destruct v as [a| | |]; try done; intros _.
  simpl. unfold ext_gtb, ext_leb. simpl. destruct (Qcompare a (Qred 0)); reflexivity.
Qed.

Lemma buildGrid_spec (values : list xq) :
  buildGrid values
  = replicate (length values) {| background := None; active := false |}.
Proof.
  unfold buildGrid.
  rewrite (push_loop (fun _ => {| background := None; active := false |})).
  simpl. generalize 0%nat. induction (length values) as [|n IH]; intros k; [reflexivity|].
  simpl. rewrite IH. reflexivity.
Qed.

Lemma GridView_new_ok (rows cols : nat) : view_ok rows cols (GridView_new rows cols).
Proof.
  unfold view_ok, GridView_new. cbn [gv_ui gv_cells].
  split; [apply GridUI_new_ok|]. rewrite buildGrid_spec.
  destruct (GridUI_new_ok rows cols) as [_ (_ & _ & Hlen & Hunit)].
  change (grid_array {| world := ui_world (GridUI_new rows cols); handed := [] |})
    with (ui_pixels (GridUI_new rows cols : GridUI xq)) in Hlen, Hunit.
  split; [rewrite length_replicate; exact Hlen|].
  intros i c v Hc Hv. apply lookup_replicate in Hc as [-> _].
  unfold ui_pixels, GridUI_new, DrawingGrid_new, alloc, deref, Float32Array_new in Hv.
  simpl in Hv. apply lookup_replicate in Hv as [-> _]. reflexivity.
Qed.

(** The correspondence of cells and pixels. *)
Lemma paintCell_cells_ok (w : World xq) (cells : list CellVisual) (index : nat)
    (erase : bool) :
  (grid_values (grid w) < length (store w))%nat ->
  length cells = length (deref (store w) (grid_values (grid w))) ->
  Forall in_unit (deref (store w) (grid_values (grid w))) ->
  (forall i c v, cells !! i = Some c ->
     deref (store w) (grid_values (grid w)) !! i = Some v -> active c = gtb v zero) ->
  let w' := paintCell w index erase in
  let cells' := paintCell_cells toFixed0 w cells index erase in
  length cells' = length cells
  /\ forall i c v, cells' !! i = Some c ->
       deref (store w') (grid_values (grid w')) !! i = Some v -> active c = gtb v zero.
Proof.
  intros Hg Hlen Hunit Hcells. cbv zeta. unfold paintCell_cells.
  set (values := deref (store w) (grid_values (grid w))) in *.
  destruct (values !! index) as [v|] eqn:Hv.
  - set (next := fmin one (fmax zero (idx values index ⊕
                   (if erase then lit (-45 # 100) else lit (55 # 100))))).
    assert (Hpaint : paintCell w index erase
                     = if eqb next v then w
                       else {| store := <[grid_values (grid w) :=
                                            <[index := fround next]> values]> (store w);
                               grid := set_pending (grid w) true |}).
    { unfold paintCell. fold values. rewrite Hv. reflexivity. }
    rewrite Hpaint. destruct (eqb next v) eqn:Heq.
    + split; [reflexivity|]. exact Hcells.
    + cbn [store grid grid_values set_pending]. rewrite deref_insert_eq by exact Hg.
      assert (Hnext : in_unit next).
      { unfold next, idx. rewrite Hv. apply clamp_in_unit.
        rewrite Forall_forall in Hunit.
        pose proof (Hunit v (proj2 (list_elem_of_lookup _ _) (ex_intro _ index Hv))) as Hin.
        destruct v as [a| | |]; try done. destruct erase; reflexivity. }
      assert (Hi : (index < length cells)%nat)
        by (rewrite Hlen; apply lookup_lt_Some in Hv; exact Hv).
      destruct (updateCellVisual_spec (<[index := fround next]> values) cells index)
        as (Hlen' & Hother & Hindex).
      split; [exact Hlen'|].
      intros i c v' Hc Hv'. destruct (Nat.eq_dec i index) as [->|Hne].
      * destruct (Hindex Hi) as (c' & Hc' & Hactive & _).
        rewrite Hc in Hc'. injection Hc' as <-.
        rewrite list_lookup_insert_eq in Hv' by (apply lookup_lt_Some in Hv; exact Hv).
        injection Hv' as <-. rewrite Hactive. unfold idx.
        rewrite list_lookup_insert_eq by (apply lookup_lt_Some in Hv; exact Hv).
        symmetry. apply xq_gtb_negb_leb. simpl. apply in_unit_not_nan. exact Hnext.
      * rewrite Hother in Hc by exact Hne.
        rewrite list_lookup_insert_ne in Hv' by congruence.
        exact (Hcells i c v' Hc Hv').
  - assert (Hpaint : paintCell w index erase
                     = {| store := store w; grid := set_pending (grid w) true |}).
    { unfold paintCell. fold values. rewrite Hv. reflexivity. }
    rewrite Hpaint. cbn [store grid grid_values set_pending]. fold values.
    assert (Hnone : cells !! index = None).
    { apply lookup_ge_None. rewrite Hlen. apply lookup_ge_None in Hv. exact Hv. }
    unfold updateCellVisual. rewrite Hnone. split; [reflexivity|]. exact Hcells.
Qed.

Lemma clear_cells_ok (w : World xq) (cells : list CellVisual) :
  (grid_values (grid w) < length (store w))%nat ->
  length cells = length (deref (store w) (grid_values (grid w))) ->
  let cells' := clear_cells toFixed0 w cells in
  length cells' = length cells
  /\ forall i c, cells' !! i = Some c ->
       active c = false /\ background c = Some "rgba(255, 255, 255, 0.05)".
Proof.
  intros Hg Hlen. cbv zeta. unfold clear_cells, clear.
  cbn [store grid grid_values]. rewrite deref_insert_eq by exact Hg.
  set (n := length (deref (store w) (grid_values (grid w)))) in *.
  cut (forall k, (k <= length cells)%nat ->
         let cells' := for_loop k
                         (fun i cells => updateCellVisual toFixed0 (replicate n zero) cells i)
                         cells in
         length cells' = length cells
         /\ forall i c, (i < k)%nat -> cells' !! i = Some c ->
              active c = false /\ background c = Some "rgba(255, 255, 255, 0.05)").
  { intros Hcut. destruct (Hcut (length cells) ltac:(lia)) as [Hl Hall].
    split; [exact Hl|]. intros i c Hc. apply (Hall i c); [|exact Hc].
    apply lookup_lt_Some in Hc. rewrite Hl in Hc. exact Hc. }
  induction k as [|k IH]; intros Hk; cbv zeta.
  - rewrite for_loop_0. split; [reflexivity|]. intros i c Hi. lia.
  - rewrite for_loop_S. destruct (IH ltac:(lia)) as [Hl Hall].
    destruct (updateCellVisual_spec (replicate n zero)
                (for_loop k (fun i cells => updateCellVisual toFixed0 (replicate n zero)
                                             cells i) cells) k)
      as (Hl' & Hother & Hindex).
    split; [rewrite Hl'; exact Hl|].
    intros i c Hi Hc. destruct (Nat.eq_dec i k) as [->|Hne].
    + destruct (Hindex ltac:(rewrite Hl; lia)) as (c' & Hc' & Hactive & Hback).
      rewrite Hc in Hc'. injection Hc' as <-.
      assert (Hzero : idx (replicate n (zero : xq)) k = zero).
      { unfold idx. rewrite lookup_replicate_2 by lia. reflexivity. }
      rewrite Hzero in Hactive. split; [exact Hactive|]. apply Hback. exact Hactive.
    + rewrite Hother in Hc by exact Hne. apply (Hall i c); [lia|exact Hc].
Qed.

Lemma view_step_ok (rows cols : nat) (gv : GridView xq) (ev : ui_event) :
  view_ok rows cols gv -> view_ok rows cols (view_step toFixed0 gv ev).
Proof.
  intros (Hui & Hlen & Hcells).
  destruct (ui_step_ok rows cols (gv_ui gv) ev Hui) as [Hui' _].
  pose proof Hui as [_ (Hg & _ & Hpix & Hunit)].
  change (grid_array {| world := ui_world (gv_ui gv); handed := [] |})
    with (ui_pixels (gv_ui gv)) in Hpix, Hunit.
  cbn [world] in Hg.
  assert (Hll : length (gv_cells gv)
                = length (deref (store (ui_world (gv_ui gv)))
                            (grid_values (grid (ui_world (gv_ui gv))))))
    by (rewrite Hlen; symmetry; exact Hpix).
  unfold view_ok, view_step. cbn [gv_ui gv_cells].
  split; [exact Hui'|].
  destruct ev as [button buttons [index|]|[index|]| | | |]; cbn [ui_step].
  - destruct (paintCell_cells_ok (ui_world (gv_ui gv)) (gv_cells gv) index
                ((button =? 2)%nat || (buttons =? 2)%nat) Hg Hll Hunit Hcells)
      as [Hl Hc].
    split; [rewrite Hl; exact Hlen|exact Hc].
  - split; [exact Hlen|exact Hcells].
  - unfold handlePointerMove. destruct (isDrawing (gv_ui gv));
      [|split; [exact Hlen|exact Hcells]].
    destruct (paintCell_cells_ok (ui_world (gv_ui gv)) (gv_cells gv) index
                (erasing (gv_ui gv)) Hg Hll Hunit Hcells) as [Hl Hc].
    split; [rewrite Hl; exact Hlen|exact Hc].
  - unfold handlePointerMove. destruct (isDrawing (gv_ui gv));
      split; first [exact Hlen|exact Hcells].
  - split; [exact Hlen|exact Hcells].
  - split; [exact Hlen|]. unfold animationFrame.
    destruct Hui as [Hfr _]. rewrite Hfr.
    destruct (pendingChange (grid (ui_world (gv_ui gv))));
      [rewrite for_loop_S, for_loop_0|rewrite for_loop_0]; exact Hcells.
  - split; [exact Hlen|exact Hcells].
  - destruct (clear_cells_ok (ui_world (gv_ui gv)) (gv_cells gv) Hg Hll) as [Hl Hc].
    split; [rewrite Hl; exact Hlen|].
    intros i c v Hci Hv. destruct (Hc i c Hci) as [Hactive _]. rewrite Hactive.
    unfold ui_pixels, ui_clear, clear in Hv. cbn [ui_world store grid grid_values] in Hv.
    rewrite deref_insert_eq in Hv by exact Hg.
    apply lookup_replicate in Hv as [-> _]. reflexivity.
Qed.

Lemma view_run_ok (rows cols : nat) (evs : list ui_event) (gv : GridView xq) :
  view_ok rows cols gv -> view_ok rows cols (view_run toFixed0 evs gv).
Proof.
  revert gv. induction evs as [|ev evs IH]; intros gv Hok; [exact Hok|].
  change (view_run toFixed0 (ev :: evs) gv)
    with (view_run toFixed0 evs (view_step toFixed0 gv ev)).
  apply IH, view_step_ok, Hok.
Qed.

Lemma view_run_ui (evs : list ui_event) (gv : GridView xq) :
  gv_ui (view_run toFixed0 evs gv) = ui_run evs (gv_ui gv).
Proof.
  revert gv. induction evs as [|ev evs IH]; intros gv; [reflexivity|].
  change (view_run toFixed0 (ev :: evs) gv)
    with (view_run toFixed0 evs (view_step toFixed0 gv ev)).
  rewrite IH. reflexivity.
Qed.

(** X28.  At every moment of a grid that started empty, the page shows
    a cell for each pixel, and a cell carries the class "active" exactly
    when its pixel is above 0; the cells are those of the grid that the
    handlers and [clear] act on. *)
Theorem cells_show_pixels (rows cols : nat) (evs : list ui_event) :
  let gv := view_run toFixed0 evs (GridView_new rows cols) in
  gv_ui gv = ui_run evs (GridUI_new rows cols)
  /\ length (gv_cells gv) = (rows * cols)%nat
  /\ length (ui_pixels (gv_ui gv)) = (rows * cols)%nat
  /\ forall i c v,
       gv_cells gv !! i = Some c -> ui_pixels (gv_ui gv) !! i = Some v ->
       (active c = true <-> gtb v zero = true).
Proof.
  cbv zeta.
  destruct (view_run_ok rows cols evs _ (GridView_new_ok rows cols))
    as ([_ (_ & _ & Hpix & _)] & Hlen & Hcells).
  split; [apply view_run_ui|]. split; [exact Hlen|]. split; [exact Hpix|].
  intros i c v Hc Hv. rewrite (Hcells i c v Hc Hv). reflexivity.
Qed.

(** X29.  After [clear], every cell has lost the class "active" and has
    the background of an empty cell, whatever was drawn. *)
Theorem clear_resets_cells (rows cols : nat) (evs : list ui_event) :
  let gv := view_step toFixed0 (view_run toFixed0 evs (GridView_new rows cols))
              ClearGrid in
  length (gv_cells gv) = (rows * cols)%nat
  /\ Forall (fun c => active c = false
                      /\ background c = Some "rgba(255, 255, 255, 0.05)")
       (gv_cells gv)
  /\ ui_pixels (gv_ui gv) = replicate (rows * cols) zero.
Proof.
  cbv zeta.
  destruct (view_run_ok rows cols evs _ (GridView_new_ok rows cols))
    as (Hui & Hlen & _).
  set (gv := view_run toFixed0 evs (GridView_new rows cols)) in *.
  pose proof Hui as [_ (Hg & _ & Hpix & _)].
  change (grid_array {| world := ui_world (gv_ui gv); handed := [] |})
    with (ui_pixels (gv_ui gv)) in Hpix.
  cbn [world] in Hg.
  assert (Hll : length (gv_cells gv)
                = length (deref (store (ui_world (gv_ui gv)))
                            (grid_values (grid (ui_world (gv_ui gv))))))
    by (rewrite Hlen; symmetry; exact Hpix).
  destruct (clear_cells_ok (ui_world (gv_ui gv)) (gv_cells gv) Hg Hll) as [Hl Hc].
  unfold view_step. cbn [gv_ui gv_cells ui_step].
  split; [rewrite Hl; exact Hlen|]. split.
  - apply Forall_forall. intros c Hin. apply list_elem_of_lookup in Hin as [i Hi].
    exact (Hc i c Hi).
  - unfold ui_pixels, ui_clear, clear. cbn [ui_world store grid grid_values].
    rewrite deref_insert_eq by exact Hg.
    unfold ui_pixels in Hpix. rewrite Hpix. reflexivity.
Qed.

End GridViewProofs.
